(** * Chasm: the tracking, sharing and restore coordinator (util.go)

    A shallow embedding of the coordinator of [src/util.go]: the preferences
    ([ChasmPref]), the ignore filter ([IsValidPath]), [AddFile],
    [DeleteFile] / [DeleteDir], [Restore] / [restoreShareID] and
    [CreateOrLoadChasmDir], over an explicit world made of the process-wide
    [preferences], the local disk, the staging areas, the storage backends
    and a trace of the calls the coordinator issues. *)

From Stdlib Require Import Strings.Ascii Strings.String Strings.Byte NArith.
From stdpp Require Import base option list gmap strings sorting pretty.
From Ceres Require Import Ceres.

Local Open Scope string_scope.
Local Open Scope nat_scope.
Local Open Scope list_scope.

(** ** Bytes and strings *)

(** Go's [[]byte]. *)
Abbreviation bytes := (list Byte.byte).

#[global] Instance byte_eq_dec : EqDecision Byte.byte := Byte.byte_eq_dec.

Definition bytes_of_string (s : string) : bytes := list_byte_of_string s.
Definition string_of_bytes (b : bytes) : string := string_of_list_byte b.

Definition slash : ascii := "/"%char.
Definition dot : ascii := "."%char.
Definition LF : ascii := ascii_of_nat 10.
Definition CR : ascii := ascii_of_nat 13.

Definition is_slash (a : ascii) : bool := Ascii.eqb a slash.

(** ** The path functions of Go's [path] and [path/filepath] (Unix) *)

Module path.

(** The components between slashes, as [strings.Split(p, "/")]. *)
Definition components (p : list ascii) : list (list ascii) :=
  foldr (fun a acc =>
           if is_slash a then [] :: acc
           else match acc with
                | c :: cs => (a :: c) :: cs
                | [] => [[a]]
                end) [[]] p.

Definition is_dotdot (c : list ascii) : bool := bool_decide (c = [dot; dot]).

(** One step of [Clean] over a component; [st] holds the components
    written so far, last first. *)
Definition clean_step (rooted : bool) (st : list (list ascii)) (c : list ascii)
  : list (list ascii) :=
  if bool_decide (c = []) || bool_decide (c = [dot]) then st
  else if is_dotdot c then
    match st with
    | h :: t => if is_dotdot h then c :: st else t
    | [] => if rooted then [] else [c]
    end
  else c :: st.

Fixpoint join_slash (cs : list (list ascii)) : list ascii :=
  match cs with
  | [] => []
  | [c] => c
  | c :: cs' => c ++ slash :: join_slash cs'
  end.

(** [path.Clean]: the shortest equivalent path by lexical processing:
    multiple slashes become one, [.] elements go, an inner [..] goes with
    the element before it, and [..] at the start of a rooted path goes. *)
Definition clean_from (rooted : bool) (l : list ascii) : list ascii :=
  let st := foldl (clean_step rooted) [] (components l) in
  let body := join_slash (rev st) in
  if rooted then slash :: body
  else match body with
       | [] => [dot]
       | _ => body
       end.

Definition clean_list (l : list ascii) : list ascii :=
  match l with
  | [] => [dot]
  | a :: _ => clean_from (is_slash a) l
  end.

Definition Clean (p : string) : string :=
  string_of_list_ascii (clean_list (list_ascii_of_string p)).

(** The part of [l] after its last slash, and the part up to and with it. *)
Fixpoint after_last_slash (l : list ascii) : list ascii :=
  match l with
  | [] => []
  | a :: l' =>
      if existsb is_slash l' then after_last_slash l'
      else if is_slash a then l' else l
  end.

Fixpoint upto_last_slash (l : list ascii) : list ascii :=
  match l with
  | [] => []
  | a :: l' =>
      if existsb is_slash l' then a :: upto_last_slash l'
      else if is_slash a then [a] else []
  end.

(** [path.Split]: splits immediately after the final slash. *)
Definition Split (p : string) : string * string :=
  let l := list_ascii_of_string p in
  (string_of_list_ascii (upto_last_slash l),
   string_of_list_ascii (after_last_slash l)).

(** [path.Join] of two elements. *)
Definition Join (a b : string) : string :=
  match a, b with
  | "", "" => ""
  | "", _ => Clean b
  | _, _ => Clean (a +:+ "/" +:+ b)
  end.

(** [path.Dir]: all but the last element, cleaned. *)
Definition Dir (p : string) : string := Clean (fst (Split p)).

Fixpoint strip_trailing_slashes_rev (r : list ascii) : list ascii :=
  match r with
  | a :: r' => if is_slash a then strip_trailing_slashes_rev r' else r
  | [] => []
  end.

(** [filepath.Base]: the last element of the path, trailing slashes
    removed first; [.] for the empty path, [/] for a path of slashes. *)
Definition Base (p : string) : string :=
  match list_ascii_of_string p with
  | [] => "."
  | l =>
      let l1 := rev (strip_trailing_slashes_rev (rev l)) in
      match after_last_slash l1 with
      | [] => "/"
      | b => string_of_list_ascii b
      end
  end.

(** A plain element: not empty, without a slash, neither [.] nor [..]. *)
Definition plain (x : list ascii) : Prop :=
  x ≠ [] ∧ x ≠ [dot] ∧ x ≠ [dot; dot] ∧ Forall (fun a => is_slash a = false) x.

(** What [Clean] writes before the last element of [l/x]. *)
Definition dir_prefix (l : list ascii) : list ascii :=
  let rooted := match l with [] => true | a :: _ => is_slash a end in
  let st := foldl (clean_step rooted) [] (components l) in
  (if rooted then [slash] else [])
  ++ match rev st with
     | [] => []
     | cs => join_slash cs ++ [slash]
     end.

(** The list before the last element of [Join a b], for a plain [b]. *)
Definition join_prefix (a : string) : list ascii :=
  match a with
  | "" => []
  | _ => dir_prefix (list_ascii_of_string a)
  end.

(** The same for the cleaned path: the key of the file on the disk. *)
Definition key_prefix (a : string) : list ascii :=
  match a with
  | "" => []
  | _ => match dir_prefix (list_ascii_of_string a) with
         | [] => []
         | q => dir_prefix (removelast q)
         end
  end.

End path.

(** ** The data model of util.go *)

(** [type ShareID string]. *)
Abbreviation ShareID := string.

(** [Share] is declared outside util.go; util.go builds it as
    [Share{SID: sid, Data: dataBytes}] and leaves it zero otherwise. *)
Record Share := { share_SID : ShareID; share_Data : bytes }.

Definition zeroShare : Share := {| share_SID := ""; share_Data := [] |}.

(** [FileShare]: a share identifier and the base64URL SHA-256 of the file. *)
Record FileShare := { SID : ShareID; Hash : string }.

(** Modelled from the spec: the concrete backend kinds [FolderStore] and
    [GDriveStore] are declared outside util.go. A configuration entry is kept
    as the name that tells its backend apart; what a backend holds lives in
    the world ([cloud] below), not in the preferences. *)
Record FolderStore := { folder_Path : string }.
Record GDriveStore := { gdrive_Account : string }.

(** A value of the interface [CloudStore]: one of the two kinds. *)
Inductive CloudStore :=
| CSFolder (fs : FolderStore)
| CSGDrive (gds : GDriveStore).

#[global] Instance FileShare_eq_dec : EqDecision FileShare.
Proof. solve_decision. Defined.
#[global] Instance Share_eq_dec : EqDecision Share.
Proof. solve_decision. Defined.
#[global] Instance FolderStore_eq_dec : EqDecision FolderStore.
Proof. solve_decision. Defined.
#[global] Instance GDriveStore_eq_dec : EqDecision GDriveStore.
Proof. solve_decision. Defined.
#[global] Instance CloudStore_eq_dec : EqDecision CloudStore.
Proof. solve_decision. Defined.

#[global] Instance CloudStore_countable : Countable CloudStore.
Proof.
  refine (inj_countable'
            (fun cs => match cs with
                       | CSFolder f => inl (folder_Path f)
                       | CSGDrive g => inr (gdrive_Account g)
                       end)
            (fun s => match s with
                      | inl p => CSFolder {| folder_Path := p |}
                      | inr a => CSGDrive {| gdrive_Account := a |}
                      end) _).
  intros [[?]|[?]]; reflexivity.
Defined.

(** [ChasmPref]: the user / application preferences. *)
Record ChasmPref := {
  root : string;
  FolderStores : list FolderStore;
  GDriveStores : list GDriveStore;
  FileMap : gmap string FileShare;
  DirMap : gmap string bool;
}.

#[global] Instance ChasmPref_eq_dec : EqDecision ChasmPref.
Proof. solve_decision. Defined.

(** The zero value of [ChasmPref] with allocated maps. *)
Definition emptyPref : ChasmPref :=
  {| root := ""; FolderStores := []; GDriveStores := []; FileMap := ∅; DirMap := ∅ |}.

Definition set_root (r : string) (p : ChasmPref) : ChasmPref :=
  {| root := r; FolderStores := FolderStores p; GDriveStores := GDriveStores p;
     FileMap := FileMap p; DirMap := DirMap p |}.

Definition set_FileMap (m : gmap string FileShare) (p : ChasmPref) : ChasmPref :=
  {| root := root p; FolderStores := FolderStores p; GDriveStores := GDriveStores p;
     FileMap := m; DirMap := DirMap p |}.

Definition set_DirMap (m : gmap string bool) (p : ChasmPref) : ChasmPref :=
  {| root := root p; FolderStores := FolderStores p; GDriveStores := GDriveStores p;
     FileMap := FileMap p; DirMap := m |}.

(** [RegisteredServices] counts all services. *)
Definition RegisteredServices (p : ChasmPref) : nat :=
  length (FolderStores p) + length (GDriveStores p).

(** [NeedSetup] checks if there are enough services to run. *)
Definition NeedSetup (p : ChasmPref) : bool := (RegisteredServices p <? 2)%nat.

(** One loop of [AllCloudStores]: [cloudStores[ind] = CloudStore(x); ind += 1]
    for every [x] of the slice; an index out of range would panic, which the
    length of [cloudStores] rules out. *)
Fixpoint fill_stores {A} (conv : A → CloudStore) (l : list A) (ind : nat)
         (cloudStores : list (option CloudStore)) : list (option CloudStore) * nat :=
  match l with
  | [] => (cloudStores, ind)
  | x :: l' => fill_stores conv l' (S ind) (<[ind := Some (conv x)]> cloudStores)
  end.

(** [AllCloudStores] combines all the cloud stores: a slice of
    [RegisteredServices] nil entries is filled by the two loops. *)
Definition AllCloudStores_slice (p : ChasmPref) : list (option CloudStore) :=
  let cloudStores := replicate (RegisteredServices p) None in
  let '(cloudStores, ind) := fill_stores CSFolder (FolderStores p) 0 cloudStores in
  fst (fill_stores CSGDrive (GDriveStores p) ind cloudStores).

(** The entries of the slice that are not nil (all of them, see
    [AllCloudStores_slice_full]). *)
Definition AllCloudStores (p : ChasmPref) : list CloudStore :=
  omap id (AllCloudStores_slice p).

Definition chasmPrefFile : string := ".chasm".
Definition chasmIgnoreFile : string := ".chasmignore".

(** ** The local disk *)

Inductive Node :=
| File (data : bytes)
| Directory.

#[global] Instance Node_eq_dec : EqDecision Node.
Proof. solve_decision. Defined.

(** The disk maps a cleaned path to what is there; the root directory and
    the working directory always exist. *)
Abbreviation Disk := (gmap string Node).

Definition node_at (d : Disk) (p : string) : option Node :=
  let q := path.Clean p in
  match d !! q with
  | Some n => Some n
  | None => if bool_decide (q = "/") || bool_decide (q = ".") then Some Directory else None
  end.

(** [ioutil.ReadFile]: the bytes of a regular file, an error otherwise. *)
Definition ReadFile (d : Disk) (p : string) : option bytes :=
  match node_at d p with
  | Some (File b) => Some b
  | _ => None
  end.

Definition is_directory (d : Disk) (p : string) : bool :=
  match node_at d p with
  | Some Directory => true
  | _ => false
  end.

(** [ioutil.WriteFile]: creates or truncates the file; an error ([None]) when
    the path is a directory or its parent directory is missing. *)
Definition WriteFile (d : Disk) (p : string) (data : bytes) : option Disk :=
  let q := path.Clean p in
  match node_at d q with
  | Some Directory => None
  | _ => if is_directory d (path.Dir q) then Some (<[q := File data]> d) else None
  end.

(** The paths of the ancestors of a cleaned path and of the path itself,
    outermost first. *)
Fixpoint prefixes_from (acc : list ascii) (first : bool) (cs : list (list ascii))
  : list string :=
  match cs with
  | [] => []
  | c :: cs' =>
      let acc' := if first then acc ++ c else acc ++ slash :: c in
      string_of_list_ascii acc' :: prefixes_from acc' false cs'
  end.

Definition ancestors (q : string) : list string :=
  match list_ascii_of_string q with
  | [] => []
  | (a :: l') as l =>
      if is_slash a
      then prefixes_from [slash] true
             (filter (fun c => c ≠ []) (path.components l'))
      else prefixes_from [] true (path.components l)
  end.

Fixpoint mkdir_chain (d : Disk) (qs : list string) : Disk :=
  match qs with
  | [] => d
  | q :: rest =>
      match node_at d q with
      | Some Directory => mkdir_chain d rest
      | Some (File _) => d
      | None => mkdir_chain (<[q := Directory]> d) rest
      end
  end.

(** [os.MkdirAll]: creates the directory and the missing parents; stops at a
    parent that is a regular file (the error is not looked at by util.go). *)
Definition MkdirAll (d : Disk) (p : string) : Disk :=
  mkdir_chain d (ancestors (path.Clean p)).

#[global] Instance string_le_dec : RelDecision (fun a b : string => String.leb a b = true).
Proof. intros a b. apply _. Defined.

(** [ioutil.ReadDir]: the names of the entries of a directory, sorted by
    file name. *)
Definition ReadDir (d : Disk) (p : string) : list string :=
  let q := path.Clean p in
  merge_sort (fun a b : string => String.leb a b = true)
    (omap (fun kn : string * Node =>
             if bool_decide (fst kn ≠ q) && bool_decide (path.Dir (fst kn) = q)
             then Some (path.Base (fst kn)) else None)
          (map_to_list d)).

(** ** Backends, staging areas and the world *)

(** Modelled from the spec: a backend holds one share per identifier and has
    a restore capability that downloads all of its shares into a local
    staging location and returns that location, or fails (the empty
    string). The implementations of [Upload], [Delete] and [Restore] of the
    concrete kinds are outside util.go. *)
Record Backend := {
  held : gmap ShareID bytes;
  stagingPath : string;
}.

Definition set_held (h : gmap ShareID bytes) (b : Backend) : Backend :=
  {| held := h; stagingPath := stagingPath b |}.

(** What the coordinator prints (the [color.*] calls of util.go). *)
Inductive Message :=
| CreatingNewFolder
| CouldNotWriteIgnore (p : string)
| PathIgnored (p : string)
| CannotGetFileInfo
| CannotReadFile
| DeletedShare
| PathNotTracked (p : string)
| RestoreFailedFor (cs : CloudStore)
| CannotRestorePreferences
| InvalidChecksum (sid : ShareID)
| ErrorWriting (p : string)
| DoneRestored
| SkippingShare (file : string)
| NotEnoughShares (sid : ShareID).

(** The calls the coordinator issues, in the order it issues them. *)
Inductive Event :=
| EvPrint (m : Message)
| EvUpload (cs : CloudStore) (share : Share)
| EvDelete (cs : CloudStore) (sid : ShareID)
| EvRestore (cs : CloudStore) (sp : string)
| EvSave (p : string) (data : bytes)
| EvMkdirAll (p : string)
| EvWriteFile (p : string) (data : bytes).

#[global] Instance Message_eq_dec : EqDecision Message.
Proof. solve_decision. Defined.
#[global] Instance Event_eq_dec : EqDecision Event.
Proof. solve_decision. Defined.

Record World := {
  preferences : ChasmPref;                    (* var preferences ChasmPref *)
  disk : Disk;                                (* the local file system *)
  staging : gmap string (gmap string bytes);  (* staging location |-> file name |-> bytes *)
  cloud : gmap CloudStore Backend;            (* what each backend holds *)
  drawn : nat;                                (* share identifiers drawn so far *)
  trace : list Event;
}.

Definition set_preferences (f : ChasmPref → ChasmPref) (w : World) : World :=
  {| preferences := f (preferences w); disk := disk w; staging := staging w;
     cloud := cloud w; drawn := drawn w; trace := trace w |}.
Definition set_disk (d : Disk) (w : World) : World :=
  {| preferences := preferences w; disk := d; staging := staging w;
     cloud := cloud w; drawn := drawn w; trace := trace w |}.
Definition set_staging (s : gmap string (gmap string bytes)) (w : World) : World :=
  {| preferences := preferences w; disk := disk w; staging := s;
     cloud := cloud w; drawn := drawn w; trace := trace w |}.
Definition set_cloud (c : gmap CloudStore Backend) (w : World) : World :=
  {| preferences := preferences w; disk := disk w; staging := staging w;
     cloud := c; drawn := drawn w; trace := trace w |}.
Definition set_drawn (n : nat) (w : World) : World :=
  {| preferences := preferences w; disk := disk w; staging := staging w;
     cloud := cloud w; drawn := n; trace := trace w |}.
Definition emit (e : Event) (w : World) : World :=
  {| preferences := preferences w; disk := disk w; staging := staging w;
     cloud := cloud w; drawn := drawn w; trace := trace w ++ [e] |}.

Definition print (m : Message) : World → World := emit (EvPrint m).

(** [cs.Upload(share)]: the backend keeps the share under its identifier. *)
Definition cs_Upload (cs : CloudStore) (share : Share) (w : World) : World :=
  emit (EvUpload cs share)
    (set_cloud (alter (fun b => set_held (<[share_SID share := share_Data share]> (held b)) b)
                  cs (cloud w)) w).

(** [cs.Delete(sid)]: the backend drops the share of that identifier. *)
Definition cs_Delete (cs : CloudStore) (sid : ShareID) (w : World) : World :=
  emit (EvDelete cs sid)
    (set_cloud (alter (fun b => set_held (delete sid (held b)) b) cs (cloud w)) w).

(** [cs.Restore()]: downloads the shares to the backend's staging location
    and returns it; the empty string when the backend cannot. *)
Definition cs_Restore (cs : CloudStore) (w : World) : string * World :=
  match cloud w !! cs with
  | Some b =>
      if bool_decide (stagingPath b = "") then ("", emit (EvRestore cs "") w)
      else (stagingPath b,
            emit (EvRestore cs (stagingPath b))
              (set_staging (<[stagingPath b := held b]> (staging w)) w))
  | None => ("", emit (EvRestore cs "") w)
  end.

(** The file [path.Join(sp, sid)] of a staging location. *)
Definition readStaged (w : World) (sp : string) (sid : ShareID) : option bytes :=
  staging w !! sp ≫= (fun files => files !! sid).

(** What a backend holds under an identifier. *)
Definition holds (w : World) (cs : CloudStore) (sid : ShareID) : option bytes :=
  cloud w !! cs ≫= (fun b => held b !! sid).

(** The staging location a backend gives (the empty string: none). *)
Definition stage_of (w : World) (cs : CloudStore) : string :=
  match cloud w !! cs with
  | Some b => stagingPath b
  | None => ""
  end.

(** ** What util.go takes from outside

    The standard library ([crypto/sha256], [encoding/base64],
    [encoding/json], [filepath.Match]), the functions of the repository that
    util.go calls and does not define ([CreateShares], [CombineShares],
    [RandomShareID]), and the order in which [range] visits a map, which Go
    leaves unspecified.

    Modelled from the spec: [CreateShares], [CombineShares] and
    [RandomShareID] are functions of the repository that util.go calls and
    that are not under src/. They are left abstract here, with the types of
    their call sites; what the theorems need of them (the number of shares
    of a split, that combining the shares of a split gives the bytes back)
    is a hypothesis of the theorem that needs it. *)
Class Externals := {
  sha256_Sum : bytes → bytes;
  base64_URLEncoding : bytes → string;
  (** [filepath.Match(pattern, name)]: (matched, malformed pattern). *)
  filepath_Match : string → string → bool * bool;
  json_MarshalIndent : ChasmPref → bytes;
  json_Unmarshal : bytes → option ChasmPref;
  CreateShares : bytes → ShareID → nat → list Share;
  CombineShares : list Share → bytes;
  (** The identifier the n-th call of [RandomShareID()] returns. *)
  RandomShareID : nat → ShareID;
  range : ∀ A, gmap string A → list (string * A);
}.

Arguments range {_ _} _.

(** How a call ends: it returns, it stops in a run-time panic (an index out
    of range), or the model ran out of fuel. *)
Inductive Outcome :=
| Returned (w : World)
| Panicked (w : World)
| OutOfFuel.

Definition and_then (o : Outcome) (k : World → Outcome) : Outcome :=
  match o with
  | Returned w => k w
  | Panicked w => Panicked w
  | OutOfFuel => OutOfFuel
  end.

Notation "'let*' w ':=' o 'in' k" := (and_then o (fun w => k))
  (at level 10, w name, o at level 100, k at level 200).

(** A [for] loop over a list whose body may panic. *)
Fixpoint for_each {A} (body : A → World → Outcome) (l : list A) (w : World) : Outcome :=
  match l with
  | [] => Returned w
  | x :: l' => let* w' := body x w in for_each body l' w'
  end.

(** ** bufio.Scanner over the ignore file *)

(** The segments between line feeds. *)
Definition segments (l : list ascii) : list (list ascii) :=
  foldr (fun a acc =>
           if Ascii.eqb a LF then [] :: acc
           else match acc with
                | c :: cs => (a :: c) :: cs
                | [] => [[a]]
                end) [[]] l.

(** The input after the last line feed is a line only when it is not empty. *)
Fixpoint drop_last_empty (ls : list (list ascii)) : list (list ascii) :=
  match ls with
  | [] => []
  | [l] => if bool_decide (l = []) then [] else [l]
  | l :: ls' => l :: drop_last_empty ls'
  end.

Definition dropCR_rev (r : list ascii) : list ascii :=
  match r with
  | a :: r' => if Ascii.eqb a CR then r' else r
  | [] => []
  end.

Definition dropCR (l : list ascii) : list ascii := rev (dropCR_rev (rev l)).

Definition MaxScanTokenSize : N := 65536.

(** [scanner.Scan()] stops, with [ErrTooLong], at a line that does not fit
    the buffer of [MaxScanTokenSize] bytes. *)
Fixpoint scan_tokens (ls : list (list ascii)) : list string :=
  match ls with
  | [] => []
  | l :: ls' =>
      if (N.of_nat (length l) <? MaxScanTokenSize)%N
      then string_of_list_ascii (dropCR l) :: scan_tokens ls'
      else []
  end.

(** The values of [scanner.Text()] over the successful calls of
    [scanner.Scan()] (the default split function, [bufio.ScanLines]). *)
Definition scanLines (content : bytes) : list string :=
  scan_tokens (drop_last_empty (segments (list_ascii_of_string (string_of_bytes content)))).

Definition nl : string := String LF EmptyString.

(** ** The coordinator *)

Section Coordinator.

Context `{Ext : Externals}.

(** *** SHA256 helpers *)

Definition SHA256Base64URL (data : bytes) : string :=
  base64_URLEncoding (sha256_Sum data).

Definition checkSHA2 (hash : string) (data : bytes) : bool :=
  bool_decide (SHA256Base64URL data = hash).

(** *** Save *)

(** [Save] saves the chasm preferences: the write error is dropped. *)
Definition Save (w : World) : World :=
  let chasmFilePath := path.Join (root (preferences w)) chasmPrefFile in
  let chasmFileBytes := json_MarshalIndent (preferences w) in
  emit (EvSave chasmFilePath chasmFileBytes)
    (set_disk (default (disk w) (WriteFile (disk w) chasmFilePath chasmFileBytes)) w).

(** *** CreateOrLoadChasmDir

    [json.Unmarshal] fills the exported fields of [preferences] and leaves
    [root]; on an error [preferences] is taken as unchanged. Maps are
    never nil in the model. *)
Definition defaultIgnore : bytes := bytes_of_string (".DS_Store" +:+ nl).

Definition CreateOrLoadChasmDir (root0 : string) (w : World) : World :=
  let w := emit (EvMkdirAll root0) (set_disk (MkdirAll (disk w) root0) w) in
  let chasmFilePath := path.Join root0 chasmPrefFile in
  let w :=
    match ReadFile (disk w) chasmFilePath with
    | None =>
        set_preferences
          (fun p => set_FileMap {[ chasmFilePath := {| SID := chasmPrefFile; Hash := "" |} ]}
                      (set_DirMap ∅ p))
          (print CreatingNewFolder w)
    | Some chasmFileBytes =>
        match json_Unmarshal chasmFileBytes with
        | Some loaded => set_preferences (fun p => set_root (root p) loaded) w
        | None => w
        end
    end in
  let chasmIgnorePath := path.Join root0 chasmIgnoreFile in
  let w :=
    match ReadFile (disk w) chasmIgnorePath with
    | None =>
        let w :=
          set_preferences
            (fun p => set_FileMap
                        (<[chasmIgnorePath := {| SID := chasmIgnoreFile;
                                                 Hash := SHA256Base64URL defaultIgnore |}]>
                           (FileMap p)) p) w in
        let w := emit (EvWriteFile chasmIgnorePath defaultIgnore) w in
        match WriteFile (disk w) chasmIgnorePath defaultIgnore with
        | Some d => set_disk d w
        | None => print (CouldNotWriteIgnore chasmFilePath) w
        end
    | Some _ => w
    end in
  Save (set_preferences (set_root root0) w).

(** *** IsValidPath

    A path is valid when its base name matches no pattern of the
    .chasmignore file; every path is valid when the file cannot be
    opened. The diagnostics of [fmt.Println] are not part of the trace. *)
Definition IsValidPath (w : World) (filePath : string) : bool :=
  let base := path.Base filePath in
  let chasmIgnorePath := path.Join (root (preferences w)) chasmIgnoreFile in
  match node_at (disk w) chasmIgnorePath with
  | None => true
  | Some Directory => true
  | Some (File chasmIgnore) =>
      negb (existsb (fun pattern => fst (filepath_Match pattern base))
              (scanLines chasmIgnore))
  end.

(** *** AddFile *)

(** [for i, cs := range allCloudStores { cs.Upload(shares[i]) }], from
    index [i] on: [shares[i]] panics when [i] is out of range. *)
Fixpoint uploadShares (i : nat) (stores : list CloudStore) (shares : list Share)
         (w : World) : Outcome :=
  match stores with
  | [] => Returned w
  | cs :: rest =>
      match shares !! i with
      | Some share => uploadShares (S i) rest shares (cs_Upload cs share w)
      | None => Panicked w
      end
  end.

(** The part of [AddFile] after the [switch]: a regular file. *)
Definition addRegularFile (filePath : string) (w : World) : Outcome :=
  let '(sid, w) :=
    match FileMap (preferences w) !! filePath with
    | Some existingFileShare => (SID existingFileShare, w)
    | None => (RandomShareID (drawn w), set_drawn (S (drawn w)) w)
    end in
  match ReadFile (disk w) filePath with
  | None => Returned (print CannotReadFile w)
  | Some fileBytes =>
      let w :=
        set_preferences
          (fun p => set_FileMap
                      (<[filePath := {| SID := sid; Hash := SHA256Base64URL fileBytes |}]>
                         (FileMap p)) p) w in
      let allCloudStores := AllCloudStores (preferences w) in
      let shares := CreateShares fileBytes sid (length allCloudStores) in
      let* w := uploadShares 0 allCloudStores shares w in
      if bool_decide (sid ≠ chasmPrefFile) then Returned (Save w) else Returned w
  end.

(** [AddFile] secret shares the file and uploads each share to the
    corresponding service; a directory is marked and its entries are added
    in turn. [fuel] bounds the depth of the recursion. *)
Fixpoint AddFile (fuel : nat) (filePath : string) (w : World) : Outcome :=
  match fuel with
  | 0 => OutOfFuel
  | S fuel' =>
      if negb (IsValidPath w filePath) then Returned (print (PathIgnored filePath) w)
      else
        match node_at (disk w) filePath with
        | None => Returned (print CannotGetFileInfo w)
        | Some Directory =>
            let files := ReadDir (disk w) filePath in
            let w :=
              set_preferences
                (fun p => set_DirMap (<[path.Clean filePath := true]> (DirMap p)) p) w in
            for_each (fun f => AddFile fuel' (path.Join filePath f)) files w
        | Some (File _) => addRegularFile filePath w
        end
  end.

(** *** DeleteFile and DeleteDir *)

(** The part of [DeleteFile] after the directory test. *)
Definition deleteTracked (filePath : string) (w : World) : World :=
  let allCloudStores := AllCloudStores (preferences w) in
  match FileMap (preferences w) !! filePath with
  | Some fileShare =>
      let w := foldl (fun w cs => cs_Delete cs (SID fileShare) w) w allCloudStores in
      let w := set_preferences (fun p => set_FileMap (delete filePath (FileMap p)) p) w in
      print DeletedShare (Save w)
  | None => print (PathNotTracked filePath) w
  end.

(** [DeleteDir], over the function it calls for every file of the
    directory. The range is over [preferences.FileMap] itself: an entry
    removed before it is reached is not produced. *)
Definition DeleteDir_with (DeleteFile : string → World → Outcome)
           (dirPath : string) (w : World) : Outcome :=
  let w := set_preferences (fun p => set_DirMap (delete dirPath (DirMap p)) p) w in
  for_each
    (fun (entry : string * FileShare) w =>
       let filePath := fst entry in
       match FileMap (preferences w) !! filePath with
       | None => Returned w
       | Some _ =>
           let dirMatch := fst (path.Split filePath) in
           if bool_decide (path.Clean dirMatch ≠ path.Clean dirPath) then Returned w
           else DeleteFile filePath w
       end)
    (range (FileMap (preferences w))) w.

(** [DeleteFile] deletes the remote share of this path by its shareId. *)
Fixpoint DeleteFile (fuel : nat) (filePath : string) (w : World) : Outcome :=
  match fuel with
  | 0 => OutOfFuel
  | S fuel' =>
      if negb (IsValidPath w filePath) then Returned (print (PathIgnored filePath) w)
      else
        let potenDirPath := path.Clean filePath in
        match DirMap (preferences w) !! potenDirPath with
        | Some _ => DeleteDir_with (DeleteFile fuel') potenDirPath w
        | None => Returned (deleteTracked filePath w)
        end
  end.

Definition DeleteDir (fuel : nat) : string → World → Outcome :=
  DeleteDir_with (DeleteFile fuel).

(** *** Restore *)

(** Step (1) of [Restore]: the staging locations of all stores, or the
    abort at the first store without one. *)
Fixpoint fetchSharePaths (stores : list CloudStore) (w : World)
  : option (list string) * World :=
  match stores with
  | [] => (Some [], w)
  | cs :: rest =>
      let '(sp, w) := cs_Restore cs w in
      if bool_decide (sp = "") then (None, print (RestoreFailedFor cs) w)
      else
        let '(r, w) := fetchSharePaths rest w in
        (cons sp <$> r, w)
  end.

(** The loop of [restoreShareID]: the shares read, how many were found. *)
Fixpoint readShares (sid : ShareID) (sharePaths : list string) (w : World)
  : list Share * nat * World :=
  match sharePaths with
  | [] => ([], 0, w)
  | sp :: rest =>
      let file := path.Join sp sid in
      match readStaged w sp sid with
      | None =>
          let '(fileShares, sharesFound, w) :=
            readShares sid rest (print (SkippingShare file) w) in
          (zeroShare :: fileShares, sharesFound, w)
      | Some dataBytes =>
          let '(fileShares, sharesFound, w) := readShares sid rest w in
          ({| share_SID := sid; share_Data := dataBytes |} :: fileShares,
           S sharesFound, w)
      end
  end.

Definition restoreShareID (sid : ShareID) (sharePaths : list string) (w : World)
  : bytes * World :=
  let '(fileShares, sharesFound, w) := readShares sid sharePaths w in
  if sharesFound <? RegisteredServices (preferences w)
  then ([], print (NotEnoughShares sid) w)
  else (CombineShares fileShares, w).

(** Step (3): one directory of the restored preferences. *)
Definition restoreDir (w : World) (entry : string * bool) : World :=
  let dirPath := fst entry in
  let w := emit (EvMkdirAll dirPath) (set_disk (MkdirAll (disk w) dirPath) w) in
  set_preferences (fun p => set_DirMap (<[dirPath := true]> (DirMap p)) p) w.

(** Step (4): one file of the restored preferences. *)
Definition restoreFile (sharePaths : list string) (w : World)
           (entry : string * FileShare) : World :=
  let '(filePath, fileShare) := entry in
  let '(fileBytes, w) := restoreShareID (SID fileShare) sharePaths w in
  if bool_decide (length fileBytes = 0) then w
  else if bool_decide (SID fileShare ≠ chasmPrefFile)
          && negb (checkSHA2 (Hash fileShare) fileBytes)
  then print (InvalidChecksum (SID fileShare)) w
  else
    let w := emit (EvWriteFile filePath fileBytes) w in
    match WriteFile (disk w) filePath fileBytes with
    | Some d => set_disk d w
    | None => print (ErrorWriting filePath) w
    end.

(** [Restore] shares to the original files. *)
Definition Restore (w : World) : World :=
  let allCloudStores := AllCloudStores (preferences w) in
  match fetchSharePaths allCloudStores w with
  | (None, w) => w
  | (Some sharePaths, w) =>
      let '(chasmFileBytes, w) := restoreShareID chasmPrefFile sharePaths w in
      match json_Unmarshal chasmFileBytes with
      | None => print CannotRestorePreferences w
      | Some restoredPrefs =>
          let w := foldl restoreDir w (range (DirMap restoredPrefs)) in
          let w := foldl (restoreFile sharePaths) w (range (FileMap restoredPrefs)) in
          print DoneRestored w
      end
  end.

End Coordinator.

(** ** Vocabulary of the properties *)

(** *** Projections of a trace *)

(** The bytes the coordinator wrote to the path, in order. *)
Definition written (filePath : string) (evs : list Event) : list bytes :=
  omap (fun e => match e with
                 | EvWriteFile p data => if decide (p = filePath) then Some data else None
                 | _ => None
                 end) evs.

Definition printed (evs : list Event) : list Message :=
  omap (fun e => match e with EvPrint m => Some m | _ => None end) evs.

(** The delete calls to the backends, in order. *)
Definition deleted (evs : list Event) : list (CloudStore * ShareID) :=
  omap (fun e => match e with EvDelete cs sid => Some (cs, sid) | _ => None end) evs.

(** The upload calls to the backends, in order. *)
Definition uploaded (evs : list Event) : list (CloudStore * Share) :=
  omap (fun e => match e with EvUpload cs share => Some (cs, share) | _ => None end) evs.

(** The number of saves of the preferences. *)
Definition saves (evs : list Event) : nat :=
  length (omap (fun e => match e with EvSave p _ => Some p | _ => None end) evs).

Section Vocabulary.

Context `{Ext : Externals}.

(** The base name of the path matches a pattern that the scan of the
    .chasmignore file reads. *)
Definition ignored (w : World) (filePath : string) : Prop :=
  ∃ content pattern,
    node_at (disk w) (path.Join (root (preferences w)) chasmIgnoreFile) = Some (File content)
    ∧ pattern ∈ scanLines content
    ∧ fst (filepath_Match pattern (path.Base filePath)) = true.

(** The staging fetch of the backend fails: it is not there, or it has no
    staging location to give. *)
Definition fetch_fails (w : World) (cs : CloudStore) : Prop :=
  match cloud w !! cs with
  | Some b => stagingPath b = ""
  | None => True
  end.

Definition is_restore_call (e : Event) : Prop := ∃ cs sp, e = EvRestore cs sp.

(** The identifier [AddFile] takes for the path: the one of the record when
    the path is tracked, a new one otherwise. *)
Definition share_id_for (w : World) (filePath : string) : ShareID :=
  match FileMap (preferences w) !! filePath with
  | Some existingFileShare => SID existingFileShare
  | None => RandomShareID (drawn w)
  end.

Definition is_save (e : Event) : Prop := ∃ p data, e = EvSave p data.

(** The two worlds have the same root and the same ignore file: they filter
    paths alike. *)
Definition same_filter (w w' : World) : Prop :=
  root (preferences w') = root (preferences w)
  ∧ node_at (disk w') (path.Join (root (preferences w)) chasmIgnoreFile)
    = node_at (disk w) (path.Join (root (preferences w)) chasmIgnoreFile).

(** The file is directly in the directory: the test of [DeleteDir]. *)
Definition is_child (dirPath filePath : string) : Prop :=
  path.Clean (fst (path.Split filePath)) = path.Clean dirPath.

#[global] Instance is_child_dec dirPath filePath : Decision (is_child dirPath filePath).
Proof. unfold is_child. apply _. Defined.

(** [range] visits every entry of the map once, in some order. *)
Definition range_sound : Prop :=
  ∀ A (m : gmap string A), range m ≡ₚ map_to_list m.

(** The body of the loop of [DeleteDir]. *)
Definition DeleteDir_body (fuel : nat) (dirPath : string)
           (entry : string * FileShare) (w : World) : Outcome :=
  match FileMap (preferences w) !! fst entry with
  | None => Returned w
  | Some _ =>
      if bool_decide (path.Clean (fst (path.Split (fst entry))) ≠ path.Clean dirPath)
      then Returned w
      else DeleteFile fuel (fst entry) w
  end.

Definition is_print (e : Event) : Prop := ∃ m, e = EvPrint m.
Definition is_mkdir (e : Event) : Prop := ∃ p, e = EvMkdirAll p.

(** A write of the bytes of a record that passed the test of step (4). *)
Definition verified_write (filePath : string) (fileShare : FileShare) (e : Event) : Prop :=
  ∃ data, e = EvWriteFile filePath data ∧ data ≠ []
          ∧ (SID fileShare = chasmPrefFile ∨ checkSHA2 (Hash fileShare) data = true).

(** The step leaves the preferences but the directory set, the staging
    areas and the backends as they are, and appends events of the kind [P]. *)
Definition appends (P : Event → Prop) (w w' : World) : Prop :=
  (∃ evs, trace w' = trace w ++ evs ∧ Forall P evs)
  ∧ staging w' = staging w ∧ cloud w' = cloud w
  ∧ FileMap (preferences w') = FileMap (preferences w)
  ∧ RegisteredServices (preferences w') = RegisteredServices (preferences w).

(** The events a step appends are of the kind [P]. *)
Definition trace_appends (P : Event → Prop) (w w' : World) : Prop :=
  ∃ evs, trace w' = trace w ++ evs ∧ Forall P evs.

(** The preferences that [Restore] reconstructs from the backends. *)
Definition manifest_of (w : World) : option ChasmPref :=
  match fetchSharePaths (AllCloudStores (preferences w)) w with
  | (Some sharePaths, w1) =>
      json_Unmarshal (fst (restoreShareID chasmPrefFile sharePaths w1))
  | (None, _) => None
  end.

(** An event of the steps (2) to (4) of [Restore]. *)
Definition restore_event (w : World) (e : Event) : Prop :=
  is_print e ∨ is_mkdir e
  ∨ ∃ restoredPrefs filePath fileShare,
      manifest_of w = Some restoredPrefs
      ∧ (filePath, fileShare) ∈ range (FileMap restoredPrefs)
      ∧ verified_write filePath fileShare e.

(** The bytes [restoreShareID] returns, from the staging areas and the
    number of registered services alone. *)
Definition staged (stg : gmap string (gmap string bytes)) (sid : ShareID) (sp : string)
  : option bytes :=
  stg !! sp ≫= (fun files => files !! sid).

Definition share_of (sid : ShareID) (o : option bytes) : Share :=
  match o with
  | Some dataBytes => {| share_SID := sid; share_Data := dataBytes |}
  | None => zeroShare
  end.

Definition candidate (stg : gmap string (gmap string bytes)) (n : nat)
           (sid : ShareID) (sharePaths : list string) : bytes :=
  let found := staged stg sid <$> sharePaths in
  if length (omap id found) <? n then []
  else CombineShares (share_of sid <$> found).

(** What step (4) writes for a record, by the staging areas. *)
Definition expected_writes (stg : gmap string (gmap string bytes)) (n : nat)
           (sharePaths : list string) (fileShare : FileShare) : list bytes :=
  let c := candidate stg n (SID fileShare) sharePaths in
  if bool_decide (c = []) then []
  else if bool_decide (SID fileShare ≠ chasmPrefFile)
          && negb (checkSHA2 (Hash fileShare) c)
       then [] else [c].

(** The messages of step (4) for a record. *)
Definition reports (stg : gmap string (gmap string bytes)) (n : nat)
           (sharePaths : list string) (fileShare : FileShare) (evs : list Event) : Prop :=
  (length (omap id (staged stg (SID fileShare) <$> sharePaths)) < n →
   EvPrint (NotEnoughShares (SID fileShare)) ∈ evs)
  ∧ (candidate stg n (SID fileShare) sharePaths ≠ [] →
     SID fileShare ≠ chasmPrefFile →
     checkSHA2 (Hash fileShare) (candidate stg n (SID fileShare) sharePaths) = false →
     EvPrint (InvalidChecksum (SID fileShare)) ∈ evs).

#[global] Instance fetch_fails_dec w cs : Decision (fetch_fails w cs).
Proof. unfold fetch_fails. destruct (cloud w !! cs); apply _. Defined.

End Vocabulary.

(** *** What an operation leaves and what it may change *)

Definition is_upload (e : Event) : Prop := ∃ cs share, e = EvUpload cs share.
Definition is_delete (e : Event) : Prop := ∃ cs sid, e = EvDelete cs sid.
Definition is_write (e : Event) : Prop := ∃ p data, e = EvWriteFile p data.

(** The key of the preferences file on the disk. *)
Definition chasmKey (w : World) : string :=
  path.Clean (path.Join (root (preferences w)) chasmPrefFile).

(** The root and the configured backends are the same, and the disks differ
    at most in the content of the preferences file. *)
Definition same_setup (w w' : World) : Prop :=
  root (preferences w') = root (preferences w)
  ∧ FolderStores (preferences w') = FolderStores (preferences w)
  ∧ GDriveStores (preferences w') = GDriveStores (preferences w)
  ∧ (∀ k, k ≠ chasmKey w → disk w' !! k = disk w !! k)
  ∧ (∀ data, disk w !! chasmKey w = Some (File data) →
       ∃ data', disk w' !! chasmKey w = Some (File data')).

(** From [w] to [w'] nothing is forgotten: every tracked path is still
    tracked under the same identifier, every marked directory is still
    marked, every share a backend holds is still held (perhaps with other
    data), and the calls in between are uploads, saves and messages. *)
Definition grows (w w' : World) : Prop :=
  same_setup w w'
  ∧ (∀ k fs, FileMap (preferences w) !! k = Some fs →
       ∃ fs', FileMap (preferences w') !! k = Some fs' ∧ SID fs' = SID fs)
  ∧ (∀ k b, DirMap (preferences w) !! k = Some b →
       ∃ b', DirMap (preferences w') !! k = Some b' ∧ (b = true → b' = true))
  ∧ (∀ cs sid, is_Some (holds w cs sid) → is_Some (holds w' cs sid))
  ∧ ∃ evs, trace w' = trace w ++ evs
           ∧ Forall (fun e => is_upload e ∨ is_save e ∨ is_print e) evs.

(** From [w] to [w'] nothing is gained: the records, the marks and the
    shares the backends hold are among those of before, and the calls in
    between are deletes, saves and messages. *)
Definition shrinks (w w' : World) : Prop :=
  same_setup w w'
  ∧ FileMap (preferences w') ⊆ FileMap (preferences w)
  ∧ DirMap (preferences w') ⊆ DirMap (preferences w)
  ∧ (∀ cs sid data, holds w' cs sid = Some data → holds w cs sid = Some data)
  ∧ ∃ evs, trace w' = trace w ++ evs
           ∧ Forall (fun e => is_delete e ∨ is_save e ∨ is_print e) evs.

(** The world an outcome stops in. *)
Definition stops_in (o : Outcome) (w' : World) : Prop :=
  o = Returned w' ∨ o = Panicked w'.

(** From [w] to [w'] only the directory set and the disk may differ: the
    records, the root, the configured backends and what the backends hold
    are the same, every marked directory is still marked, and the calls in
    between are staging fetches, messages, [MkdirAll] and [WriteFile]. *)
Definition restores (w w' : World) : Prop :=
  set_DirMap (DirMap (preferences w)) (preferences w') = preferences w
  ∧ (∀ k, is_Some (DirMap (preferences w) !! k) → is_Some (DirMap (preferences w') !! k))
  ∧ cloud w' = cloud w
  ∧ ∃ evs, trace w' = trace w ++ evs
           ∧ Forall (fun e => is_restore_call e ∨ is_print e ∨ is_mkdir e ∨ is_write e) evs.

(** The message of a checksum mismatch for an identifier. *)
Definition reports_checksum (sid : ShareID) (e : Event) : Prop :=
  e = EvPrint (InvalidChecksum sid).

(** ** A small instance to run the coordinator on

    Stand-ins for what util.go takes from outside, used to evaluate the
    coordinator on concrete worlds: the digest is the content itself and a
    fingerprint is the digest after a fixed prefix (never empty), a
    pattern matches the name equal to it (as [filepath.Match] does for a
    pattern without metacharacters), the preferences are written as an
    S-expression, every share of the n-of-n split carries the data and
    combining takes the first, identifiers are numbered, and [range] visits
    a map in the order of [map_to_list]. *)
Module Demo.

(** The exported fields of the preferences, as they are written. *)
Definition Wire : Type :=
  list string * (list string * (list (string * (string * string)) * list (string * bool))).

Definition to_wire (p : ChasmPref) : Wire :=
  (folder_Path <$> FolderStores p,
   (gdrive_Account <$> GDriveStores p,
    ((fun kv : string * FileShare => (fst kv, (SID (snd kv), Hash (snd kv))))
       <$> map_to_list (FileMap p),
     map_to_list (DirMap p)))).

Definition of_wire (x : Wire) : ChasmPref :=
  let '(fs, (gs, (files, dirs))) := x in
  {| root := "";
     FolderStores := Build_FolderStore <$> fs;
     GDriveStores := Build_GDriveStore <$> gs;
     FileMap := list_to_map
                  ((fun kv : string * (string * string) =>
                      (fst kv, {| SID := fst (snd kv); Hash := snd (snd kv) |}))
                     <$> files);
     DirMap := list_to_map dirs |}.

Definition marshal (p : ChasmPref) : bytes :=
  bytes_of_string (to_string (to_wire p)).

Definition unmarshal (b : bytes) : option ChasmPref :=
  match (from_string (string_of_bytes b) : CeresDeserialize.error + Wire) with
  | inr x => Some (of_wire x)
  | inl _ => None
  end.

#[export] Instance ext : Externals := {|
  sha256_Sum := fun data => data;
  base64_URLEncoding := fun digest => "sha-" +:+ string_of_bytes digest;
  filepath_Match := fun pattern name => (String.eqb pattern name, false);
  json_MarshalIndent := marshal;
  json_Unmarshal := unmarshal;
  CreateShares := fun data sid n => replicate n {| share_SID := sid; share_Data := data |};
  CombineShares := fun shares =>
                     match shares with
                     | s :: _ => share_Data s
                     | [] => []
                     end;
  RandomShareID := fun n => "id-" +:+ pretty n;
  range := fun A m => map_to_list m;
|}.

Definition folder : CloudStore := CSFolder {| folder_Path := "/mnt/box" |}.
Definition drive : CloudStore := CSGDrive {| gdrive_Account := "me" |}.

(** Two registered backends, both empty and reachable; an empty disk. *)
Definition fresh : World :=
  {| preferences := {| root := ""; FolderStores := [ {| folder_Path := "/mnt/box" |} ];
                       GDriveStores := [ {| gdrive_Account := "me" |} ];
                       FileMap := ∅; DirMap := ∅ |};
     disk := ∅;
     staging := ∅;
     cloud := {[ folder := {| held := ∅; stagingPath := "/tmp/restore-box" |};
                 drive := {| held := ∅; stagingPath := "/tmp/restore-drive" |} ]};
     drawn := 0;
     trace := [] |}.

(** The world after the root "/r" is initialised. *)
Definition initialised : World := CreateOrLoadChasmDir "/r" fresh.

Definition clear_trace (w : World) : World :=
  {| preferences := preferences w; disk := disk w; staging := staging w;
     cloud := cloud w; drawn := drawn w; trace := [] |}.

Definition put (p : string) (n : Node) (w : World) : World :=
  set_disk (<[p := n]> (disk w)) w.

Definition world_of (o : Outcome) : World :=
  match o with
  | Returned w => w
  | Panicked w => w
  | OutOfFuel => fresh
  end.

(** [AddFile] on the preferences file, as the callers of util.go do after a
    change, so that the backends hold the current preferences. *)
Definition add (filePath : string) (w : World) : World :=
  world_of (AddFile 4 filePath w).

Definition remove_node (p : string) (w : World) : World :=
  set_disk (delete p (disk w)) w.

(** A directory without entries under the root. *)
Definition with_empty_dir : World :=
  clear_trace (put "/r/e" Directory initialised).

(** The same directory once it is tracked. *)
Definition empty_dir_tracked : World :=
  clear_trace (add "/r/e" with_empty_dir).

(** A directory with a file and a subdirectory with a file, all added. *)
Definition tree : World :=
  put "/r/d" Directory
    (put "/r/d/a.txt" (File (bytes_of_string "aa"))
       (put "/r/d/sub" Directory
          (put "/r/d/sub/b.txt" (File (bytes_of_string "bb")) initialised))).

Definition tree_tracked : World := clear_trace (add "/r/d" tree).

(** One registered backend only. *)
Definition single_fresh : World :=
  {| preferences := {| root := ""; FolderStores := [ {| folder_Path := "/mnt/box" |} ];
                       GDriveStores := []; FileMap := ∅; DirMap := ∅ |};
     disk := ∅;
     staging := ∅;
     cloud := {[ folder := {| held := ∅; stagingPath := "/tmp/restore-box" |} ]};
     drawn := 0;
     trace := [] |}.

Definition single : World :=
  clear_trace (put "/r/a.txt" (File (bytes_of_string "aa"))
                 (put "/r/n.txt" (File (bytes_of_string "nn"))
                    (CreateOrLoadChasmDir "/r" single_fresh))).

Definition single_tracked : World := clear_trace (add "/r/a.txt" single).

(** An empty file and a file of five bytes are added, the ignore file and
    the preferences are uploaded, and both files are lost from the disk. *)
Definition two_files : World :=
  put "/r/empty" (File [])
    (put "/r/full.txt" (File (bytes_of_string "hello")) initialised).

Definition two_files_added : World :=
  add "/r/.chasm" (add "/r/full.txt" (add "/r/empty" (add "/r/.chasmignore" two_files))).

Definition two_files_lost : World :=
  clear_trace (remove_node "/r/empty" (remove_node "/r/full.txt" two_files_added)).

(** The same, and the drive backend has lost its share of the file of five
    bytes. *)
Definition drop_share (cs : CloudStore) (sid : ShareID) (w : World) : World :=
  set_cloud (alter (fun b => set_held (delete sid (held b)) b) cs (cloud w)) w.

Definition one_share_missing : World := drop_share drive "id-1" two_files_lost.

(** The same, and the drive backend cannot give a staging location. *)
Definition drive_down : World :=
  set_cloud (<[drive := {| held := ∅; stagingPath := "" |}]> (cloud two_files_lost))
    two_files_lost.

(** The same as [two_files_lost], and the share of the file of five bytes at
    the folder backend has been changed. *)
Definition tampered : World :=
  set_cloud (alter (fun b => set_held (<["id-1" := bytes_of_string "jello"]> (held b)) b)
               folder (cloud two_files_lost))
    two_files_lost.

(** The preferences [Restore] reconstructs in a world, and the world after
    its step (1). *)
Definition manifest (w : World) : ChasmPref := default emptyPref (manifest_of w).

Definition fetched (w : World) : World :=
  snd (fetchSharePaths (AllCloudStores (preferences w)) w).

(** A file is added and the preferences are uploaded; the file is then
    truncated and added again, the preferences are not uploaded again, and
    the file is lost from the disk. *)
Definition truncated : World :=
  let w := add "/r/.chasm"
             (add "/r/f.txt"
                (add "/r/.chasmignore"
                   (put "/r/f.txt" (File (bytes_of_string "hello")) initialised))) in
  let w := add "/r/f.txt" (put "/r/f.txt" (File []) w) in
  clear_trace (remove_node "/r/f.txt" w).

(** A tracked file whose name the ignore file comes to list afterwards. *)
Definition now_ignored : World :=
  clear_trace
    (put "/r/.chasmignore"
       (File (bytes_of_string (".DS_Store" +:+ nl +:+ "x.tmp" +:+ nl)))
       (add "/r/x.tmp" (put "/r/x.tmp" (File (bytes_of_string "x")) initialised))).

(** The same stand-ins, but the split gives one share less than asked. *)
Definition short_ext : Externals := {|
  sha256_Sum := @sha256_Sum ext;
  base64_URLEncoding := @base64_URLEncoding ext;
  filepath_Match := @filepath_Match ext;
  json_MarshalIndent := @json_MarshalIndent ext;
  json_Unmarshal := @json_Unmarshal ext;
  CreateShares := fun data sid n => replicate (pred n) {| share_SID := sid; share_Data := data |};
  CombineShares := @CombineShares ext;
  RandomShareID := @RandomShareID ext;
  range := @range ext;
|}.

(** The tree is added and the preferences are uploaded. *)
Definition tree_uploaded : World := clear_trace (add "/r/.chasm" (add "/r/d" tree)).

(** The drive backend has lost its share of the preferences file. *)
Definition manifest_share_missing : World := drop_share drive ".chasm" two_files_lost.

(** A later run: the zero preferences on the disk that [Save] left. *)
Definition later_run : World :=
  {| preferences := emptyPref; disk := disk (Save initialised); staging := ∅;
     cloud := cloud initialised; drawn := 0; trace := [] |}.

End Demo.

(** ** Checks of the environment model on small inputs *)

Definition demo_disk : Disk :=
  {[ "/r" := Directory; "/r/b.txt" := File (bytes_of_string "bb");
     "/r/a.txt" := File []; "/r/d" := Directory; "/r/d/c" := File [] ]}.

Example Clean_ex1 : path.Clean "/../a/b/../././/c" = "/a/c". Proof. reflexivity. Qed.
Example Clean_ex2 : path.Clean "a/c/b/.." = "a/c". Proof. reflexivity. Qed.
Example Clean_ex3 : path.Clean "../../a/.." = "../..". Proof. reflexivity. Qed.
Example Clean_ex4 : path.Clean "/" = "/" /\ path.Clean "" = "." /\ path.Clean "a/.." = ".".
Proof. repeat split. Qed.
Example Split_ex : path.Split "/r/d/sub/f.txt" = ("/r/d/sub/", "f.txt")
                   /\ path.Split "f.txt" = ("", "f.txt") /\ path.Split "/r/d/" = ("/r/d/", "").
Proof. repeat split. Qed.
Example Join_ex : path.Join "/r" ".chasm" = "/r/.chasm" /\ path.Join "" "a" = "a"
                  /\ path.Join "/r/d/" "../x" = "/r/x".
Proof. repeat split. Qed.
Example Base_ex : path.Base "/r/d/.DS_Store" = ".DS_Store" /\ path.Base "/r/d/" = "d"
                  /\ path.Base "///" = "/" /\ path.Base "" = ".".
Proof. repeat split. Qed.
Example ReadDir_ex : ReadDir demo_disk "/r/" = ["a.txt"; "b.txt"; "d"].
Proof. vm_compute. reflexivity. Qed.
Example MkdirAll_ex :
  MkdirAll ∅ "/x/y//z" = {[ "/x" := Directory; "/x/y" := Directory; "/x/y/z" := Directory ]}.
Proof. vm_compute. reflexivity. Qed.
Example WriteFile_ex :
  WriteFile demo_disk "/r/d" [] = None /\ WriteFile demo_disk "/q/f" [] = None
  /\ WriteFile demo_disk "/r/d/../n" [] = Some (<["/r/n" := File []]> demo_disk).
Proof. repeat apply conj; vm_compute; reflexivity. Qed.
Example scanLines_ex :
  scanLines (bytes_of_string (".DS_Store" +:+ nl +:+ nl +:+ "*.tmp" +:+ String CR nl +:+ "x"))
  = [".DS_Store"; ""; "*.tmp"; "x"]
  /\ scanLines (bytes_of_string (".DS_Store" +:+ nl)) = [".DS_Store"]
  /\ scanLines [] = [].
Proof. repeat apply conj; vm_compute; reflexivity. Qed.

(** ** Properties *)

Section Properties.

Context `{Ext : Externals}.

(** *** The ignore filter *)

Lemma IsValidPath_false w filePath :
  IsValidPath w filePath = false ↔ ignored w filePath.
Proof.
  unfold IsValidPath, ignored. split.
  - destruct (node_at _ _) as [[content|]|] eqn:Hn; try discriminate.
    rewrite negb_false_iff, existsb_exists.
    intros (pattern & Hin & Hm). exists content, pattern.
    split; [done|]. split; [by apply list_elem_of_In|done].
  - intros (content & pattern & -> & Hin & Hm).
    rewrite negb_false_iff, existsb_exists.
    exists pattern. split; [by apply list_elem_of_In|done].
Qed.

(** C10. When the base name of the path matches a pattern of the
    .chasmignore file as it is at the call, [DeleteFile] only prints that the
    path is ignored: the preferences, the disk and the backends are as
    before and no backend is called, whether the path is tracked or not. *)
Theorem DeleteFile_ignored_is_noop (w : World) (filePath : string) (fuel : nat) :
  ignored w filePath →
  DeleteFile (S fuel) filePath w = Returned (print (PathIgnored filePath) w).
Proof.
  intros Hig. apply IsValidPath_false in Hig.
  simpl. by rewrite Hig.
Qed.

(** *** Restore: the abort at a failed staging fetch *)

Lemma cs_Restore_frame cs w :
  preferences (snd (cs_Restore cs w)) = preferences w
  ∧ disk (snd (cs_Restore cs w)) = disk w
  ∧ cloud (snd (cs_Restore cs w)) = cloud w
  ∧ trace (snd (cs_Restore cs w)) = trace w ++ [EvRestore cs (fst (cs_Restore cs w))].
Proof.
  unfold cs_Restore. destruct (cloud w !! cs) as [b|]; [case_bool_decide|]; done.
Qed.

Lemma cs_Restore_fails cs w :
  fetch_fails w cs ↔ fst (cs_Restore cs w) = "".
Proof.
  unfold fetch_fails, cs_Restore.
  destruct (cloud w !! cs) as [b|]; [case_bool_decide|]; naive_solver.
Qed.

Lemma fetchSharePaths_abort stores : ∀ w cs,
  cs ∈ stores → fetch_fails w cs →
  ∃ w' calls cs',
    fetchSharePaths stores w = (None, w')
    ∧ preferences w' = preferences w ∧ disk w' = disk w
    ∧ trace w' = trace w ++ calls ++ [EvPrint (RestoreFailedFor cs')]
    ∧ Forall is_restore_call calls
    ∧ cs' ∈ stores ∧ fetch_fails w cs'.
Proof.
  induction stores as [|c rest IH]; intros w cs Hin Hf.
  { by apply elem_of_nil in Hin. }
  simpl. destruct (cs_Restore c w) as [sp w1] eqn:Hr.
  pose proof (cs_Restore_frame c w) as (Hp & Hd & Hc & Ht).
  pose proof (cs_Restore_fails c w) as Hff.
  rewrite Hr in Hp, Hd, Hc, Ht, Hff. simpl in *.
  case_bool_decide as Hsp.
  - exists (print (RestoreFailedFor c) w1), [EvRestore c sp], c.
    repeat split; simpl; try done.
    + rewrite Ht. by rewrite <- app_assoc.
    + repeat constructor. by exists c, sp.
    + left.
    + by apply Hff.
  - assert (cs ∈ rest) as Hin'.
    { apply elem_of_cons in Hin as [->|]; [|done]. by apply Hff in Hf. }
    assert (fetch_fails w1 cs) as Hf1 by (unfold fetch_fails; by rewrite Hc).
    destruct (IH w1 cs Hin' Hf1) as (w' & calls & cs' & He & Hp' & Hd' & Ht' & Hall & Hin2 & Hf2).
    rewrite He. exists w', (EvRestore c sp :: calls), cs'.
    repeat split; try congruence.
    + rewrite Ht', Ht. by rewrite <- app_assoc.
    + constructor; [by exists c, sp|done].
    + by right.
    + unfold fetch_fails in *. by rewrite <- Hc.
Qed.

(** C3. When the staging fetch of one registered backend fails, [Restore]
    stops in step (1): after the [Restore()] calls up to the first backend
    that fails it prints the failure for that backend and returns; it calls
    neither [MkdirAll] nor [WriteFile], and the disk and the preferences
    are as before. *)
Theorem Restore_aborts_when_a_fetch_fails (w : World) (cs : CloudStore) :
  cs ∈ AllCloudStores (preferences w) →
  fetch_fails w cs →
  ∃ calls cs',
    trace (Restore w) = trace w ++ calls ++ [EvPrint (RestoreFailedFor cs')]
    ∧ Forall is_restore_call calls
    ∧ cs' ∈ AllCloudStores (preferences w) ∧ fetch_fails w cs'
    ∧ disk (Restore w) = disk w
    ∧ preferences (Restore w) = preferences w.
Proof.
  intros Hin Hf.
  destruct (fetchSharePaths_abort _ w cs Hin Hf)
    as (w' & calls & cs' & He & Hp & Hd & Ht & Hall & Hin' & Hf').
  unfold Restore. rewrite He. by exists calls, cs'.
Qed.

End Properties.

(** *** The enumeration of the backends *)

Lemma fill_stores_spec {A} (conv : A → CloudStore) (l : list A) :
  ∀ (pre : list (option CloudStore)) (k : nat),
    length l ≤ k →
    fill_stores conv l (length pre) (pre ++ replicate k None)
    = (pre ++ (Some ∘ conv <$> l) ++ replicate (k - length l) None, length pre + length l).
Proof.
  induction l as [|x l IH]; intros pre k Hk; simpl in *.
  - by rewrite Nat.sub_0_r, Nat.add_0_r.
  - destruct k as [|k]; [lia|]. simpl.
    rewrite insert_app_r_alt by lia. rewrite Nat.sub_diag. simpl.
    specialize (IH (pre ++ [Some (conv x)]) k ltac:(lia)).
    rewrite length_app in IH. simpl in IH.
    rewrite Nat.add_1_r in IH. rewrite <- app_assoc in IH. simpl in IH.
    rewrite IH. rewrite <- app_assoc. simpl.
    f_equal. lia.
Qed.

Lemma AllCloudStores_slice_full (p : ChasmPref) :
  AllCloudStores_slice p
  = Some <$> ((CSFolder <$> FolderStores p) ++ (CSGDrive <$> GDriveStores p)).
Proof.
  unfold AllCloudStores_slice, RegisteredServices.
  pose proof (fill_stores_spec CSFolder (FolderStores p) []
                (length (FolderStores p) + length (GDriveStores p)) ltac:(lia)) as H1.
  simpl in H1. rewrite H1.
  replace (length (FolderStores p) + length (GDriveStores p) - length (FolderStores p))
    with (length (GDriveStores p)) by lia.
  pose proof (fill_stores_spec CSGDrive (GDriveStores p)
                (Some ∘ CSFolder <$> FolderStores p)
                (length (GDriveStores p)) ltac:(lia)) as H2.
  rewrite length_fmap in H2. rewrite H2. simpl.
  rewrite Nat.sub_diag. simpl. rewrite app_nil_r.
  rewrite fmap_app. by rewrite <- !list_fmap_compose.
Qed.

(** The enumeration: the folder stores in the order of the configuration,
    then the drive stores in the order of the configuration. *)
Lemma AllCloudStores_eq (p : ChasmPref) :
  AllCloudStores p = (CSFolder <$> FolderStores p) ++ (CSGDrive <$> GDriveStores p).
Proof.
  unfold AllCloudStores. rewrite AllCloudStores_slice_full.
  generalize ((CSFolder <$> FolderStores p) ++ (CSGDrive <$> GDriveStores p)).
  intros l. induction l as [|x l IH]; [done|]. simpl. f_equal. exact IH.
Qed.

Lemma AllCloudStores_length (p : ChasmPref) :
  length (AllCloudStores p) = RegisteredServices p.
Proof.
  rewrite AllCloudStores_eq. unfold RegisteredServices.
  by rewrite length_app, !length_fmap.
Qed.

Lemma AllCloudStores_set_FileMap m p :
  AllCloudStores (set_FileMap m p) = AllCloudStores p.
Proof. by rewrite !AllCloudStores_eq. Qed.

Lemma AllCloudStores_set_DirMap m p :
  AllCloudStores (set_DirMap m p) = AllCloudStores p.
Proof. by rewrite !AllCloudStores_eq. Qed.

(** *** AddFile on a regular file *)

Section AddRegular.

Context `{Ext : Externals}.

Lemma uploadShares_spec stores shares : ∀ i w,
  i + length stores ≤ length shares →
  ∃ w', uploadShares i stores shares w = Returned w'
        ∧ preferences w' = preferences w ∧ disk w' = disk w
        ∧ staging w' = staging w
        ∧ trace w' = trace w ++ zip_with EvUpload stores (drop i shares).
Proof.
  induction stores as [|cs rest IH]; intros i w Hlen; simpl in *.
  - exists w. by rewrite app_nil_r.
  - destruct (shares !! i) as [share|] eqn:Hi.
    2:{ apply lookup_ge_None in Hi. lia. }
    destruct (IH (S i) (cs_Upload cs share w) ltac:(lia))
      as (w' & -> & Hp & Hd & Hs & Ht).
    exists w'. repeat split; try done.
    rewrite Ht. simpl. rewrite <- app_assoc. simpl.
    by rewrite (drop_S _ _ _ Hi).
Qed.

Lemma uploadShares_short stores shares : ∀ i w,
  i ≤ length shares →
  length shares < i + length stores →
  ∃ w', uploadShares i stores shares w = Panicked w'.
Proof.
  induction stores as [|cs rest IH]; intros i w Hi0 Hlen; simpl in *; [lia|].
  destruct (shares !! i) as [share|] eqn:Hi; [|by exists w].
  apply lookup_lt_Some in Hi. apply IH; lia.
Qed.

Lemma ReadFile_node d p b : node_at d p = Some (File b) → ReadFile d p = Some b.
Proof. unfold ReadFile. by intros ->. Qed.

Lemma addRegularFile_spec (w : World) (filePath : string) (fileBytes : bytes) :
  node_at (disk w) filePath = Some (File fileBytes) →
  length (AllCloudStores (preferences w))
  ≤ length (CreateShares fileBytes (share_id_for w filePath)
              (length (AllCloudStores (preferences w)))) →
  ∃ w',
    addRegularFile filePath w = Returned w'
    ∧ preferences w'
      = set_FileMap (<[filePath := {| SID := share_id_for w filePath;
                                      Hash := SHA256Base64URL fileBytes |}]>
                       (FileMap (preferences w))) (preferences w)
    ∧ trace w'
      = trace w
        ++ zip_with EvUpload (AllCloudStores (preferences w))
             (CreateShares fileBytes (share_id_for w filePath)
                (length (AllCloudStores (preferences w))))
        ++ (if bool_decide (share_id_for w filePath ≠ chasmPrefFile)
            then [EvSave (path.Join (root (preferences w)) chasmPrefFile)
                    (json_MarshalIndent (preferences w'))]
            else []).
Proof.
  intros Hnode Hlen. unfold addRegularFile, share_id_for in *.
  set (sid := match FileMap (preferences w) !! filePath with
              | Some e => SID e
              | None => RandomShareID (drawn w)
              end) in *.
  set (w0 := match FileMap (preferences w) !! filePath with
             | Some _ => w
             | None => set_drawn (S (drawn w)) w
             end).
  assert ((match FileMap (preferences w) !! filePath with
           | Some existingFileShare => (SID existingFileShare, w)
           | None => (RandomShareID (drawn w), set_drawn (S (drawn w)) w)
           end) = (sid, w0)) as ->.
  { subst sid w0. by destruct (FileMap (preferences w) !! filePath). }
  assert (preferences w0 = preferences w ∧ disk w0 = disk w ∧ trace w0 = trace w)
    as (Hp0 & Hd0 & Ht0).
  { subst w0. by destruct (FileMap (preferences w) !! filePath). }
  rewrite Hd0, (ReadFile_node _ _ _ Hnode).
  set (w1 := set_preferences _ w0).
  assert (AllCloudStores (preferences w1) = AllCloudStores (preferences w)) as Hst.
  { subst w1. simpl. by rewrite AllCloudStores_set_FileMap, Hp0. }
  rewrite Hst.
  destruct (uploadShares_spec (AllCloudStores (preferences w))
              (CreateShares fileBytes sid (length (AllCloudStores (preferences w))))
              0 w1 ltac:(simpl; lia)) as (w2 & -> & Hp2 & Hd2 & Hs2 & Ht2).
  simpl. rewrite drop_0 in Ht2.
  assert (preferences w2
          = set_FileMap (<[filePath := {| SID := sid; Hash := SHA256Base64URL fileBytes |}]>
                           (FileMap (preferences w))) (preferences w)) as Hpw2.
  { rewrite Hp2. subst w1. simpl. by rewrite Hp0. }
  case_bool_decide.
  - eexists. split; [done|]. simpl. split; [done|].
    rewrite Ht2. replace (trace w1) with (trace w) by (subst w1; simpl; congruence).
    rewrite <- app_assoc. by rewrite Hpw2.
  - exists w2. split; [done|]. split; [done|].
    rewrite Ht2. replace (trace w1) with (trace w) by (subst w1; simpl; congruence).
    by rewrite app_nil_r.
Qed.

(** C9. For every call of [AddFile] on a regular file, with n registered
    backends: [CreateShares] is asked for n shares and, when it gives n
    shares as split is specified to, the uploads are exactly share i to
    backend i for every i below n, in the fixed enumeration of the folder
    stores in the order of the configuration followed by the drive stores in
    the order of the configuration; after the uploads comes at most the
    save. *)
Theorem AddFile_uploads_share_i_to_backend_i
        (w : World) (filePath : string) (fileBytes : bytes) (fuel : nat) :
  let backends := (CSFolder <$> FolderStores (preferences w))
                  ++ (CSGDrive <$> GDriveStores (preferences w)) in
  let n := RegisteredServices (preferences w) in
  let shares := CreateShares fileBytes (share_id_for w filePath) n in
  IsValidPath w filePath = true →
  node_at (disk w) filePath = Some (File fileBytes) →
  length shares = n →
  ∃ w' saves,
    AddFile (S fuel) filePath w = Returned w'
    ∧ length backends = n
    ∧ trace w' = trace w ++ zip_with EvUpload backends shares ++ saves
    ∧ Forall is_save saves
    ∧ ∀ i cs, backends !! i = Some cs →
        ∃ share, shares !! i = Some share
                 ∧ trace w' !! (length (trace w) + i) = Some (EvUpload cs share).
Proof.
  intros backends n shares Hvalid Hnode Hn.
  assert (AllCloudStores (preferences w) = backends) as Hb by apply AllCloudStores_eq.
  assert (length backends = n) as Hlb.
  { rewrite <- Hb. apply AllCloudStores_length. }
  destruct (addRegularFile_spec w filePath fileBytes Hnode) as (w' & He & Hp & Ht).
  { rewrite Hb, Hlb. fold shares. lia. }
  rewrite Hb, Hlb in Ht. fold shares in Ht.
  eexists w', _. split.
  { simpl. by rewrite Hvalid, Hnode. }
  split; [done|]. split; [exact Ht|]. split.
  { case_bool_decide; repeat constructor. by eexists _, _. }
  intros i cs Hi.
  assert (i < length shares) as Hlt.
  { apply lookup_lt_Some in Hi. lia. }
  destruct (lookup_lt_is_Some_2 shares i Hlt) as [share Hs].
  exists share. split; [done|].
  rewrite Ht. rewrite lookup_app_r by lia.
  replace (length (trace w) + i - length (trace w)) with i by lia.
  rewrite lookup_app_l.
  2:{ rewrite length_zip_with. apply lookup_lt_Some in Hi. lia. }
  rewrite lookup_zip_with. by rewrite Hi, Hs.
Qed.

End AddRegular.

(** *** Paths: the last element of a joined path *)

Section PathFacts.

Import path.

Lemma components_not_nil l : components l ≠ [].
Proof.
  destruct l as [|a l]; unfold components; simpl; [done|].
  destruct (is_slash a); [done|].
  by match goal with |- context [match ?t with _ => _ end] => destruct t end.
Qed.

Lemma components_no_slash x :
  Forall (fun a => is_slash a = false) x → components x = [x].
Proof.
  induction 1 as [|a x Ha _ IH]; [done|].
  unfold components in *. simpl. by rewrite Ha, IH.
Qed.

Lemma components_snoc l x :
  Forall (fun a => is_slash a = false) x →
  components (l ++ slash :: x) = components l ++ [x].
Proof.
  intros Hx. induction l as [|a l IH].
  - simpl. unfold components at 1. simpl. fold (components x).
    by rewrite components_no_slash.
  - unfold components in *. simpl. rewrite IH.
    destruct (is_slash a); [done|].
    pose proof (components_not_nil l) as Hne. unfold components in Hne.
    by match goal with |- context [match ?t ++ [x] with _ => _ end] => destruct t end.
Qed.

Lemma clean_step_plain rooted st x : plain x → clean_step rooted st x = x :: st.
Proof.
  intros (H0 & H1 & H2 & _). unfold clean_step, is_dotdot.
  by rewrite !bool_decide_eq_false_2.
Qed.

Lemma join_slash_snoc cs x :
  join_slash (cs ++ [x])
  = match cs with
    | [] => x
    | _ => join_slash cs ++ slash :: x
    end.
Proof.
  induction cs as [|c cs IH]; [done|].
  destruct cs as [|c' cs]; [done|].
  change (join_slash ((c :: c' :: cs) ++ [x]))
    with (c ++ slash :: join_slash ((c' :: cs) ++ [x])).
  rewrite IH. change (join_slash (c :: c' :: cs)) with (c ++ slash :: join_slash (c' :: cs)).
  by rewrite <- app_assoc.
Qed.

Lemma clean_list_snoc l x :
  plain x → clean_list (l ++ slash :: x) = dir_prefix l ++ x.
Proof.
  intros Hx. pose proof Hx as (Hne & _ & _ & Hns).
  unfold dir_prefix.
  set (rooted := match l with [] => true | a :: _ => is_slash a end).
  assert (clean_list (l ++ slash :: x) = clean_from rooted (l ++ slash :: x)) as ->.
  { subst rooted. by destruct l. }
  unfold clean_from.
  cbv zeta. rewrite components_snoc by done.
  rewrite foldl_app. simpl. rewrite clean_step_plain by done.
  simpl. rewrite join_slash_snoc.
  assert (∀ A : list ascii,
            match A ++ slash :: x with
            | [] => [dot]
            | _ => A ++ slash :: x
            end = ([] ++ A ++ [slash]) ++ x) as E1.
  { intros A. rewrite <- !app_assoc. destruct A; reflexivity. }
  assert (∀ A : list ascii,
            slash :: A ++ slash :: x = ([slash] ++ A ++ [slash]) ++ x) as E2.
  { intros A. rewrite <- !app_assoc. reflexivity. }
  destruct rooted; destruct (rev _) as [|c cs].
  - reflexivity.
  - apply (E2 (join_slash (c :: cs))).
  - destruct x; [done|reflexivity].
  - apply (E1 (join_slash (c :: cs))).
Qed.

Lemma clean_list_plain x : plain x → clean_list x = x.
Proof.
  intros Hx. pose proof Hx as (Hne & _ & _ & Hns).
  unfold clean_list, clean_from. destruct x as [|a x]; [done|].
  rewrite components_no_slash by done.
  inversion Hns as [|? ? Ha _]; subst. rewrite Ha. simpl.
  by rewrite clean_step_plain.
Qed.

Lemma dir_prefix_shape l : dir_prefix l = [] ∨ ∃ q, dir_prefix l = q ++ [slash].
Proof.
  unfold dir_prefix.
  destruct (match l with [] => true | a :: _ => is_slash a end);
    destruct (rev _) as [|c cs]; simpl.
  - right. by exists [].
  - right. exists (slash :: join_slash (c :: cs)). done.
  - by left.
  - right. by exists (join_slash (c :: cs)).
Qed.

Lemma list_ascii_of_string_app a b :
  list_ascii_of_string (a +:+ b) = list_ascii_of_string a ++ list_ascii_of_string b.
Proof. induction a as [|c a IH]; simpl; [done|]. by rewrite IH. Qed.

Lemma Join_plain a b :
  plain (list_ascii_of_string b) →
  Join a b = string_of_list_ascii (join_prefix a ++ list_ascii_of_string b).
Proof.
  intros Hb. unfold Join, join_prefix, Clean.
  destruct a as [|c a].
  - destruct b as [|c b]; [by destruct Hb|].
    by rewrite clean_list_plain.
  - rewrite !list_ascii_of_string_app.
    change (list_ascii_of_string "/" ++ list_ascii_of_string b)
      with (slash :: list_ascii_of_string b).
    by rewrite clean_list_snoc.
Qed.

Lemma Clean_Join_plain a b :
  plain (list_ascii_of_string b) →
  Clean (Join a b) = string_of_list_ascii (key_prefix a ++ list_ascii_of_string b).
Proof.
  intros Hb. rewrite Join_plain by done. unfold Clean.
  rewrite list_ascii_of_string_of_list_ascii.
  unfold join_prefix, key_prefix. destruct a as [|c a].
  - simpl. by rewrite clean_list_plain.
  - destruct (dir_prefix_shape (list_ascii_of_string (String c a))) as [->|[q ->]].
    + simpl. by rewrite clean_list_plain.
    + assert (match q ++ [slash] with
              | [] => []
              | a0 :: l => dir_prefix (removelast (a0 :: l))
              end = dir_prefix q) as ->.
      { rewrite <- (removelast_last q slash) at 2. by destruct q. }
      rewrite <- app_assoc.
      change ([slash] ++ list_ascii_of_string b) with (slash :: list_ascii_of_string b).
      by rewrite clean_list_snoc.
Qed.

Lemma string_of_list_ascii_inj l1 l2 :
  string_of_list_ascii l1 = string_of_list_ascii l2 → l1 = l2.
Proof.
  intros H. apply (f_equal list_ascii_of_string) in H.
  by rewrite !list_ascii_of_string_of_list_ascii in H.
Qed.

Lemma Join_plain_inj a b1 b2 :
  plain (list_ascii_of_string b1) → plain (list_ascii_of_string b2) →
  Join a b1 = Join a b2 → b1 = b2.
Proof.
  intros H1 H2. rewrite !Join_plain by done. intros H.
  apply string_of_list_ascii_inj, app_inv_head in H.
  apply (f_equal string_of_list_ascii) in H.
  by rewrite !string_of_list_ascii_of_string in H.
Qed.

Lemma Clean_Join_plain_inj a b1 b2 :
  plain (list_ascii_of_string b1) → plain (list_ascii_of_string b2) →
  Clean (Join a b1) = Clean (Join a b2) → b1 = b2.
Proof.
  intros H1 H2. rewrite !Clean_Join_plain by done. intros H.
  apply string_of_list_ascii_inj, app_inv_head in H.
  apply (f_equal string_of_list_ascii) in H.
  by rewrite !string_of_list_ascii_of_string in H.
Qed.

Lemma plain_chasmPrefFile : plain (list_ascii_of_string chasmPrefFile).
Proof. repeat split; try done. repeat constructor. Qed.

Lemma plain_chasmIgnoreFile : plain (list_ascii_of_string chasmIgnoreFile).
Proof. repeat split; try done. repeat constructor. Qed.

(** The preferences file and the ignore file of a root are different files. *)
Lemma chasm_files_differ (r : string) :
  Clean (Join r chasmPrefFile) ≠ Clean (Join r chasmIgnoreFile)
  ∧ Join r chasmPrefFile ≠ Join r chasmIgnoreFile.
Proof.
  split; intros H.
  - by apply Clean_Join_plain_inj in H;
      [|apply plain_chasmPrefFile|apply plain_chasmIgnoreFile].
  - by apply Join_plain_inj in H;
      [|apply plain_chasmPrefFile|apply plain_chasmIgnoreFile].
Qed.

End PathFacts.

(** *** What a step leaves as it is *)

Section Frames.

Context `{Ext : Externals}.


Lemma same_filter_trans w1 w2 w3 :
  same_filter w1 w2 → same_filter w2 w3 → same_filter w1 w3.
Proof.
  intros [Hr1 Hn1] [Hr2 Hn2]. split; [congruence|].
  rewrite Hr1 in Hn2. congruence.
Qed.

Lemma same_filter_IsValidPath w w' filePath :
  same_filter w w' → IsValidPath w' filePath = IsValidPath w filePath.
Proof. intros [Hr Hn]. unfold IsValidPath. by rewrite Hr, Hn. Qed.

Lemma node_at_insert_ne (d : Disk) k n p :
  path.Clean p ≠ k → node_at (<[k := n]> d) p = node_at d p.
Proof. intros Hne. unfold node_at. by rewrite lookup_insert_ne. Qed.

Lemma WriteFile_key d p data d' :
  WriteFile d p data = Some d' → d' = <[path.Clean p := File data]> d.
Proof.
  unfold WriteFile. destruct (node_at d (path.Clean p)) as [[|]|];
    try done; destruct (is_directory _ _); naive_solver.
Qed.

Lemma Save_preferences w : preferences (Save w) = preferences w.
Proof. done. Qed.

Lemma Save_trace w :
  trace (Save w)
  = trace w ++ [EvSave (path.Join (root (preferences w)) chasmPrefFile)
                  (json_MarshalIndent (preferences w))].
Proof. done. Qed.

Lemma Save_same_filter w : same_filter w (Save w).
Proof.
  split; [done|]. unfold Save. simpl.
  destruct (WriteFile _ _ _) as [d'|] eqn:Hw; simpl; [|done].
  apply WriteFile_key in Hw as ->.
  apply node_at_insert_ne. intros H. symmetry in H.
  by apply chasm_files_differ in H.
Qed.

Lemma foldl_cs_Delete sid stores : ∀ w,
  preferences (foldl (fun w cs => cs_Delete cs sid w) w stores) = preferences w
  ∧ disk (foldl (fun w cs => cs_Delete cs sid w) w stores) = disk w
  ∧ trace (foldl (fun w cs => cs_Delete cs sid w) w stores)
    = trace w ++ ((fun cs => EvDelete cs sid) <$> stores).
Proof.
  induction stores as [|cs rest IH]; intros w; simpl.
  - by rewrite app_nil_r.
  - destruct (IH (cs_Delete cs sid w)) as (-> & -> & ->). simpl.
    by rewrite <- app_assoc.
Qed.

(** [DeleteFile] on a tracked file that is no tracked directory: every
    registered backend is asked to delete the share, the record goes, the
    preferences are saved. *)
Lemma deleteTracked_spec w filePath fileShare :
  FileMap (preferences w) !! filePath = Some fileShare →
  preferences (deleteTracked filePath w)
  = set_FileMap (delete filePath (FileMap (preferences w))) (preferences w)
  ∧ trace (deleteTracked filePath w)
    = trace w ++ ((fun cs => EvDelete cs (SID fileShare)) <$> AllCloudStores (preferences w))
      ++ [EvSave (path.Join (root (preferences w)) chasmPrefFile)
            (json_MarshalIndent
               (set_FileMap (delete filePath (FileMap (preferences w))) (preferences w)));
          EvPrint DeletedShare]
  ∧ same_filter w (deleteTracked filePath w).
Proof.
  intros Hf. unfold deleteTracked. rewrite Hf.
  destruct (foldl_cs_Delete (SID fileShare) (AllCloudStores (preferences w)) w)
    as (Hp & Hd & Ht).
  set (w1 := foldl _ w _) in *.
  set (w2 := set_preferences _ w1).
  assert (preferences w2
          = set_FileMap (delete filePath (FileMap (preferences w))) (preferences w)) as Hp2.
  { subst w2. simpl. by rewrite Hp. }
  split; [done|]. split.
  - simpl. rewrite Hp, Ht. by rewrite <- !app_assoc.
  - apply (same_filter_trans _ w2); [|apply (same_filter_trans _ (Save w2))].
    + split; [by rewrite Hp2|]. subst w2. simpl. by rewrite Hd.
    + apply Save_same_filter.
    + by split.
Qed.

End Frames.

(** *** DeleteFile on a tracked directory *)

Section DeleteDirectory.

Context `{Ext : Externals}.

Lemma DeleteDir_with_unfold fuel dirPath w :
  DeleteDir_with (DeleteFile fuel) dirPath w
  = for_each (DeleteDir_body fuel dirPath)
      (range (FileMap (preferences w)))
      (set_preferences (fun p => set_DirMap (delete dirPath (DirMap p)) p) w).
Proof. done. Qed.

Lemma DeleteFile_file w filePath fuel :
  DirMap (preferences w) !! path.Clean filePath = None →
  DeleteFile (S fuel) filePath w
  = Returned (if IsValidPath w filePath then deleteTracked filePath w
              else print (PathIgnored filePath) w).
Proof. intros Hd. simpl. rewrite Hd. by destruct (IsValidPath w filePath). Qed.



(** The file branch of [DeleteFile] leaves the directory set alone. *)
Lemma deleteTracked_DirMap filePath w :
  DirMap (preferences (deleteTracked filePath w)) = DirMap (preferences w).
Proof.
  unfold deleteTracked. destruct (FileMap (preferences w) !! filePath) as [fs|]; [|done].
  simpl. by destruct (foldl_cs_Delete (SID fs) (AllCloudStores (preferences w)) w) as (-> & _).
Qed.

(** [DeleteFile] returns on every world and path: it calls [DeleteDir] only
    on a path marked in the directory set, and [DeleteDir] removes the mark
    before it calls [DeleteFile] again, so the mutual recursion is bounded by
    the size of the directory set; fuel above that size is enough. *)
Lemma DeleteFile_returns (fuel : nat) : ∀ (w : World) (filePath : string),
  size (DirMap (preferences w)) < fuel →
  ∃ w', DeleteFile fuel filePath w = Returned w'
        ∧ size (DirMap (preferences w')) ≤ size (DirMap (preferences w)).
Proof.
  induction fuel as [|fuel IH]; intros w filePath Hsize; [lia|].
  simpl. destruct (IsValidPath w filePath); simpl.
  2:{ by eexists. }
  destruct (DirMap (preferences w) !! path.Clean filePath) as [b|] eqn:Hd.
  2:{ eexists. split; [done|]. by rewrite deleteTracked_DirMap. }
  rewrite DeleteDir_with_unfold.
  set (w0 := set_preferences _ w).
  assert (S (size (DirMap (preferences w0))) = size (DirMap (preferences w))) as Hs0.
  { subst w0. simpl. rewrite map_size_delete, Hd. simpl.
    assert (size (DirMap (preferences w)) ≠ 0) as Hne.
    { intros H0. apply map_size_empty_iff in H0. rewrite H0 in Hd.
      by rewrite lookup_empty in Hd. }
    lia. }
  assert (∀ l w1, size (DirMap (preferences w1)) < fuel →
            ∃ w', for_each (DeleteDir_body fuel (path.Clean filePath)) l w1 = Returned w'
                  ∧ size (DirMap (preferences w')) ≤ size (DirMap (preferences w1))) as Hloop.
  { induction l as [|entry l IHl]; intros w1 Hs1; simpl.
    { by exists w1. }
    assert (∃ w2, DeleteDir_body fuel (path.Clean filePath) entry w1 = Returned w2
                  ∧ size (DirMap (preferences w2)) ≤ size (DirMap (preferences w1)))
      as (w2 & -> & Hs2).
    { unfold DeleteDir_body. destruct (FileMap (preferences w1) !! fst entry); [|by eexists].
      case_bool_decide; [by eexists|]. by apply IH. }
    simpl. destruct (IHl w2 ltac:(lia)) as (w' & -> & Hs'). exists w'. split; [done|lia]. }
  destruct (Hloop (range (FileMap (preferences w))) w0 ltac:(lia)) as (w' & -> & Hs').
  exists w'. split; [done|]. lia.
Qed.

End DeleteDirectory.

Section DeleteDirectoryClaim.

Context `{Ext : Externals}.


End DeleteDirectoryClaim.

(** *** What each step of Restore adds to the trace *)

Section RestoreSteps.

Context `{Ext : Externals}.

Lemma appends_refl P w : appends P w w.
Proof. split; [|done]. exists []. by rewrite app_nil_r. Qed.

Lemma appends_trans P w1 w2 w3 : appends P w1 w2 → appends P w2 w3 → appends P w1 w3.
Proof.
  intros [(e1 & Ht1 & Hf1) (? & ? & ? & ?)] [(e2 & Ht2 & Hf2) (? & ? & ? & ?)].
  split; [|repeat split; congruence].
  exists (e1 ++ e2). split; [|by apply Forall_app].
  rewrite Ht2, Ht1. by rewrite <- app_assoc.
Qed.

Lemma appends_weaken (P Q : Event → Prop) w w' :
  (∀ e, P e → Q e) → appends P w w' → appends Q w w'.
Proof.
  intros HPQ [(evs & Ht & Hf) Hrest]. split; [|done].
  exists evs. split; [done|]. by eapply Forall_impl.
Qed.

Lemma appends_emit (P : Event → Prop) e w : P e → appends P w (emit e w).
Proof. intros He. split; [|done]. exists [e]. split; [done|]. by constructor. Qed.

Lemma appends_foldl {A} (P : Event → Prop) (step : World → A → World) (l : list A) :
  (∀ w x, x ∈ l → appends P w (step w x)) →
  ∀ w, appends P w (foldl step w l).
Proof.
  induction l as [|x l IH]; intros Hstep w; simpl; [apply appends_refl|].
  apply (appends_trans _ _ (step w x)).
  - apply Hstep. left.
  - apply IH. intros w' y Hy. apply Hstep. by right.
Qed.

Lemma readShares_appends sid sharePaths : ∀ w,
  appends is_print w (snd (readShares sid sharePaths w))
  ∧ disk (snd (readShares sid sharePaths w)) = disk w
  ∧ preferences (snd (readShares sid sharePaths w)) = preferences w.
Proof.
  induction sharePaths as [|sp rest IH]; intros w; simpl.
  { split; [apply appends_refl|done]. }
  destruct (readStaged w sp sid) as [dataBytes|].
  - specialize (IH w). by destruct (readShares sid rest w) as [[? ?] ?].
  - specialize (IH (print (SkippingShare (path.Join sp sid)) w)).
    destruct (readShares sid rest _) as [[? ?] w']. simpl in *.
    destruct IH as (Ha & Hd & Hp). split; [|done].
    eapply appends_trans; [|exact Ha]. apply appends_emit. by eexists.
Qed.

Lemma restoreShareID_appends sid sharePaths w :
  appends is_print w (snd (restoreShareID sid sharePaths w))
  ∧ disk (snd (restoreShareID sid sharePaths w)) = disk w
  ∧ preferences (snd (restoreShareID sid sharePaths w)) = preferences w.
Proof.
  unfold restoreShareID.
  pose proof (readShares_appends sid sharePaths w) as (Ha & Hd & Hp).
  destruct (readShares sid sharePaths w) as [[fileShares sharesFound] w1]. simpl in *.
  destruct (sharesFound <? _); simpl; [|done].
  split; [|done]. eapply appends_trans; [exact Ha|]. apply appends_emit. by eexists.
Qed.

Lemma restoreDir_appends w entry : appends is_mkdir w (restoreDir w entry).
Proof.
  unfold restoreDir. split; [|done]. exists [EvMkdirAll (fst entry)].
  split; [done|]. constructor; [by eexists|done].
Qed.

Lemma restoreFile_appends sharePaths w filePath fileShare :
  appends (fun e => is_print e ∨ verified_write filePath fileShare e)
          w (restoreFile sharePaths w (filePath, fileShare)).
Proof.
  unfold restoreFile.
  pose proof (restoreShareID_appends (SID fileShare) sharePaths w) as (Ha & Hd & Hp).
  destruct (restoreShareID (SID fileShare) sharePaths w) as [fileBytes w1]. simpl in *.
  apply (appends_weaken _ (fun e => is_print e ∨ verified_write filePath fileShare e))
    in Ha; [|by left].
  case_bool_decide as Hlen; [done|].
  destruct (bool_decide (SID fileShare ≠ chasmPrefFile)
            && negb (checkSHA2 (Hash fileShare) fileBytes)) eqn:Hchk.
  { eapply appends_trans; [exact Ha|]. apply appends_emit. left. by eexists. }
  assert (verified_write filePath fileShare (EvWriteFile filePath fileBytes)) as Hvw.
  { exists fileBytes. split; [done|]. split.
    - intros ->. by apply Hlen.
    - apply andb_false_iff in Hchk as [Hc|Hc].
      + left. apply bool_decide_eq_false in Hc. by destruct (decide (SID fileShare = chasmPrefFile)).
      + right. by apply negb_false_iff in Hc. }
  eapply appends_trans; [exact Ha|].
  destruct (WriteFile _ _ _) as [d|].
  - split; [|done]. exists [EvWriteFile filePath fileBytes]. split; [done|].
    constructor; [by right|done].
  - eapply appends_trans; [apply appends_emit; right; exact Hvw|].
    apply appends_emit. left. by eexists.
Qed.

Lemma appends_trace P w w' : appends P w w' → trace_appends P w w'.
Proof. by intros [? _]. Qed.

Lemma trace_appends_trans (P Q R : Event → Prop) w1 w2 w3 :
  (∀ e, P e → R e) → (∀ e, Q e → R e) →
  trace_appends P w1 w2 → trace_appends Q w2 w3 → trace_appends R w1 w3.
Proof.
  intros HP HQ (e1 & Ht1 & Hf1) (e2 & Ht2 & Hf2).
  exists (e1 ++ e2). split.
  - rewrite Ht2, Ht1. by rewrite <- app_assoc.
  - apply Forall_app. split; by eapply Forall_impl.
Qed.

Lemma trace_appends_weaken (P Q : Event → Prop) w w' :
  (∀ e, P e → Q e) → trace_appends P w w' → trace_appends Q w w'.
Proof.
  intros HPQ (evs & Ht & Hf). exists evs. split; [done|]. by eapply Forall_impl.
Qed.

Lemma fetchSharePaths_frame stores : ∀ w,
  trace_appends (fun e => is_restore_call e ∨ is_print e) w (snd (fetchSharePaths stores w))
  ∧ disk (snd (fetchSharePaths stores w)) = disk w
  ∧ preferences (snd (fetchSharePaths stores w)) = preferences w
  ∧ cloud (snd (fetchSharePaths stores w)) = cloud w.
Proof.
  induction stores as [|cs rest IH]; intros w; simpl.
  { split; [|done]. exists []. by rewrite app_nil_r. }
  pose proof (cs_Restore_frame cs w) as (Hp & Hd & Hc & Ht).
  destruct (cs_Restore cs w) as [sp w1] eqn:Hr. simpl in *.
  case_bool_decide as Hsp; simpl.
  - split; [|done]. exists [EvRestore cs sp; EvPrint (RestoreFailedFor cs)].
    split; [simpl; by rewrite Ht, <- app_assoc|].
    apply Forall_cons; split; [left; by eexists _, _|].
    apply Forall_cons; split; [right; by eexists|]. constructor.
  - specialize (IH w1). destruct (fetchSharePaths rest w1) as [r w2]. simpl in *.
    destruct IH as ((evs & Ht2 & Hf) & Hd2 & Hp2 & Hc2).
    split; [|repeat split; congruence].
    exists (EvRestore cs sp :: evs). split.
    + rewrite Ht2, Ht. by rewrite <- app_assoc.
    + constructor; [left; by eexists _, _|done].
Qed.

(** The first call of step (1) goes to the first backend of the
    enumeration. *)
Lemma fetchSharePaths_first cs rest w :
  ∃ sp evs, trace (snd (fetchSharePaths (cs :: rest) w)) = trace w ++ EvRestore cs sp :: evs.
Proof.
  simpl. pose proof (cs_Restore_frame cs w) as (_ & _ & _ & Ht).
  destruct (cs_Restore cs w) as [sp w1] eqn:Hr. simpl in *.
  case_bool_decide as Hsp; simpl.
  - exists sp, [EvPrint (RestoreFailedFor cs)]. simpl. by rewrite Ht, <- app_assoc.
  - pose proof (fetchSharePaths_frame rest w1) as ((evs & Ht2 & _) & _).
    destruct (fetchSharePaths rest w1) as [r w2]. simpl in *.
    exists sp, evs. rewrite Ht2, Ht. by rewrite <- app_assoc.
Qed.

Lemma Restore_after_fetch w :
  trace_appends (restore_event w)
    (snd (fetchSharePaths (AllCloudStores (preferences w)) w)) (Restore w).
Proof.
  unfold Restore, restore_event, manifest_of.
  destruct (fetchSharePaths _ w) as [[sharePaths|] w1]; simpl.
  2:{ exists []. by rewrite app_nil_r. }
  pose proof (restoreShareID_appends chasmPrefFile sharePaths w1) as (Ha & _ & _).
  destruct (restoreShareID chasmPrefFile sharePaths w1) as [chasmFileBytes w2].
  simpl in *. apply appends_trace in Ha.
  destruct (json_Unmarshal chasmFileBytes) as [restoredPrefs|].
  2:{ eapply (trace_appends_trans is_print is_print); [by left|by left|exact Ha|].
      exists [EvPrint CannotRestorePreferences]. split; [done|].
      apply Forall_cons; split; [by eexists|]. constructor. }
  set (P := fun e => is_print e ∨ is_mkdir e
                     ∨ ∃ rp filePath fileShare,
                         Some restoredPrefs = Some rp
                         ∧ (filePath, fileShare) ∈ range (FileMap rp)
                         ∧ verified_write filePath fileShare e).
  set (w3 := foldl restoreDir w2 (range (DirMap restoredPrefs))).
  set (w4 := foldl (restoreFile sharePaths) w3 (range (FileMap restoredPrefs))).
  assert (trace_appends P w1 w2) as H12.
  { eapply trace_appends_weaken; [|exact Ha]. by left. }
  assert (trace_appends P w2 w3) as H23.
  { eapply trace_appends_weaken;
      [|apply appends_trace, (appends_foldl is_mkdir restoreDir);
        intros; apply restoreDir_appends].
    intros e He. right. by left. }
  assert (trace_appends P w3 w4) as H34.
  { apply appends_trace, (appends_foldl P (restoreFile sharePaths)).
    intros w' [filePath fileShare] Hin.
    eapply appends_weaken; [|apply restoreFile_appends].
    intros e [He|He]; [by left|]. right. right.
    by exists restoredPrefs, filePath, fileShare. }
  assert (trace_appends P w4 (print DoneRestored w4)) as H45.
  { exists [EvPrint DoneRestored]. split; [done|].
    apply Forall_cons; split; [left; by eexists|]. constructor. }
  eapply (trace_appends_trans P P P); [done|done|exact H12|].
  eapply (trace_appends_trans P P P); [done|done|exact H23|].
  eapply (trace_appends_trans P P P); [done|done|exact H34|exact H45].
Qed.

End RestoreSteps.

(** *** The setup gate *)

Section SetupGate.

Context `{Ext : Externals}.

Lemma NeedSetup_true p : NeedSetup p = true ↔ RegisteredServices p < 2.
Proof. unfold NeedSetup. apply Nat.ltb_lt. Qed.

(** C2, as the code has it. With fewer than two registered backends
    [NeedSetup] is true, and the operations, which do not look at it, run as
    with any number of backends: [AddFile] of a valid regular file records
    it and uploads to every registered backend; [DeleteFile] of a tracked,
    valid file removes the record, asks every registered backend to delete
    the share, saves and prints that the share was deleted; [Restore] asks
    the first registered backend, when there is one, for its staging
    location. *)
Theorem operations_run_below_two_backends
        (w : World) (addPath : string) (fileBytes : bytes)
        (delPath : string) (fileShare : FileShare) (fuel : nat) :
  NeedSetup (preferences w) = true →
  IsValidPath w addPath = true →
  node_at (disk w) addPath = Some (File fileBytes) →
  length (CreateShares fileBytes (share_id_for w addPath)
            (RegisteredServices (preferences w)))
  = RegisteredServices (preferences w) →
  IsValidPath w delPath = true →
  DirMap (preferences w) !! path.Clean delPath = None →
  FileMap (preferences w) !! delPath = Some fileShare →
  RegisteredServices (preferences w) < 2
  ∧ (∃ w' tail,
       AddFile (S fuel) addPath w = Returned w'
       ∧ FileMap (preferences w') !! addPath
         = Some {| SID := share_id_for w addPath; Hash := SHA256Base64URL fileBytes |}
       ∧ trace w'
         = trace w
           ++ zip_with EvUpload (AllCloudStores (preferences w))
                (CreateShares fileBytes (share_id_for w addPath)
                   (RegisteredServices (preferences w)))
           ++ tail)
  ∧ (∃ w' data,
       DeleteFile (S fuel) delPath w = Returned w'
       ∧ FileMap (preferences w') = delete delPath (FileMap (preferences w))
       ∧ trace w'
         = trace w
           ++ ((fun cs => EvDelete cs (SID fileShare)) <$> AllCloudStores (preferences w))
           ++ [EvSave (path.Join (root (preferences w)) chasmPrefFile) data;
               EvPrint DeletedShare])
  ∧ (∀ cs rest, AllCloudStores (preferences w) = cs :: rest →
                ∃ sp evs, trace (Restore w) = trace w ++ EvRestore cs sp :: evs).
Proof.
  intros Hneed Hva Hnode Hlen Hvd Hdir Hfile.
  split; [by apply NeedSetup_true|]. split; [|split].
  - destruct (addRegularFile_spec w addPath fileBytes Hnode) as (w' & He & Hp & Ht).
    { rewrite AllCloudStores_length. lia. }
    rewrite AllCloudStores_length in Ht.
    eexists w', _. split; [|split; [|exact Ht]].
    + simpl. by rewrite Hva, Hnode.
    + rewrite Hp. simpl. apply lookup_insert_eq.
  - destruct (deleteTracked_spec w delPath fileShare Hfile) as (Hp & Ht & _).
    eexists _, _. split; [|split; [|exact Ht]].
    + rewrite DeleteFile_file by done. by rewrite Hvd.
    + by rewrite Hp.
  - intros cs rest Hst.
    destruct (fetchSharePaths_first cs rest w) as (sp & evs1 & Ht1).
    destruct (Restore_after_fetch w) as (evs2 & Ht2 & _).
    rewrite Hst in Ht2. exists sp, (evs1 ++ evs2).
    rewrite Ht2, Ht1. rewrite <- app_assoc. done.
Qed.

End SetupGate.

(** *** The record of the preferences file *)

Section MetadataRecord.

Context `{Ext : Externals}.

(** When the root is new, [CreateOrLoadChasmDir] gives the preferences file
    the reserved identifier and the empty fingerprint. *)
Lemma CreateOrLoadChasmDir_new_record (root0 : string) (w : World) :
  ReadFile (MkdirAll (disk w) root0) (path.Join root0 chasmPrefFile) = None →
  FileMap (preferences (CreateOrLoadChasmDir root0 w)) !! path.Join root0 chasmPrefFile
  = Some {| SID := chasmPrefFile; Hash := "" |}.
Proof.
  intros Hnew. unfold CreateOrLoadChasmDir. simpl. rewrite Hnew. simpl.
  destruct (ReadFile _ (path.Join root0 chasmIgnoreFile)) as [b|]; simpl.
  - apply lookup_insert_eq.
  - destruct (WriteFile _ _ _); simpl;
      (rewrite lookup_insert_ne; [apply lookup_insert_eq|]);
      intros H; symmetry in H; by apply chasm_files_differ in H.
Qed.

(** [AddFile] on a path whose record carries the reserved identifier of
    the preferences file keeps the identifier, stores the fingerprint of the
    bytes the file has at the call, uploads the shares and does not save. *)
Lemma AddFile_on_preferences_file_stores_its_fingerprint
        (w : World) (filePath : string) (fileBytes : bytes) (hash : string) (fuel : nat) :
  IsValidPath w filePath = true →
  node_at (disk w) filePath = Some (File fileBytes) →
  FileMap (preferences w) !! filePath = Some {| SID := chasmPrefFile; Hash := hash |} →
  length (CreateShares fileBytes chasmPrefFile (RegisteredServices (preferences w)))
  = RegisteredServices (preferences w) →
  ∃ w',
    AddFile (S fuel) filePath w = Returned w'
    ∧ FileMap (preferences w') !! filePath
      = Some {| SID := chasmPrefFile; Hash := SHA256Base64URL fileBytes |}
    ∧ trace w'
      = trace w
        ++ zip_with EvUpload (AllCloudStores (preferences w))
             (CreateShares fileBytes chasmPrefFile (RegisteredServices (preferences w))).
Proof.
  intros Hvalid Hnode Hrec Hlen.
  assert (share_id_for w filePath = chasmPrefFile) as Hsid.
  { unfold share_id_for. by rewrite Hrec. }
  destruct (addRegularFile_spec w filePath fileBytes Hnode) as (w' & He & Hp & Ht).
  { rewrite Hsid, AllCloudStores_length. lia. }
  rewrite Hsid, AllCloudStores_length in Ht.
  rewrite bool_decide_eq_false_2 in Ht by (intros H; by apply H).
  rewrite app_nil_r in Ht. rewrite Hsid in Hp.
  exists w'. split; [|split; [|exact Ht]].
  - simpl. by rewrite Hvalid, Hnode.
  - rewrite Hp. simpl. apply lookup_insert_eq.
Qed.

End MetadataRecord.

(** *** Restore: what is written for a record *)

Section RestoreRecords.

Context `{Ext : Externals}.

Lemma readShares_pure sid sharePaths : ∀ w,
  fst (readShares sid sharePaths w)
  = (share_of sid <$> (staged (staging w) sid <$> sharePaths),
     length (omap id (staged (staging w) sid <$> sharePaths))).
Proof.
  induction sharePaths as [|sp rest IH]; intros w; [done|].
  simpl. unfold readStaged. fold (staged (staging w) sid sp).
  destruct (staged (staging w) sid sp) as [dataBytes|] eqn:Hs; simpl.
  - specialize (IH w). destruct (readShares sid rest w) as [[? ?] ?].
    simpl in *. by injection IH as -> ->.
  - specialize (IH (print (SkippingShare (path.Join sp sid)) w)).
    destruct (readShares sid rest _) as [[? ?] ?].
    simpl in *. by injection IH as -> ->.
Qed.

Lemma restoreShareID_candidate sid sharePaths w :
  fst (restoreShareID sid sharePaths w)
  = candidate (staging w) (RegisteredServices (preferences w)) sid sharePaths.
Proof.
  unfold restoreShareID, candidate.
  pose proof (readShares_pure sid sharePaths w) as Hpure.
  pose proof (readShares_appends sid sharePaths w) as (_ & _ & Hp).
  destruct (readShares sid sharePaths w) as [[fileShares sharesFound] w1].
  simpl in *. injection Hpure as -> ->. rewrite Hp.
  by destruct (_ <? _).
Qed.

(** Too few shares: the message of [restoreShareID]. *)
Lemma restoreShareID_too_few sid sharePaths w :
  length (omap id (staged (staging w) sid <$> sharePaths))
  < RegisteredServices (preferences w) →
  fst (restoreShareID sid sharePaths w) = []
  ∧ ∃ evs, trace (snd (restoreShareID sid sharePaths w))
           = trace w ++ evs ++ [EvPrint (NotEnoughShares sid)]
           ∧ Forall is_print evs.
Proof.
  intros Hlt. unfold restoreShareID.
  pose proof (readShares_pure sid sharePaths w) as Hpure.
  pose proof (readShares_appends sid sharePaths w) as (((evs & Ht & Hf) & _) & _ & Hp).
  destruct (readShares sid sharePaths w) as [[fileShares sharesFound] w1].
  simpl in *. injection Hpure as -> ->. rewrite Hp.
  apply Nat.ltb_lt in Hlt. rewrite Hlt. simpl. split; [done|].
  exists evs. rewrite Ht. by rewrite <- app_assoc.
Qed.

Lemma omap_id_length_le {A} (l : list (option A)) : length (omap id l) ≤ length l.
Proof. induction l as [|[a|] l IH]; cbn in *; lia. Qed.

Lemma omap_id_length_lt {A} (l : list (option A)) :
  None ∈ l → length (omap id l) < length l.
Proof.
  induction l as [|o l IH]; intros Hin; [by apply elem_of_nil in Hin|].
  apply elem_of_cons in Hin as [<-|Hin]; cbn.
  - pose proof (omap_id_length_le l). lia.
  - specialize (IH Hin). destruct o; cbn; lia.
Qed.

Lemma written_cons filePath e evs :
  written filePath (e :: evs)
  = match e with
    | EvWriteFile p data =>
        if decide (p = filePath) then data :: written filePath evs
        else written filePath evs
    | _ => written filePath evs
    end.
Proof. destruct e; try reflexivity. unfold written. simpl. by destruct (decide _). Qed.

(** The paths written by the events of a record of another path. *)
Lemma written_other filePath p fileShare evs :
  p ≠ filePath →
  Forall (fun e => is_print e ∨ verified_write p fileShare e) evs →
  written filePath evs = [].
Proof.
  intros Hne. induction 1 as [|e evs He _ IH]; [done|].
  rewrite written_cons, IH.
  destruct He as [[m ->]|(data & -> & _)]; [done|].
  by rewrite decide_False.
Qed.

Lemma written_prints filePath evs : Forall is_print evs → written filePath evs = [].
Proof.
  induction 1 as [|e evs [m ->] _ IH]; [done|]. by rewrite written_cons.
Qed.

Lemma written_mkdirs filePath evs : Forall is_mkdir evs → written filePath evs = [].
Proof.
  induction 1 as [|e evs [m ->] _ IH]; [done|]. by rewrite written_cons.
Qed.

Lemma written_app filePath evs1 evs2 :
  written filePath (evs1 ++ evs2) = written filePath evs1 ++ written filePath evs2.
Proof. unfold written. apply omap_app. Qed.

(** Step (4) for one record, by the bytes reconstructed for it. *)
Lemma restoreFile_spec sharePaths w filePath fileShare :
  let c := candidate (staging w) (RegisteredServices (preferences w))
             (SID fileShare) sharePaths in
  ∃ evs,
    trace (restoreFile sharePaths w (filePath, fileShare)) = trace w ++ evs
    ∧ written filePath evs
      = (if bool_decide (c = []) then []
         else if bool_decide (SID fileShare ≠ chasmPrefFile)
                 && negb (checkSHA2 (Hash fileShare) c)
              then [] else [c])
    ∧ (length (omap id (staged (staging w) (SID fileShare) <$> sharePaths))
       < RegisteredServices (preferences w) →
       EvPrint (NotEnoughShares (SID fileShare)) ∈ evs)
    ∧ (c ≠ [] → SID fileShare ≠ chasmPrefFile →
       checkSHA2 (Hash fileShare) c = false →
       EvPrint (InvalidChecksum (SID fileShare)) ∈ evs).
Proof.
  intros c. unfold restoreFile.
  pose proof (restoreShareID_candidate (SID fileShare) sharePaths w) as Hc.
  pose proof (restoreShareID_appends (SID fileShare) sharePaths w)
    as (((evs & Ht & Hf) & _) & _ & _).
  pose proof (restoreShareID_too_few (SID fileShare) sharePaths w) as Hfew.
  destruct (restoreShareID (SID fileShare) sharePaths w) as [fileBytes w1].
  simpl in *. fold c in Hc. subst fileBytes.
  assert (bool_decide (length c = 0) = bool_decide (c = [])) as ->.
  { apply bool_decide_ext. by destruct c. }
  case_bool_decide as Hnil.
  { exists evs. split; [done|]. split; [by apply written_prints|]. split; [|done].
    intros Hlt. destruct (Hfew Hlt) as (_ & evs' & Ht' & _).
    rewrite Ht in Ht'. apply app_inv_head in Ht'. rewrite Ht'.
    apply elem_of_app. right. left. }
  assert (¬ length (omap id (staged (staging w) (SID fileShare) <$> sharePaths))
            < RegisteredServices (preferences w)) as Hnotfew.
  { intros Hlt. by destruct (Hfew Hlt) as (? & _). }
  destruct (bool_decide (SID fileShare ≠ chasmPrefFile)
            && negb (checkSHA2 (Hash fileShare) c)) eqn:Hchk.
  { exists (evs ++ [EvPrint (InvalidChecksum (SID fileShare))]).
    split; [simpl; by rewrite Ht, <- app_assoc|].
    split; [rewrite written_app, written_prints by done; done|].
    split; [done|]. intros _ _ _. apply elem_of_app. right. left. }
  assert (∃ tail, trace (match WriteFile (disk (emit (EvWriteFile filePath c) w1)) filePath c with
                         | Some d => set_disk d (emit (EvWriteFile filePath c) w1)
                         | None => print (ErrorWriting filePath)
                                     (emit (EvWriteFile filePath c) w1)
                         end)
                  = trace w ++ evs ++ EvWriteFile filePath c :: tail
                  ∧ Forall is_print tail) as (tail & Htail & Hft).
  { destruct (WriteFile _ _ _).
    - exists []. simpl. rewrite Ht, <- app_assoc. done.
    - exists [EvPrint (ErrorWriting filePath)]. simpl. rewrite Ht, <- !app_assoc.
      split; [done|]. apply Forall_cons; split; [by eexists|constructor]. }
  exists (evs ++ EvWriteFile filePath c :: tail). split; [exact Htail|].
  split; [|split; [done|]].
  - rewrite written_app, written_prints by done. rewrite written_cons.
    rewrite decide_True by done. by rewrite written_prints.
  - intros _ Hsid Hbad. apply andb_false_iff in Hchk as [Hc1|Hc1].
    + apply bool_decide_eq_false in Hc1. by destruct Hc1.
    + apply negb_false_iff in Hc1. congruence.
Qed.

Lemma restoreFiles_spec sharePaths (l : list (string * FileShare)) :
  NoDup l.*1 →
  ∀ w, ∃ evs,
    trace (foldl (restoreFile sharePaths) w l) = trace w ++ evs
    ∧ (∀ p fs, (p, fs) ∈ l →
         written p evs
         = expected_writes (staging w) (RegisteredServices (preferences w)) sharePaths fs
         ∧ reports (staging w) (RegisteredServices (preferences w)) sharePaths fs evs)
    ∧ (∀ p, p ∉ l.*1 → written p evs = []).
Proof.
  induction l as [|[p0 fs0] l IH]; intros Hnd w.
  { exists []. rewrite app_nil_r. split; [done|]. split; [|done].
    intros p fs Hin. by apply elem_of_nil in Hin. }
  simpl in Hnd. apply NoDup_cons in Hnd as [Hnotin Hnd].
  change (foldl (restoreFile sharePaths) w ((p0, fs0) :: l))
    with (foldl (restoreFile sharePaths) (restoreFile sharePaths w (p0, fs0)) l).
  destruct (restoreFile_spec sharePaths w p0 fs0) as (evs0 & Ht0 & Hw0 & Hfew0 & Hbad0).
  pose proof (restoreFile_appends sharePaths w p0 fs0) as ((evs0' & Ht0' & Hf0) & Hs & _ & _ & Hn).
  rewrite Ht0 in Ht0'. apply app_inv_head in Ht0'. subst evs0'.
  destruct (IH Hnd (restoreFile sharePaths w (p0, fs0))) as (evs & Ht & Hin & Hout).
  rewrite Hs, Hn in Hin.
  exists (evs0 ++ evs). split; [by rewrite Ht, Ht0, <- app_assoc|]. split.
  - intros p fs Hp. rewrite written_app. apply elem_of_cons in Hp as [Heq|Hp].
    + injection Heq as -> ->. rewrite (Hout p0 Hnotin), app_nil_r.
      split; [exact Hw0|]. split.
      * intros Hlt. apply elem_of_app. left. by apply Hfew0.
      * intros ???. apply elem_of_app. left. by apply Hbad0.
    + assert (p0 ≠ p) as Hne.
      { intros ->. apply Hnotin. apply list_elem_of_fmap. by exists (p, fs). }
      rewrite (written_other p p0 fs0 evs0 Hne Hf0). simpl.
      destruct (Hin p fs Hp) as (Hw & Hr1 & Hr2). split; [exact Hw|]. split.
      * intros Hlt. apply elem_of_app. right. by apply Hr1.
      * intros ???. apply elem_of_app. right. by apply Hr2.
  - intros p Hp. rewrite written_app.
    assert (p0 ≠ p ∧ p ∉ l.*1) as [Hne Hp'].
    { split; [intros ->|intros ?]; apply Hp; simpl; [left|by right]. }
    by rewrite (written_other p p0 fs0 evs0 Hne Hf0), (Hout p Hp').
Qed.

Lemma written_fetch filePath evs :
  Forall (fun e => is_restore_call e ∨ is_print e) evs → written filePath evs = [].
Proof.
  induction 1 as [|e evs He _ IH]; [done|]. rewrite written_cons, IH.
  by destruct He as [(? & ? & ->)|[? ->]].
Qed.

(** [Restore] when every staging fetch succeeds and the preferences are
    reconstructed: what it writes and prints for the records. *)
Lemma Restore_spec (w w1 : World) (sharePaths : list string) (restoredPrefs : ChasmPref) :
  fetchSharePaths (AllCloudStores (preferences w)) w = (Some sharePaths, w1) →
  manifest_of w = Some restoredPrefs →
  NoDup (range (FileMap restoredPrefs)).*1 →
  ∃ evs,
    trace (Restore w) = trace w ++ evs ++ [EvPrint DoneRestored]
    ∧ (∀ p fs, (p, fs) ∈ range (FileMap restoredPrefs) →
         written p evs
         = expected_writes (staging w1) (RegisteredServices (preferences w)) sharePaths fs
         ∧ reports (staging w1) (RegisteredServices (preferences w)) sharePaths fs evs)
    ∧ (∀ p, p ∉ (range (FileMap restoredPrefs)).*1 → written p evs = []).
Proof.
  intros Hfetch Hman Hnd. unfold manifest_of in Hman. unfold Restore.
  pose proof (fetchSharePaths_frame (AllCloudStores (preferences w)) w)
    as ((e1 & Ht1 & Hf1) & _ & Hp1 & _).
  rewrite Hfetch in *. simpl in *.
  pose proof (restoreShareID_appends chasmPrefFile sharePaths w1)
    as (((e2 & Ht2 & Hf2) & Hs2 & _ & _ & Hn2) & _ & _).
  destruct (restoreShareID chasmPrefFile sharePaths w1) as [chasmFileBytes w2].
  simpl in *. rewrite Hman.
  set (w3 := foldl restoreDir w2 (range (DirMap restoredPrefs))).
  pose proof (appends_foldl is_mkdir restoreDir (range (DirMap restoredPrefs))
                (fun w x _ => restoreDir_appends w x) w2)
    as ((e3 & Ht3 & Hf3) & Hs3 & _ & _ & Hn3).
  fold w3 in Ht3, Hs3, Hn3.
  destruct (restoreFiles_spec sharePaths (range (FileMap restoredPrefs)) Hnd w3)
    as (e4 & Ht4 & Hin & Hout).
  rewrite Hs3, Hs2, Hn3, Hn2, Hp1 in Hin.
  assert (∀ p, written p (e1 ++ e2 ++ e3 ++ e4) = written p e4) as Hw.
  { intros p. rewrite !written_app.
    by rewrite (written_fetch p e1 Hf1), (written_prints p e2 Hf2),
      (written_mkdirs p e3 Hf3). }
  exists (e1 ++ e2 ++ e3 ++ e4). split.
  { simpl. rewrite Ht4, Ht3, Ht2, Ht1. by rewrite <- !app_assoc. }
  split.
  - intros p fs Hp. rewrite Hw. destruct (Hin p fs Hp) as (Hwr & Hr1 & Hr2).
    split; [exact Hwr|]. split.
    + intros Hlt. rewrite !elem_of_app. do 3 right. by apply Hr1.
    + intros ???. rewrite !elem_of_app. do 3 right. by apply Hr2.
  - intros p Hp. rewrite Hw. by apply Hout.
Qed.

(** *** Step (1) when every backend gives its staging location *)

Lemma fetch_fails_stage w cs : fetch_fails w cs ↔ stage_of w cs = "".
Proof. unfold fetch_fails, stage_of. by destruct (cloud w !! cs). Qed.


Lemma fetchSharePaths_ok stores : ∀ w,
  Forall (fun cs => ¬ fetch_fails w cs) stores →
  ∃ w1,
    fetchSharePaths stores w = (Some (stage_of w <$> stores), w1)
    ∧ (∀ sp, sp ∉ stage_of w <$> stores → staging w1 !! sp = staging w !! sp)
    ∧ (NoDup (stage_of w <$> stores) →
       ∀ cs sid, cs ∈ stores → staged (staging w1) sid (stage_of w cs) = holds w cs sid).
Proof.
  induction stores as [|cs rest IH]; intros w Hok.
  { exists w. split; [done|]. split; [done|]. intros _ cs sid Hin.
    by apply elem_of_nil in Hin. }
  apply Forall_cons in Hok as [Hcs Hok]. simpl.
  assert (∃ b, cloud w !! cs = Some b ∧ stagingPath b ≠ "") as (b & Hb & Hsp).
  { unfold fetch_fails in Hcs. destruct (cloud w !! cs) as [b|]; [|done]. by exists b. }
  assert (stage_of w cs = stagingPath b) as Hst by (unfold stage_of; by rewrite Hb).
  unfold cs_Restore. rewrite Hb. rewrite bool_decide_eq_false_2 by done.
  rewrite bool_decide_eq_false_2 by done.
  set (w' := emit _ (set_staging _ w)).
  assert (∀ c, stage_of w' c = stage_of w c) as Hso by done.
  assert (∀ c sid, holds w' c sid = holds w c sid) as Hho by done.
  destruct (IH w') as (w1 & Hf & Hother & Hin).
  { eapply Forall_impl; [exact Hok|]. intros c Hc. unfold fetch_fails in *. done. }
  rewrite Hf. simpl. exists w1.
  assert (stage_of w' <$> rest = stage_of w <$> rest) as Hmap by done.
  rewrite Hmap in *. rewrite Hst. split; [done|]. split.
  - intros sp Hsp'. rewrite Hother.
    + subst w'. simpl. apply lookup_insert_ne. intros Heq. apply Hsp'.
      rewrite <- Heq. left.
    + intros ?. apply Hsp'. by right.
  - intros Hnd c sid Hc. apply NoDup_cons in Hnd as [Hnotin Hnd].
    apply elem_of_cons in Hc as [->|Hc].
    + unfold staged. rewrite Hst, Hother by done. subst w'. simpl.
      rewrite lookup_insert_eq. simpl. unfold holds. by rewrite Hb.
    + rewrite <- Hho, <- Hso. by apply Hin.
Qed.

Lemma range_sound_keys {A} (m : gmap string A) :
  range_sound →
  NoDup (range m).*1 ∧ ∀ k v, (k, v) ∈ range m ↔ m !! k = Some v.
Proof.
  intros Hrange. split.
  - rewrite (Hrange _ m). apply NoDup_fst_map_to_list.
  - intros k v. rewrite (Hrange _ m). apply elem_of_map_to_list.
Qed.

(** *** Theorems on Restore *)

(** Integrity. Every [WriteFile] that [Restore] issues is for a record of
    the preferences it reconstructed, and carries bytes that are not empty
    and that match the fingerprint of the record, unless the record has the
    identifier of the preferences file. *)
Theorem Restore_writes_only_verified_bytes (w : World) :
  ∃ evs,
    trace (Restore w) = trace w ++ evs
    ∧ ∀ filePath data, EvWriteFile filePath data ∈ evs →
        data ≠ []
        ∧ ∃ restoredPrefs fileShare,
            manifest_of w = Some restoredPrefs
            ∧ (filePath, fileShare) ∈ range (FileMap restoredPrefs)
            ∧ (SID fileShare = chasmPrefFile ∨ checkSHA2 (Hash fileShare) data = true).
Proof.
  pose proof (fetchSharePaths_frame (AllCloudStores (preferences w)) w)
    as ((e1 & Ht1 & Hf1) & _).
  destruct (Restore_after_fetch w) as (e2 & Ht2 & Hf2).
  exists (e1 ++ e2). split; [by rewrite Ht2, Ht1, <- app_assoc|].
  intros filePath data Hin. apply elem_of_app in Hin as [Hin|Hin].
  - rewrite Forall_forall in Hf1. by destruct (Hf1 _ Hin) as [(? & ? & ?)|[? ?]].
  - rewrite Forall_forall in Hf2.
    destruct (Hf2 _ Hin) as [[? ?]|[[? ?]|(rp & p & fs & Hm & Hp & (d & Heq & Hd & Hv))]];
      try done.
    injection Heq as -> ->. split; [done|]. by exists rp, fs.
Qed.

(** Integrity, the report. For a record without the identifier of the
    preferences file whose shares are all found and combine to bytes that
    are not empty and do not match its fingerprint, [Restore] prints the
    invalid checksum for its identifier and writes nothing to its path. *)
Theorem Restore_reports_a_checksum_mismatch
        (w w1 : World) (sharePaths : list string) (restoredPrefs : ChasmPref)
        (filePath : string) (fileShare : FileShare) :
  range_sound →
  fetchSharePaths (AllCloudStores (preferences w)) w = (Some sharePaths, w1) →
  manifest_of w = Some restoredPrefs →
  FileMap restoredPrefs !! filePath = Some fileShare →
  SID fileShare ≠ chasmPrefFile →
  candidate (staging w1) (RegisteredServices (preferences w)) (SID fileShare) sharePaths ≠ [] →
  checkSHA2 (Hash fileShare)
    (candidate (staging w1) (RegisteredServices (preferences w)) (SID fileShare) sharePaths)
  = false →
  ∃ evs,
    trace (Restore w) = trace w ++ evs ++ [EvPrint DoneRestored]
    ∧ EvPrint (InvalidChecksum (SID fileShare)) ∈ evs
    ∧ written filePath evs = [].
Proof.
  intros Hrange Hfetch Hman Hrec Hsid Hne Hbad.
  destruct (range_sound_keys (FileMap restoredPrefs) Hrange) as [Hnd Hmem].
  destruct (Restore_spec w w1 sharePaths restoredPrefs Hfetch Hman Hnd)
    as (evs & Ht & Hin & _).
  destruct (Hin filePath fileShare) as (Hw & _ & Hrep); [by apply Hmem|].
  exists evs. split; [done|]. split; [by apply Hrep|].
  rewrite Hw. unfold expected_writes.
  rewrite bool_decide_eq_false_2 by done.
  by rewrite bool_decide_eq_true_2, Hbad.
Qed.

End RestoreRecords.

(** ** What the operations keep, and how they compose *)

Section Monotone.

Context `{Ext : Externals}.

Lemma same_setup_refl w : same_setup w w.
Proof. repeat split; by eauto. Qed.

Lemma same_setup_trans w1 w2 w3 :
  same_setup w1 w2 → same_setup w2 w3 → same_setup w1 w3.
Proof.
  intros (Hr1 & Hf1 & Hg1 & Hd1 & Hc1) (Hr2 & Hf2 & Hg2 & Hd2 & Hc2).
  assert (chasmKey w2 = chasmKey w1) as Hk by (unfold chasmKey; by rewrite Hr1).
  rewrite Hk in *.
  repeat split; try congruence.
  - intros k Hk'. by rewrite Hd2, Hd1.
  - intros data Hdata. destruct (Hc1 _ Hdata) as (data1 & H1). by eauto.
Qed.

Lemma same_setup_filter w w' : same_setup w w' → same_filter w w'.
Proof.
  intros (Hr & _ & _ & Hd & _). split; [done|].
  unfold node_at. rewrite Hd; [done|].
  unfold chasmKey. intros H. symmetry in H. by apply chasm_files_differ in H.
Qed.

Lemma same_setup_node w w' p :
  same_setup w w' → path.Clean p ≠ chasmKey w → node_at (disk w') p = node_at (disk w) p.
Proof. intros (_ & _ & _ & Hd & _) Hp. unfold node_at. by rewrite Hd. Qed.

(** A regular file stays a regular file. *)
Lemma same_setup_is_file w w' p data :
  same_setup w w' → node_at (disk w) p = Some (File data) →
  ∃ data', node_at (disk w') p = Some (File data').
Proof.
  intros (_ & _ & _ & Hd & Hc) Hp. unfold node_at in *.
  destruct (disk w !! path.Clean p) as [n|] eqn:Hn.
  2:{ by destruct (_ || _). }
  injection Hp as ->.
  destruct (decide (path.Clean p = chasmKey w)) as [Heq|Hne].
  - rewrite Heq in *. destruct (Hc _ Hn) as (data' & ->). by eauto.
  - rewrite (Hd _ Hne), Hn. by eauto.
Qed.

Lemma same_setup_stores w w' :
  same_setup w w' → AllCloudStores (preferences w') = AllCloudStores (preferences w).
Proof. intros (_ & Hf & Hg & _). rewrite !AllCloudStores_eq. by rewrite Hf, Hg. Qed.

Lemma same_setup_disk w w' :
  root (preferences w') = root (preferences w) →
  FolderStores (preferences w') = FolderStores (preferences w) →
  GDriveStores (preferences w') = GDriveStores (preferences w) →
  disk w' = disk w → same_setup w w'.
Proof. intros Hr Hf Hg Hd. unfold same_setup. rewrite Hd. repeat split; by eauto. Qed.

Lemma same_setup_preferences w w' :
  preferences w' = preferences w → disk w' = disk w → same_setup w w'.
Proof. intros Hp Hd. apply same_setup_disk; congruence. Qed.

Lemma Save_same_setup w : same_setup w (Save w).
Proof.
  repeat split; unfold Save; simpl.
  - intros k Hk. destruct (WriteFile _ _ _) as [d'|] eqn:Hw; simpl; [|done].
    apply WriteFile_key in Hw as ->. by rewrite lookup_insert_ne.
  - intros data Hdata. destruct (WriteFile _ _ _) as [d'|] eqn:Hw; simpl; [|by eauto].
    apply WriteFile_key in Hw as ->. unfold chasmKey. rewrite lookup_insert_eq. by eauto.
Qed.

Lemma grows_refl w : grows w w.
Proof.
  split; [apply same_setup_refl|]. split; [by eauto|]. split; [by eauto|].
  split; [done|]. exists []. by rewrite app_nil_r.
Qed.

Lemma grows_trans w1 w2 w3 : grows w1 w2 → grows w2 w3 → grows w1 w3.
Proof.
  intros (Hs1 & Hf1 & Hd1 & Hh1 & e1 & Ht1 & He1) (Hs2 & Hf2 & Hd2 & Hh2 & e2 & Ht2 & He2).
  split; [by eapply same_setup_trans|]. split; [|split; [|split]].
  - intros k fs Hk. destruct (Hf1 k fs Hk) as (fs1 & Hk1 & Hsid1).
    destruct (Hf2 k fs1 Hk1) as (fs2 & Hk2 & Hsid2). exists fs2. split; congruence.
  - intros k b Hk. destruct (Hd1 k b Hk) as (b1 & Hk1 & Hb1).
    destruct (Hd2 k b1 Hk1) as (b2 & Hk2 & Hb2). exists b2. split; [done|]. tauto.
  - intros cs sid H. by apply Hh2, Hh1.
  - exists (e1 ++ e2). split; [by rewrite Ht2, Ht1, <- app_assoc|]. by apply Forall_app.
Qed.

Lemma grows_print m w : grows w (print m w).
Proof.
  split; [by apply same_setup_preferences|]. split; [by eauto|]. split; [by eauto|].
  split; [done|]. exists [EvPrint m]. split; [done|].
  constructor; [|done]. right. right. by eexists.
Qed.

(** A loop whose body never forgets does not forget. *)
Lemma for_each_grows {A} (body : A → World → Outcome) (l : list A) :
  (∀ x w w', x ∈ l → stops_in (body x w) w' → grows w w') →
  ∀ w w', stops_in (for_each body l w) w' → grows w w'.
Proof.
  induction l as [|x l IH]; intros Hbody w w' Hstop; simpl in Hstop.
  { destruct Hstop as [H|H]; [|done]. injection H as ->. apply grows_refl. }
  destruct (body x w) as [w1|w1|] eqn:Hb; simpl in Hstop.
  - apply (grows_trans _ w1).
    + apply (Hbody x); [left|]. left. done.
    + apply IH; [|done]. intros y wa wb Hy. apply Hbody. by right.
  - destruct Hstop as [H|H]; [done|]. injection H as ->.
    apply (Hbody x); [left|]. by right.
  - by destruct Hstop.
Qed.

(** The steps of a loop that returned. *)
Lemma for_each_Returned_elem {A} (body : A → World → Outcome) (l : list A) x :
  ∀ w w', for_each body l w = Returned w' → x ∈ l →
  ∃ l1 l2 wa wb,
    l = l1 ++ x :: l2
    ∧ for_each body l1 w = Returned wa
    ∧ body x wa = Returned wb
    ∧ for_each body l2 wb = Returned w'.
Proof.
  induction l as [|y l IH]; intros w w' Hrun Hin; [by apply elem_of_nil in Hin|].
  simpl in Hrun. destruct (body y w) as [w1| |] eqn:Hb; try done. simpl in Hrun.
  apply elem_of_cons in Hin as [->|Hin].
  - by exists [], l, w, w1.
  - destruct (IH w1 w' Hrun Hin) as (l1 & l2 & wa & wb & -> & H1 & H2 & H3).
    exists (y :: l1), l2, wa, wb. simpl. by rewrite Hb.
Qed.

(** The uploads of [AddFile]: whether the loop ends or panics, the
    preferences and the disk are as before, the backends keep what they
    held, and only uploads are issued. *)
Lemma uploadShares_grows stores shares : ∀ i w w',
  stops_in (uploadShares i stores shares w) w' →
  preferences w' = preferences w ∧ disk w' = disk w ∧ drawn w' = drawn w
  ∧ (∀ cs sid, is_Some (holds w cs sid) → is_Some (holds w' cs sid))
  ∧ ∃ evs, trace w' = trace w ++ evs ∧ Forall is_upload evs.
Proof.
  induction stores as [|cs rest IH]; intros i w w' Hstop; simpl in Hstop.
  { destruct Hstop as [H|H]; [|done]. injection H as ->.
    repeat split; try done. exists []. by rewrite app_nil_r. }
  destruct (shares !! i) as [share|].
  2:{ destruct Hstop as [H|H]; [done|]. injection H as ->.
      repeat split; try done. exists []. by rewrite app_nil_r. }
  destruct (IH _ _ _ Hstop) as (Hp & Hd & Hn & Hh & evs & Ht & He).
  repeat split; try done.
  - intros c sid Hc. apply Hh. unfold holds, cs_Upload in *. simpl.
    destruct (decide (c = cs)) as [->|Hne].
    + rewrite lookup_alter_eq. destruct (cloud w !! cs) as [b|]; [|done]. simpl in *.
      destruct (decide (sid = share_SID share)) as [->|Hs].
      * by rewrite lookup_insert_eq.
      * by rewrite lookup_insert_ne.
    + by rewrite lookup_alter_ne.
  - exists (EvUpload cs share :: evs). split.
    + rewrite Ht. simpl. by rewrite <- app_assoc.
    + constructor; [by eexists _, _|done].
Qed.

Lemma addRegularFile_grows filePath w w' :
  stops_in (addRegularFile filePath w) w' → grows w w'.
Proof.
  unfold addRegularFile.
  set (sid := share_id_for w filePath).
  set (w0 := match FileMap (preferences w) !! filePath with
             | Some _ => w
             | None => set_drawn (S (drawn w)) w
             end).
  assert ((match FileMap (preferences w) !! filePath with
           | Some existingFileShare => (SID existingFileShare, w)
           | None => (RandomShareID (drawn w), set_drawn (S (drawn w)) w)
           end) = (sid, w0)) as ->.
  { subst sid w0. unfold share_id_for. by destruct (FileMap (preferences w) !! filePath). }
  assert (preferences w0 = preferences w ∧ disk w0 = disk w ∧ trace w0 = trace w
          ∧ cloud w0 = cloud w) as (Hp0 & Hd0 & Ht0 & Hc0).
  { subst w0. by destruct (FileMap (preferences w) !! filePath). }
  assert (grows w w0) as Hg0.
  { split; [by apply same_setup_preferences|].
    split; [rewrite Hp0; by eauto|]. split; [rewrite Hp0; by eauto|].
    split; [unfold holds; by rewrite Hc0|].
    exists []. by rewrite Ht0, app_nil_r. }
  destruct (ReadFile (disk w0) filePath) as [fileBytes|].
  2:{ intros [H|H]; [|done]. injection H as <-.
      apply (grows_trans _ w0); [done|]. apply grows_print. }
  set (w1 := set_preferences _ w0).
  assert (grows w w1) as Hg1.
  { split; [apply same_setup_disk; subst w1; simpl; congruence|].
    split; [|split; [|split]].
    - intros k fs Hk. subst w1. simpl. rewrite Hp0.
      destruct (decide (k = filePath)) as [->|Hne].
      + rewrite lookup_insert_eq. eexists. split; [done|]. simpl.
        subst sid. unfold share_id_for. by rewrite Hk.
      + rewrite lookup_insert_ne by done. by eauto.
    - intros k b Hk. subst w1. simpl. rewrite Hp0. by eauto.
    - unfold holds. subst w1. simpl. by rewrite Hc0.
    - exists []. subst w1. simpl. by rewrite Ht0, app_nil_r. }
  intros Hstop.
  destruct (uploadShares 0 _ _ w1) as [w2|w2|] eqn:Hup; simpl in Hstop.
  - destruct (uploadShares_grows _ _ _ _ w2 (or_introl Hup))
      as (Hp & Hd & _ & Hh & evs & Ht & He).
    assert (grows w1 w2) as Hg2.
    { split; [by apply same_setup_preferences|]. split; [rewrite Hp; by eauto|].
      split; [rewrite Hp; by eauto|]. split; [done|].
      exists evs. split; [done|]. eapply Forall_impl; [exact He|]. by left. }
    case_bool_decide as Hsid.
    + destruct Hstop as [H|H]; [|done]. injection H as <-.
      apply (grows_trans _ w1); [done|]. apply (grows_trans _ w2); [done|].
      split; [apply Save_same_setup|]. split; [by eauto|]. split; [by eauto|].
      split; [done|]. eexists. split; [apply Save_trace|].
      constructor; [|done]. right. left. by eexists _, _.
    + destruct Hstop as [H|H]; [|done]. injection H as <-.
      by apply (grows_trans _ w1).
  - destruct Hstop as [H|H]; [done|]. injection H as <-.
    destruct (uploadShares_grows _ _ _ _ w2 (or_intror Hup))
      as (Hp & Hd & _ & Hh & evs & Ht & He).
    apply (grows_trans _ w1); [done|].
    split; [by apply same_setup_preferences|]. split; [rewrite Hp; by eauto|].
    split; [rewrite Hp; by eauto|]. split; [done|].
    exists evs. split; [done|]. eapply Forall_impl; [exact He|]. by left.
  - by destruct Hstop.
Qed.

Lemma AddFile_grows (fuel : nat) : ∀ filePath w w',
  stops_in (AddFile fuel filePath w) w' → grows w w'.
Proof.
  induction fuel as [|fuel IH]; intros filePath w w' Hstop; simpl in Hstop.
  { by destruct Hstop. }
  destruct (IsValidPath w filePath); simpl in Hstop.
  2:{ destruct Hstop as [H|H]; [|done]. injection H as <-. apply grows_print. }
  destruct (node_at (disk w) filePath) as [[data|]|].
  - by apply (addRegularFile_grows filePath).
  - set (w1 := set_preferences _ w) in Hstop.
    apply (grows_trans _ w1).
    + split; [by apply same_setup_disk|]. split; [by eauto|]. split; [|split; [done|]].
      * intros k b Hk. subst w1. simpl.
        destruct (decide (k = path.Clean filePath)) as [->|Hne].
        -- rewrite lookup_insert_eq. by eauto.
        -- rewrite lookup_insert_ne by done. by eauto.
      * exists []. by rewrite app_nil_r.
    + eapply for_each_grows; [|exact Hstop]. intros x wa wb _. apply (IH (path.Join filePath x)).
  - destruct Hstop as [H|H]; [|done]. injection H as <-. apply grows_print.
Qed.

End Monotone.

Section AddFileMore.

Context `{Ext : Externals}.

(** The uploads when [CreateShares] gives fewer shares than there are
    backends: the backends that have a share get it, then [shares[i]]
    panics. *)
Lemma uploadShares_panics stores shares : ∀ i w,
  i ≤ length shares →
  length shares < i + length stores →
  ∃ w', uploadShares i stores shares w = Panicked w'
        ∧ preferences w' = preferences w ∧ disk w' = disk w
        ∧ trace w' = trace w ++ zip_with EvUpload stores (drop i shares).
Proof.
  induction stores as [|cs rest IH]; intros i w Hi0 Hlen; simpl in *; [lia|].
  destruct (shares !! i) as [share|] eqn:Hi.
  - apply lookup_lt_Some in Hi as Hlt.
    destruct (IH (S i) (cs_Upload cs share w) ltac:(lia) ltac:(lia))
      as (w' & -> & Hp & Hd & Ht).
    exists w'. repeat split; try done.
    rewrite Ht. simpl. rewrite <- app_assoc. simpl. by rewrite (drop_S _ _ _ Hi).
  - exists w. repeat split; try done.
    apply lookup_ge_None in Hi. rewrite drop_ge by lia.
    simpl. by rewrite app_nil_r.
Qed.

(** The head of [addRegularFile]: the identifier and the counter of drawn
    identifiers. *)
Lemma addRegularFile_unfold filePath w :
  addRegularFile filePath w
  = let w0 := match FileMap (preferences w) !! filePath with
               | Some _ => w
               | None => set_drawn (S (drawn w)) w
               end in
    match ReadFile (disk w) filePath with
    | None => Returned (print CannotReadFile w0)
    | Some fileBytes =>
        let sid := share_id_for w filePath in
        let w1 :=
          set_preferences
            (fun p => set_FileMap
                        (<[filePath := {| SID := sid; Hash := SHA256Base64URL fileBytes |}]>
                           (FileMap p)) p) w0 in
        let allCloudStores := AllCloudStores (preferences w) in
        let shares := CreateShares fileBytes sid (length allCloudStores) in
        let* w2 := uploadShares 0 allCloudStores shares w1 in
        if bool_decide (sid ≠ chasmPrefFile) then Returned (Save w2) else Returned w2
    end.
Proof.
  unfold addRegularFile, share_id_for.
  destruct (FileMap (preferences w) !! filePath) as [fs|]; simpl.
  - destruct (ReadFile (disk w) filePath); [|done].
    by rewrite AllCloudStores_set_FileMap.
  - destruct (ReadFile (disk w) filePath); [|done].
    by rewrite AllCloudStores_set_FileMap.
Qed.


(** [AddFile] never forgets. Whether [AddFile] returns or panics, every
    path that was tracked is still tracked under the same identifier, every
    marked directory is still marked, every share a backend held is still
    held, the root and the configured backends are the same, the disk
    differs at most in the preferences file, and the calls issued are
    uploads, saves and messages: no backend is asked to delete. *)
Theorem AddFile_never_forgets (fuel : nat) (filePath : string) (w w' : World) :
  AddFile fuel filePath w = Returned w' ∨ AddFile fuel filePath w = Panicked w' →
  (∀ k fs, FileMap (preferences w) !! k = Some fs →
     ∃ fs', FileMap (preferences w') !! k = Some fs' ∧ SID fs' = SID fs)
  ∧ (∀ k, is_Some (DirMap (preferences w) !! k) → is_Some (DirMap (preferences w') !! k))
  ∧ (∀ cs sid, is_Some (holds w cs sid) → is_Some (holds w' cs sid))
  ∧ root (preferences w') = root (preferences w)
  ∧ AllCloudStores (preferences w') = AllCloudStores (preferences w)
  ∧ (∀ k, k ≠ path.Clean (path.Join (root (preferences w)) chasmPrefFile) →
       disk w' !! k = disk w !! k)
  ∧ ∃ evs, trace w' = trace w ++ evs
           ∧ Forall (fun e => is_upload e ∨ is_save e ∨ is_print e) evs.
Proof.
  intros Hstop. apply AddFile_grows in Hstop as (Hs & Hf & Hd & Hh & Ht).
  split; [done|]. split.
  { intros k [b Hk]. destruct (Hd k b Hk) as (b' & -> & _). by eauto. }
  split; [done|]. split; [by destruct Hs|]. split; [by apply same_setup_stores|].
  split; [|done]. by destruct Hs as (_ & _ & _ & ? & _).
Qed.

(** [AddFile] on a directory. When it returns, the directory is marked
    under its cleaned path, and every regular file directly in it that is
    not ignored is tracked under the path joined from the directory and its
    name. *)
Theorem AddFile_directory_tracks_its_files
        (fuel : nat) (dirPath : string) (w w' : World) :
  IsValidPath w dirPath = true →
  node_at (disk w) dirPath = Some Directory →
  AddFile fuel dirPath w = Returned w' →
  DirMap (preferences w') !! path.Clean dirPath = Some true
  ∧ ∀ name data,
      name ∈ ReadDir (disk w) dirPath →
      node_at (disk w) (path.Join dirPath name) = Some (File data) →
      IsValidPath w (path.Join dirPath name) = true →
      is_Some (FileMap (preferences w') !! path.Join dirPath name).
Proof.
  intros Hvalid Hdir Hrun. destruct fuel as [|fuel]; [done|].
  simpl in Hrun. rewrite Hvalid, Hdir in Hrun. simpl in Hrun.
  set (w1 := set_preferences _ w) in Hrun.
  assert (grows w w1) as Hg1.
  { split; [by apply same_setup_disk|]. split; [by eauto|]. split; [|split; [done|]].
    - intros k b Hk. subst w1. simpl.
      destruct (decide (k = path.Clean dirPath)) as [->|Hne].
      + rewrite lookup_insert_eq. by eauto.
      + rewrite lookup_insert_ne by done. by eauto.
    - exists []. by rewrite app_nil_r. }
  assert (∀ l wa wb, for_each (fun f => AddFile fuel (path.Join dirPath f)) l wa = Returned wb →
                     grows wa wb) as Hloop.
  { intros l wa wb Hl. eapply for_each_grows; [|left; exact Hl].
    intros x wc wd _. apply (AddFile_grows fuel (path.Join dirPath x)). }
  split.
  - destruct (Hloop _ _ _ Hrun) as (_ & _ & Hd & _).
    destruct (Hd (path.Clean dirPath) true) as (b' & -> & Hb').
    + subst w1. simpl. apply lookup_insert_eq.
    + by rewrite Hb'.
  - intros name data Hin Hfile Hok.
    destruct (for_each_Returned_elem _ _ name _ _ Hrun Hin)
      as (l1 & l2 & wa & wb & _ & H1 & H2 & H3).
    assert (grows w wa) as Hga.
    { apply (grows_trans _ w1); [done|]. by eapply Hloop. }
    destruct Hga as (Hsa & _).
    destruct (same_setup_is_file _ _ _ _ Hsa Hfile) as (data' & Hfile').
    destruct fuel as [|fuel]; [done|]. simpl in H2.
    rewrite (same_filter_IsValidPath w wa), Hok, Hfile' in H2
      by (by apply same_setup_filter).
    simpl in H2.
    assert (is_Some (FileMap (preferences wb) !! path.Join dirPath name)) as [fs Hfs].
    { rewrite addRegularFile_unfold in H2. rewrite (ReadFile_node _ _ _ Hfile') in H2.
      simpl in H2.
      match type of H2 with
      | and_then (uploadShares ?i ?st ?sh ?w0) _ = _ =>
          destruct (uploadShares i st sh w0) as [w2|w2|] eqn:Hup; try done;
          destruct (uploadShares_grows _ _ _ _ w2 (or_introl Hup)) as (Hp & _)
      end.
      simpl in H2.
      assert (preferences wb = preferences w2) as ->.
      { case_bool_decide; by injection H2 as <-. }
      rewrite Hp. simpl. rewrite lookup_insert_eq. by eauto. }
    destruct (Hloop _ _ _ H3) as (_ & Hf & _).
    destruct (Hf _ _ Hfs) as (fs' & -> & _). by eauto.
Qed.

(** [AddFile] when [CreateShares] gives fewer shares than there are
    backends: the index [shares[i]] is not guarded. The call panics after
    the record of the file is in [preferences.FileMap] and after the
    backends that have a share got it; the preferences are not saved. *)
Theorem AddFile_panics_on_too_few_shares
        (fuel : nat) (filePath : string) (w : World) (fileBytes : bytes) :
  let stores := AllCloudStores (preferences w) in
  let shares := CreateShares fileBytes (share_id_for w filePath) (length stores) in
  IsValidPath w filePath = true →
  node_at (disk w) filePath = Some (File fileBytes) →
  length shares < length stores →
  ∃ w',
    AddFile (S fuel) filePath w = Panicked w'
    ∧ FileMap (preferences w') !! filePath
      = Some {| SID := share_id_for w filePath; Hash := SHA256Base64URL fileBytes |}
    ∧ trace w' = trace w ++ zip_with EvUpload stores shares
    ∧ length (zip_with EvUpload stores shares) = length shares
    ∧ disk w' = disk w.
Proof.
  intros stores shares Hvalid Hfile Hshort. simpl.
  rewrite Hvalid, Hfile. simpl.
  rewrite addRegularFile_unfold, (ReadFile_node _ _ _ Hfile). simpl.
  fold stores. fold shares.
  match goal with
  | |- ∃ w', and_then (uploadShares 0 stores shares ?w1) _ = _ ∧ _ =>
      destruct (uploadShares_panics stores shares 0 w1 ltac:(lia) ltac:(simpl; lia))
        as (w' & -> & Hp & Hd & Ht)
  end.
  exists w'. split; [done|]. rewrite Hp, Hd, Ht. simpl.
  split; [apply lookup_insert_eq|]. split.
  - assert (trace (match FileMap (preferences w) !! filePath with
                   | Some _ => w
                   | None => set_drawn (S (drawn w)) w
                   end) = trace w) as -> by (by destruct (_ !! _)).
    by rewrite drop_0.
  - split; [rewrite length_zip_with; lia|]. by destruct (_ !! _).
Qed.

End AddFileMore.

Section DeleteFileMore.

Context `{Ext : Externals}.

Lemma shrinks_refl w : shrinks w w.
Proof.
  split; [apply same_setup_refl|]. repeat split; try done.
  exists []. by rewrite app_nil_r.
Qed.

Lemma shrinks_trans w1 w2 w3 : shrinks w1 w2 → shrinks w2 w3 → shrinks w1 w3.
Proof.
  intros (Hs1 & Hf1 & Hd1 & Hh1 & e1 & Ht1 & He1) (Hs2 & Hf2 & Hd2 & Hh2 & e2 & Ht2 & He2).
  split; [by eapply same_setup_trans|].
  split; [by etrans|]. split; [by etrans|]. split; [by eauto|].
  exists (e1 ++ e2). split; [by rewrite Ht2, Ht1, <- app_assoc|]. by apply Forall_app.
Qed.

Lemma shrinks_print m w : shrinks w (print m w).
Proof.
  split; [by apply same_setup_preferences|]. repeat split; try done.
  exists [EvPrint m]. split; [done|]. constructor; [|done]. right. right. by eexists.
Qed.

Lemma cs_Delete_holds cs sid w c s :
  holds (cs_Delete cs sid w) c s
  = if bool_decide (c = cs ∧ s = sid) then None else holds w c s.
Proof.
  unfold holds, cs_Delete. simpl.
  destruct (decide (c = cs)) as [->|Hne].
  - rewrite lookup_alter_eq. destruct (cloud w !! cs) as [b|]; simpl.
    + destruct (decide (s = sid)) as [->|Hs].
      * rewrite lookup_delete_eq. by rewrite bool_decide_eq_true_2.
      * rewrite lookup_delete_ne by done. rewrite bool_decide_eq_false_2; naive_solver.
    + by case_bool_decide.
  - rewrite lookup_alter_ne by done. rewrite bool_decide_eq_false_2; naive_solver.
Qed.

(** The delete calls of [DeleteFile]: afterwards no backend of the list
    holds the share, and every other share is held as before. *)
Lemma foldl_cs_Delete_holds sid stores : ∀ w c s,
  holds (foldl (fun w cs => cs_Delete cs sid w) w stores) c s
  = if bool_decide (c ∈ stores ∧ s = sid) then None else holds w c s.
Proof.
  induction stores as [|cs rest IH]; intros w c s; simpl.
  { done. }
  rewrite IH, cs_Delete_holds.
  repeat case_bool_decide; try done; exfalso; set_solver.
Qed.

Lemma deleted_delete_calls sid (stores : list CloudStore) rest :
  deleted (((fun cs => EvDelete cs sid) <$> stores) ++ rest)
  = ((fun cs => (cs, sid)) <$> stores) ++ deleted rest.
Proof.
  induction stores as [|c l IH]; [done|].
  change (deleted (EvDelete c sid :: ((fun cs => EvDelete cs sid) <$> l) ++ rest)
          = (c, sid) :: ((fun cs => (cs, sid)) <$> l) ++ deleted rest).
  rewrite <- IH. reflexivity.
Qed.

Lemma deleteTracked_shrinks filePath w : shrinks w (deleteTracked filePath w).
Proof.
  unfold deleteTracked.
  destruct (FileMap (preferences w) !! filePath) as [fileShare|] eqn:Hf;
    [|apply shrinks_print].
  destruct (foldl_cs_Delete (SID fileShare) (AllCloudStores (preferences w)) w)
    as (Hp & Hd & Ht).
  pose proof (foldl_cs_Delete_holds (SID fileShare) (AllCloudStores (preferences w)) w) as Hh.
  set (w1 := foldl _ w _) in *.
  set (w2 := set_preferences _ w1).
  apply (shrinks_trans _ w2); [|apply (shrinks_trans _ (Save w2)); [|apply shrinks_print]].
  - split; [apply same_setup_disk; subst w2; simpl; congruence|].
    split; [subst w2; simpl; rewrite Hp; apply delete_subseteq|].
    split; [subst w2; simpl; by rewrite Hp|].
    split.
    + intros cs sid data. change (holds w2 cs sid) with (holds w1 cs sid).
      rewrite Hh. by case_bool_decide.
    + eexists. split; [exact Ht|]. apply Forall_fmap, Forall_true.
      intros cs. left. by eexists _, _.
  - split; [apply Save_same_setup|]. repeat split; try done.
    eexists. split; [apply Save_trace|]. constructor; [|done]. right. left. by eexists _, _.
Qed.

Lemma for_each_shrinks {A} (body : A → World → Outcome) (l : list A) :
  (∀ x w w', x ∈ l → body x w = Returned w' → shrinks w w') →
  ∀ w w', for_each body l w = Returned w' → shrinks w w'.
Proof.
  induction l as [|x l IH]; intros Hbody w w' Hrun; simpl in Hrun.
  { injection Hrun as ->. apply shrinks_refl. }
  destruct (body x w) as [w1| |] eqn:Hb; try done. simpl in Hrun.
  apply (shrinks_trans _ w1).
  - apply (Hbody x); [left|done].
  - apply IH; [|done]. intros y wa wb Hy. apply Hbody. by right.
Qed.

Lemma DeleteFile_shrinks (fuel : nat) : ∀ filePath w w',
  DeleteFile fuel filePath w = Returned w' → shrinks w w'.
Proof.
  induction fuel as [|fuel IH]; intros filePath w w' Hrun; [done|].
  simpl in Hrun. destruct (IsValidPath w filePath); simpl in Hrun.
  2:{ injection Hrun as <-. apply shrinks_print. }
  destruct (DirMap (preferences w) !! path.Clean filePath) as [b|] eqn:Hd.
  2:{ injection Hrun as <-. apply deleteTracked_shrinks. }
  rewrite DeleteDir_with_unfold in Hrun.
  set (w1 := set_preferences _ w) in Hrun.
  apply (shrinks_trans _ w1).
  - split; [by apply same_setup_disk|]. split; [done|].
    split; [subst w1; simpl; apply delete_subseteq|]. split; [done|].
    exists []. by rewrite app_nil_r.
  - eapply for_each_shrinks; [|exact Hrun].
    intros entry wa wb _. unfold DeleteDir_body.
    destruct (FileMap (preferences wa) !! fst entry).
    2:{ intros H. injection H as <-. apply shrinks_refl. }
    case_bool_decide.
    + intros H'. injection H' as <-. apply shrinks_refl.
    + apply IH.
Qed.

(** [DeleteFile] never adds. When [DeleteFile] returns, the records, the
    marked directories and the shares the backends hold are among those of
    before, the root and the configured backends are the same, the disk
    differs at most in the preferences file, and the calls issued are
    deletes, saves and messages: nothing is uploaded. *)
Theorem DeleteFile_only_removes (fuel : nat) (filePath : string) (w w' : World) :
  DeleteFile fuel filePath w = Returned w' →
  FileMap (preferences w') ⊆ FileMap (preferences w)
  ∧ DirMap (preferences w') ⊆ DirMap (preferences w)
  ∧ (∀ cs sid data, holds w' cs sid = Some data → holds w cs sid = Some data)
  ∧ root (preferences w') = root (preferences w)
  ∧ AllCloudStores (preferences w') = AllCloudStores (preferences w)
  ∧ (∀ k, k ≠ path.Clean (path.Join (root (preferences w)) chasmPrefFile) →
       disk w' !! k = disk w !! k)
  ∧ ∃ evs, trace w' = trace w ++ evs
           ∧ Forall (fun e => is_delete e ∨ is_save e ∨ is_print e) evs.
Proof.
  intros Hrun. apply DeleteFile_shrinks in Hrun as (Hs & Hf & Hd & Hh & Ht).
  split; [done|]. split; [done|]. split; [done|].
  split; [by destruct Hs|]. split; [by apply same_setup_stores|].
  split; [|done]. by destruct Hs as (_ & _ & _ & ? & _).
Qed.

(** [DeleteFile] twice. After [DeleteFile] removed the record of a tracked
    file, a second [DeleteFile] on the path finds no record: it prints that
    the path is not tracked and does nothing else. *)
Theorem DeleteFile_again_reports_untracked
        (fuel1 fuel2 : nat) (filePath : string) (w : World) (fileShare : FileShare) :
  IsValidPath w filePath = true →
  DirMap (preferences w) !! path.Clean filePath = None →
  FileMap (preferences w) !! filePath = Some fileShare →
  ∃ w1,
    DeleteFile (S fuel1) filePath w = Returned w1
    ∧ FileMap (preferences w1) = delete filePath (FileMap (preferences w))
    ∧ DeleteFile (S fuel2) filePath w1 = Returned (print (PathNotTracked filePath) w1).
Proof.
  intros Hvalid Hdir Hrec.
  destruct (deleteTracked_spec w filePath fileShare Hrec) as (Hp & _ & Hsf).
  exists (deleteTracked filePath w).
  rewrite (DeleteFile_file w) by done. rewrite Hvalid. split; [done|].
  split; [by rewrite Hp|].
  rewrite DeleteFile_file by (by rewrite deleteTracked_DirMap).
  rewrite (same_filter_IsValidPath w) by done. rewrite Hvalid.
  unfold deleteTracked at 1. rewrite Hp. simpl. by rewrite lookup_delete_eq.
Qed.

(** [AddFile] then [DeleteFile]. For a regular file that is not ignored
    and is no marked directory, when [CreateShares] gives a share for every
    backend: [AddFile] returns, and [DeleteFile] on the same path then asks
    every registered backend to delete the identifier that [AddFile]
    uploaded under, after which no registered backend holds a share of it;
    the record is gone and the records of the other paths are as before
    the two calls. *)
Theorem AddFile_then_DeleteFile
        (fuel1 fuel2 : nat) (filePath : string) (w : World) (fileBytes : bytes) :
  let stores := AllCloudStores (preferences w) in
  let sid := share_id_for w filePath in
  IsValidPath w filePath = true →
  node_at (disk w) filePath = Some (File fileBytes) →
  DirMap (preferences w) !! path.Clean filePath = None →
  length stores ≤ length (CreateShares fileBytes sid (length stores)) →
  ∃ w1 w2,
    AddFile (S fuel1) filePath w = Returned w1
    ∧ DeleteFile (S fuel2) filePath w1 = Returned w2
    ∧ FileMap (preferences w2) = delete filePath (FileMap (preferences w))
    ∧ DirMap (preferences w2) = DirMap (preferences w)
    ∧ deleted (drop (length (trace w1)) (trace w2)) = (fun cs => (cs, sid)) <$> stores
    ∧ ∀ cs, cs ∈ stores → holds w2 cs sid = None.
Proof.
  intros stores sid Hvalid Hfile Hdir Hlen.
  destruct (addRegularFile_spec w filePath fileBytes Hfile Hlen) as (w1 & Hadd & Hp1 & Ht1).
  assert (grows w w1) as (Hs1 & _).
  { apply (addRegularFile_grows filePath). by left. }
  exists w1, (deleteTracked filePath w1).
  split; [simpl; by rewrite Hvalid, Hfile|].
  assert (FileMap (preferences w1) !! filePath
          = Some {| SID := sid; Hash := SHA256Base64URL fileBytes |}) as Hrec.
  { rewrite Hp1. simpl. apply lookup_insert_eq. }
  destruct (deleteTracked_spec w1 filePath _ Hrec) as (Hp2 & Ht2 & _).
  rewrite DeleteFile_file by (by rewrite Hp1).
  rewrite (same_filter_IsValidPath w) by (by apply same_setup_filter).
  rewrite Hvalid. split; [done|].
  split; [rewrite Hp2, Hp1; simpl; apply delete_insert_eq|].
  split; [by rewrite Hp2, Hp1|].
  assert (AllCloudStores (preferences w1) = stores) as Hst by (by apply same_setup_stores).
  split.
  - rewrite Ht2, drop_app_length, Hst. simpl.
    rewrite deleted_delete_calls. apply app_nil_r.
  - intros cs Hcs. unfold deleteTracked. rewrite Hrec, Hst. simpl.
    change (holds (print DeletedShare (Save ?w)) cs sid) with (holds w cs sid).
    match goal with
    | |- holds (set_preferences _ ?w) cs sid = None =>
        change (holds w cs sid = None)
    end.
    rewrite foldl_cs_Delete_holds. by rewrite bool_decide_eq_true_2.
Qed.

End DeleteFileMore.

Section AddFileAgain.

Context `{Ext : Externals}.

Lemma addRegularFile_drawn filePath w w' :
  addRegularFile filePath w = Returned w' →
  drawn w' = match FileMap (preferences w) !! filePath with
             | Some _ => drawn w
             | None => S (drawn w)
             end.
Proof.
  rewrite addRegularFile_unfold. simpl.
  destruct (ReadFile (disk w) filePath) as [fileBytes|].
  2:{ intros H. injection H as <-. by destruct (_ !! _). }
  match goal with
  | |- and_then (uploadShares ?i ?st ?sh ?w0) _ = _ → _ =>
      destruct (uploadShares i st sh w0) as [w2|w2|] eqn:Hup; try done;
      destruct (uploadShares_grows _ _ _ _ w2 (or_introl Hup)) as (_ & _ & Hn & _)
  end.
  simpl. intros H.
  assert (drawn w' = drawn w2) as -> by (case_bool_decide; by injection H as <-).
  rewrite Hn. simpl. by destruct (_ !! _).
Qed.

(** [AddFile] again. For a regular file that is not ignored and is not
    the preferences file, when [CreateShares] gives a share for every
    backend: a second [AddFile] on the path takes the identifier of the
    record, draws no new identifier and leaves the preferences as the first
    call left them; it issues uploads and at most a save, and asks no
    backend to delete. *)
Theorem AddFile_again_keeps_the_record
        (fuel1 fuel2 : nat) (filePath : string) (w : World) (fileBytes : bytes) :
  let stores := AllCloudStores (preferences w) in
  let sid := share_id_for w filePath in
  IsValidPath w filePath = true →
  node_at (disk w) filePath = Some (File fileBytes) →
  path.Clean filePath ≠ path.Clean (path.Join (root (preferences w)) chasmPrefFile) →
  length stores ≤ length (CreateShares fileBytes sid (length stores)) →
  ∃ w1 w2 saves,
    AddFile (S fuel1) filePath w = Returned w1
    ∧ FileMap (preferences w1) !! filePath
      = Some {| SID := sid; Hash := SHA256Base64URL fileBytes |}
    ∧ AddFile (S fuel2) filePath w1 = Returned w2
    ∧ preferences w2 = preferences w1
    ∧ drawn w2 = drawn w1
    ∧ trace w2
      = trace w1 ++ zip_with EvUpload stores (CreateShares fileBytes sid (length stores))
        ++ saves
    ∧ Forall is_save saves.
Proof.
  intros stores sid Hvalid Hfile Hne Hlen.
  destruct (addRegularFile_spec w filePath fileBytes Hfile Hlen) as (w1 & Hadd & Hp1 & Ht1).
  assert (grows w w1) as (Hs1 & _).
  { apply (addRegularFile_grows filePath). by left. }
  assert (FileMap (preferences w1) !! filePath
          = Some {| SID := sid; Hash := SHA256Base64URL fileBytes |}) as Hrec.
  { rewrite Hp1. simpl. apply lookup_insert_eq. }
  assert (share_id_for w1 filePath = sid) as Hsid.
  { unfold share_id_for at 1. by rewrite Hrec. }
  assert (AllCloudStores (preferences w1) = stores) as Hst by (by apply same_setup_stores).
  assert (node_at (disk w1) filePath = Some (File fileBytes)) as Hfile1.
  { by rewrite (same_setup_node w w1). }
  destruct (addRegularFile_spec w1 filePath fileBytes Hfile1) as (w2 & Hadd2 & Hp2 & Ht2).
  { by rewrite Hsid, Hst. }
  rewrite Hsid in Hp2. rewrite Hsid, Hst in Ht2.
  eexists w1, w2, _. split; [simpl; by rewrite Hvalid, Hfile|].
  split; [done|]. split.
  { simpl. rewrite (same_filter_IsValidPath w) by (by apply same_setup_filter).
    by rewrite Hvalid, Hfile1. }
  split.
  { rewrite Hp2. destruct (preferences w1) as [r fs gs fm dm] eqn:Hw1. simpl in *.
    unfold set_FileMap. simpl. f_equal. by apply insert_id. }
  split.
  { rewrite (addRegularFile_drawn _ _ _ Hadd2). by rewrite Hrec. }
  split; [exact Ht2|].
  case_bool_decide; repeat constructor. by eexists _, _.
Qed.

End AddFileAgain.

Section RestoreMore.

Context `{Ext : Externals}.

Lemma set_DirMap_same p : set_DirMap (DirMap p) p = p.
Proof. by destruct p. Qed.

Lemma restores_refl w : restores w w.
Proof.
  split; [apply set_DirMap_same|]. repeat split; try done.
  exists []. by rewrite app_nil_r.
Qed.

Lemma restores_trans w1 w2 w3 : restores w1 w2 → restores w2 w3 → restores w1 w3.
Proof.
  intros (Hp1 & Hd1 & Hc1 & e1 & Ht1 & He1) (Hp2 & Hd2 & Hc2 & e2 & Ht2 & He2).
  split; [|split; [by eauto|split; [congruence|]]].
  - rewrite <- Hp1 at 2. rewrite <- Hp2. by destruct (preferences w3).
  - exists (e1 ++ e2). split; [by rewrite Ht2, Ht1, <- app_assoc|]. by apply Forall_app.
Qed.

(** A step that leaves the preferences and the backends alone. *)
Lemma restores_frame (P : Event → Prop) w w' :
  (∀ e, P e → is_restore_call e ∨ is_print e ∨ is_mkdir e ∨ is_write e) →
  trace_appends P w w' → preferences w' = preferences w → cloud w' = cloud w →
  restores w w'.
Proof.
  intros HP (evs & Ht & He) Hp Hc.
  split; [rewrite Hp; apply set_DirMap_same|]. split; [by rewrite Hp|]. split; [done|].
  exists evs. split; [done|]. by eapply Forall_impl.
Qed.

Lemma restores_foldl {A} (step : World → A → World) (l : list A) :
  (∀ w x, restores w (step w x)) → ∀ w, restores w (foldl step w l).
Proof.
  intros Hstep. induction l as [|x l IH]; intros w; simpl; [apply restores_refl|].
  by apply (restores_trans _ (step w x)).
Qed.

Lemma restoreDir_restores w entry : restores w (restoreDir w entry).
Proof.
  unfold restoreDir. split; [simpl; by destruct (preferences w)|]. split; [|split; [done|]].
  - intros k Hk. simpl. destruct (decide (k = fst entry)) as [->|Hne].
    + rewrite lookup_insert_eq. by eauto.
    + by rewrite lookup_insert_ne.
  - exists [EvMkdirAll (fst entry)]. split; [done|].
    constructor; [|done]. right. right. left. by eexists.
Qed.

Lemma restoreFile_restores sharePaths w entry : restores w (restoreFile sharePaths w entry).
Proof.
  destruct entry as [filePath fileShare]. unfold restoreFile.
  pose proof (restoreShareID_appends (SID fileShare) sharePaths w) as (Ha & _ & Hp).
  destruct (restoreShareID (SID fileShare) sharePaths w) as [fileBytes w1]. simpl in *.
  assert (restores w w1) as Hr1.
  { apply (restores_frame is_print); [by auto|by apply appends_trace|done|by destruct Ha as (_ & _ & ? & _)]. }
  case_bool_decide; [done|].
  destruct (_ && _).
  { apply (restores_trans _ w1); [done|].
    apply (restores_frame is_print); [by auto| |done|done].
    exists [EvPrint (InvalidChecksum (SID fileShare))]. split; [done|].
    constructor; [by eexists|done]. }
  apply (restores_trans _ w1); [done|].
  set (w2 := emit _ w1).
  apply (restores_trans _ w2).
  { apply (restores_frame is_write); [by auto| |done|done].
    exists [EvWriteFile filePath fileBytes]. split; [done|].
    constructor; [by eexists _, _|done]. }
  destruct (WriteFile _ _ _).
  - apply (restores_frame is_print); [by auto| |done|done].
    exists []. by rewrite app_nil_r.
  - apply (restores_frame is_print); [by auto| |done|done].
    exists [EvPrint (ErrorWriting filePath)]. split; [done|].
    constructor; [by eexists|done].
Qed.

(** [Restore] keeps the records and the backends. Whatever the backends
    give, [Restore] leaves [preferences.FileMap], the root and the
    configured backends as they are and what the backends hold as it is;
    it only adds marks to the directory set. It issues staging fetches,
    messages, [MkdirAll] and [WriteFile]: it uploads nothing, deletes
    nothing and does not save the preferences. *)
Theorem Restore_keeps_the_records_and_the_backends (w : World) :
  FileMap (preferences (Restore w)) = FileMap (preferences w)
  ∧ root (preferences (Restore w)) = root (preferences w)
  ∧ AllCloudStores (preferences (Restore w)) = AllCloudStores (preferences w)
  ∧ (∀ k, is_Some (DirMap (preferences w) !! k) →
          is_Some (DirMap (preferences (Restore w)) !! k))
  ∧ cloud (Restore w) = cloud w
  ∧ ∃ evs, trace (Restore w) = trace w ++ evs
           ∧ Forall (fun e => is_restore_call e ∨ is_print e ∨ is_mkdir e ∨ is_write e) evs.
Proof.
  assert (restores w (Restore w)) as (Hp & Hd & Hc & Ht).
  { unfold Restore.
    pose proof (fetchSharePaths_frame (AllCloudStores (preferences w)) w)
      as (Hf & _ & Hp1 & Hc1).
    destruct (fetchSharePaths _ w) as [[sharePaths|] w1]; simpl in *.
    2:{ eapply restores_frame; [|exact Hf|done|done]. intros e [?|?]; by auto. }
    apply (restores_trans _ w1).
    { eapply restores_frame; [|exact Hf|done|done]. intros e [?|?]; by auto. }
    pose proof (restoreShareID_appends chasmPrefFile sharePaths w1) as (Ha & _ & Hp2).
    destruct (restoreShareID chasmPrefFile sharePaths w1) as [chasmFileBytes w2].
    simpl in *. apply (restores_trans _ w2).
    { apply (restores_frame is_print);
        [by auto|by apply appends_trace|done|by destruct Ha as (_ & _ & ? & _)]. }
    destruct (json_Unmarshal chasmFileBytes) as [restoredPrefs|].
    2:{ apply (restores_frame is_print); [by auto| |done|done].
        exists [EvPrint CannotRestorePreferences]. split; [done|].
        constructor; [by eexists|done]. }
    set (w3 := foldl restoreDir w2 (range (DirMap restoredPrefs))).
    set (w4 := foldl (restoreFile sharePaths) w3 (range (FileMap restoredPrefs))).
    apply (restores_trans _ w3); [apply restores_foldl, restoreDir_restores|].
    apply (restores_trans _ w4); [apply restores_foldl, restoreFile_restores|].
    apply (restores_frame is_print); [by auto| |done|done].
    exists [EvPrint DoneRestored]. split; [done|]. constructor; [by eexists|done]. }
  rewrite <- Hp at 1 2 3. rewrite AllCloudStores_set_DirMap.
  split; [done|]. split; [done|]. split; [done|]. done.
Qed.

End RestoreMore.

Section RestoreManifest.

Context `{Ext : Externals}.

Lemma restoreFile_preferences sharePaths w entry :
  preferences (restoreFile sharePaths w entry) = preferences w.
Proof.
  destruct entry as [filePath fileShare]. unfold restoreFile.
  pose proof (restoreShareID_appends (SID fileShare) sharePaths w) as (_ & _ & Hp).
  destruct (restoreShareID (SID fileShare) sharePaths w) as [fileBytes w1]. simpl in *.
  case_bool_decide; [done|]. destruct (_ && _); [done|].
  by destruct (WriteFile _ _ _).
Qed.

Lemma foldl_restoreFile_preferences sharePaths l : ∀ w,
  preferences (foldl (restoreFile sharePaths) w l) = preferences w.
Proof.
  induction l as [|x l IH]; intros w; simpl; [done|].
  by rewrite IH, restoreFile_preferences.
Qed.

(** Step (3) over a list of entries: the marks and the [MkdirAll] calls. *)
Lemma foldl_restoreDir (l : list (string * bool)) : ∀ w,
  (∀ k, DirMap (preferences (foldl restoreDir w l)) !! k
        = if bool_decide (k ∈ l.*1) then Some true else DirMap (preferences w) !! k)
  ∧ trace (foldl restoreDir w l) = trace w ++ (EvMkdirAll <$> l.*1).
Proof.
  induction l as [|[d b] l IH]; intros w; simpl.
  { split; [done|]. by rewrite app_nil_r. }
  destruct (IH (restoreDir w (d, b))) as (Hd & Ht). split.
  - intros k. rewrite Hd.
    change (((d, b) :: l).*1) with (d :: l.*1).
    change (DirMap (preferences (restoreDir w (d, b))))
      with (<[d := true]> (DirMap (preferences w))).
    destruct (decide (k = d)) as [->|Hne].
    + rewrite lookup_insert_eq.
      repeat case_bool_decide; try done; exfalso; set_solver.
    + rewrite lookup_insert_ne by done.
      repeat case_bool_decide; try done; exfalso; set_solver.
  - rewrite Ht. simpl. by rewrite <- app_assoc.
Qed.

(** Step (3) of [Restore]. When the preferences are reconstructed from the
    backends, [Restore] calls [MkdirAll] once for every directory of the
    reconstructed preferences, before any [WriteFile], and marks exactly
    these directories in [preferences.DirMap], beside the marks that were
    there. *)
Theorem Restore_marks_the_directories_of_the_manifest
        (w : World) (restoredPrefs : ChasmPref) :
  range_sound →
  manifest_of w = Some restoredPrefs →
  (∀ k, DirMap (preferences (Restore w)) !! k
        = if bool_decide (is_Some (DirMap restoredPrefs !! k)) then Some true
          else DirMap (preferences w) !! k)
  ∧ ∃ evs1 dirs evs2,
      trace (Restore w) = trace w ++ evs1 ++ (EvMkdirAll <$> dirs) ++ evs2
      ∧ dirs ≡ₚ (map_to_list (DirMap restoredPrefs)).*1
      ∧ Forall (fun e => is_restore_call e ∨ is_print e) evs1
      ∧ Forall (fun e => is_print e ∨ is_write e) evs2.
Proof.
  intros Hrange Hman. unfold manifest_of in Hman. unfold Restore.
  pose proof (fetchSharePaths_frame (AllCloudStores (preferences w)) w)
    as ((e1 & Ht1 & Hf1) & _ & Hp1 & _).
  destruct (fetchSharePaths _ w) as [[sharePaths|] w1]; [|done]. simpl in *.
  pose proof (restoreShareID_appends chasmPrefFile sharePaths w1)
    as (((e2 & Ht2 & Hf2) & _) & _ & Hp2).
  destruct (restoreShareID chasmPrefFile sharePaths w1) as [chasmFileBytes w2].
  simpl in *. rewrite Hman.
  destruct (foldl_restoreDir (range (DirMap restoredPrefs)) w2) as (Hd3 & Ht3).
  set (w3 := foldl restoreDir w2 (range (DirMap restoredPrefs))) in *.
  pose proof (restores_foldl (restoreFile sharePaths) (range (FileMap restoredPrefs))
                (restoreFile_restores sharePaths) w3) as (_ & _ & _ & e4 & Ht4 & Hf4).
  pose proof (foldl_restoreFile_preferences sharePaths (range (FileMap restoredPrefs)) w3)
    as Hp4.
  set (w4 := foldl (restoreFile sharePaths) w3 (range (FileMap restoredPrefs))) in *.
  destruct (range_sound_keys (DirMap restoredPrefs) Hrange) as [_ Hmem].
  split.
  - intros k. simpl. rewrite Hp4, Hd3, Hp2, Hp1.
    assert (k ∈ (range (DirMap restoredPrefs)).*1 ↔ is_Some (DirMap restoredPrefs !! k)) as Hk.
    { rewrite list_elem_of_fmap. split.
      - intros ([k' b] & -> & Hin). apply Hmem in Hin. by eauto.
      - intros [b Hb]. exists (k, b). split; [done|]. by apply Hmem. }
    repeat case_bool_decide; try done; tauto.
  - exists (e1 ++ e2), (range (DirMap restoredPrefs)).*1, (e4 ++ [EvPrint DoneRestored]).
    split; [simpl; rewrite Ht4, Ht3, Ht2, Ht1; by rewrite <- !app_assoc|].
    split; [by rewrite (Hrange _ (DirMap restoredPrefs))|].
    split.
    + apply Forall_app. split; [done|]. eapply Forall_impl; [exact Hf2|]. by auto.
    + apply Forall_app. split; [|constructor; [left; by eexists|done]].
      pose proof (appends_foldl (fun e => is_print e ∨ is_write e)
                    (restoreFile sharePaths) (range (FileMap restoredPrefs))) as Hfold.
      destruct (Hfold) with (w := w3) as ((e4' & Ht4' & Hf4') & _).
      { intros wa [p fs] _. eapply appends_weaken; [|apply restoreFile_appends].
        intros e [?|(data & -> & _)]; [by left|right; by eexists _, _]. }
      fold w4 in Ht4'. rewrite Ht4 in Ht4'. by apply app_inv_head in Ht4' as ->.
Qed.

End RestoreManifest.

Section RestoreShares.

Context `{Ext : Externals}.

(** The loop of [restoreShareID] when every staging location has the
    share: nothing is printed. *)
Lemma readShares_all_found sid sharePaths : ∀ w datas,
  Forall2 (fun sp data => readStaged w sp sid = Some data) sharePaths datas →
  readShares sid sharePaths w
  = ((fun data => {| share_SID := sid; share_Data := data |}) <$> datas,
     length sharePaths, w).
Proof.
  induction sharePaths as [|sp rest IH]; intros w datas Hall.
  { by apply Forall2_nil_inv_l in Hall as ->. }
  apply Forall2_cons_inv_l in Hall as (data & datas' & Hsp & Hrest & ->).
  simpl. rewrite Hsp. by rewrite (IH w datas' Hrest).
Qed.

(** Every staging location has the share, or one lacks it. *)
Lemma staged_all_or_one (w : World) sid sharePaths :
  (∃ datas, Forall2 (fun sp data => readStaged w sp sid = Some data) sharePaths datas)
  ∨ (∃ sp, sp ∈ sharePaths ∧ readStaged w sp sid = None).
Proof.
  induction sharePaths as [|sp rest IH].
  { left. exists []. constructor. }
  destruct (readStaged w sp sid) as [data|] eqn:Hsp.
  2:{ right. exists sp. split; [left|done]. }
  destruct IH as [(datas & Hall)|(sp' & Hin & Hnone)].
  - left. exists (data :: datas). by constructor.
  - right. exists sp'. split; [by right|done].
Qed.

(** [restoreShareID] with one staging location per registered service, as
    [Restore] calls it: either a staging location lacks the share, and then
    the result is empty and the lack of shares is printed, [CombineShares]
    not being called; or every staging location has the share, and then
    the result is [CombineShares] of the shares read, in the order of the
    staging locations, none of them a zero [Share], and nothing is
    printed. *)
Theorem restoreShareID_combines_complete_sets_only
        (sid : ShareID) (sharePaths : list string) (w : World) :
  length sharePaths = RegisteredServices (preferences w) →
  (∃ sp, sp ∈ sharePaths ∧ readStaged w sp sid = None
         ∧ fst (restoreShareID sid sharePaths w) = []
         ∧ ∃ evs, trace (snd (restoreShareID sid sharePaths w))
                  = trace w ++ evs ++ [EvPrint (NotEnoughShares sid)]
                  ∧ Forall is_print evs)
  ∨ (∃ datas,
        Forall2 (fun sp data => readStaged w sp sid = Some data) sharePaths datas
        ∧ restoreShareID sid sharePaths w
          = (CombineShares ((fun data => {| share_SID := sid; share_Data := data |})
                              <$> datas), w)).
Proof.
  intros Hlen. destruct (staged_all_or_one w sid sharePaths) as [(datas & Hall)|(sp & Hin & Hnone)].
  - right. exists datas. split; [done|]. unfold restoreShareID.
    rewrite (readShares_all_found _ _ _ _ Hall). by rewrite Hlen, Nat.ltb_irrefl.
  - left. exists sp. split; [done|]. split; [done|].
    apply restoreShareID_too_few. rewrite <- Hlen.
    rewrite <- (length_fmap (staged (staging w) sid) sharePaths).
    apply omap_id_length_lt. apply list_elem_of_fmap. by exists sp.
Qed.

(** [Restore] without the share of the preferences. Every registered
    backend gives a staging location and the locations differ, but one
    backend holds no share under the identifier of the preferences file;
    [json.Unmarshal] rejects the empty input. Then [Restore] prints that
    there are not enough shares for the preferences file and that the
    preferences cannot be restored, and returns: it creates no directory
    and writes no file, and the disk and the preferences are as before. *)
Theorem Restore_needs_the_share_of_the_preferences (w : World) (cs : CloudStore) :
  json_Unmarshal [] = None →
  Forall (fun cs => ¬ fetch_fails w cs) (AllCloudStores (preferences w)) →
  NoDup (stage_of w <$> AllCloudStores (preferences w)) →
  cs ∈ AllCloudStores (preferences w) →
  holds w cs chasmPrefFile = None →
  ∃ evs,
    trace (Restore w)
    = trace w ++ evs ++ [EvPrint (NotEnoughShares chasmPrefFile);
                         EvPrint CannotRestorePreferences]
    ∧ Forall (fun e => is_restore_call e ∨ is_print e) evs
    ∧ disk (Restore w) = disk w
    ∧ preferences (Restore w) = preferences w.
Proof.
  intros Hjson Hok Hnd Hcs Hnone.
  destruct (fetchSharePaths_ok _ w Hok) as (w1 & Hfetch & _ & Hstaged).
  pose proof (fetchSharePaths_frame (AllCloudStores (preferences w)) w)
    as ((e1 & Ht1 & Hf1) & Hd1 & Hp1 & _).
  unfold Restore. rewrite Hfetch in *. simpl in *.
  destruct (restoreShareID_too_few chasmPrefFile
              (stage_of w <$> AllCloudStores (preferences w)) w1)
    as (Hempty & e2 & Ht2 & Hf2).
  { rewrite Hp1, <- AllCloudStores_length.
    rewrite <- (length_fmap (stage_of w) (AllCloudStores (preferences w))).
    rewrite <- (length_fmap (staged (staging w1) chasmPrefFile)
                  (stage_of w <$> AllCloudStores (preferences w))).
    apply omap_id_length_lt. apply list_elem_of_fmap.
    exists (stage_of w cs). split; [|apply list_elem_of_fmap; by exists cs].
    by rewrite (Hstaged Hnd cs chasmPrefFile Hcs). }
  pose proof (restoreShareID_appends chasmPrefFile
                (stage_of w <$> AllCloudStores (preferences w)) w1) as (_ & Hd2 & Hp2).
  destruct (restoreShareID chasmPrefFile _ w1) as [chasmFileBytes w2]. simpl in *.
  subst chasmFileBytes. rewrite Hjson. simpl.
  exists (e1 ++ e2). split; [rewrite Ht2, Ht1; by rewrite <- !app_assoc|].
  split; [|split; congruence].
  apply Forall_app. split; [done|]. eapply Forall_impl; [exact Hf2|]. by auto.
Qed.

End RestoreShares.

Section Preferences.

Context `{Ext : Externals}.

(** [AllCloudStores]: the slice that the two loops fill has one entry per
    registered service and no nil entry; the folder stores come first, in
    the order of the configuration, then the drive stores, in the order of
    the configuration. *)
Theorem AllCloudStores_lists_folders_then_drives (p : ChasmPref) :
  AllCloudStores_slice p
  = Some <$> ((CSFolder <$> FolderStores p) ++ (CSGDrive <$> GDriveStores p))
  ∧ length (AllCloudStores_slice p) = RegisteredServices p
  ∧ (∀ i fs, FolderStores p !! i = Some fs → AllCloudStores p !! i = Some (CSFolder fs))
  ∧ (∀ i gds, GDriveStores p !! i = Some gds →
       AllCloudStores p !! (length (FolderStores p) + i) = Some (CSGDrive gds)).
Proof.
  split; [apply AllCloudStores_slice_full|]. split.
  { rewrite AllCloudStores_slice_full. unfold RegisteredServices.
    by rewrite length_fmap, length_app, !length_fmap. }
  rewrite AllCloudStores_eq. split.
  - intros i fs Hi. rewrite lookup_app_l.
    + by rewrite list_lookup_fmap, Hi.
    + rewrite length_fmap. by eapply lookup_lt_Some.
  - intros i gds Hi. rewrite lookup_app_r by (rewrite length_fmap; lia).
    rewrite length_fmap. replace (length (FolderStores p) + i - length (FolderStores p)) with i by lia.
    by rewrite list_lookup_fmap, Hi.
Qed.

(** [os.MkdirAll] makes no regular file. *)
Lemma mkdir_chain_ReadFile_None qs : ∀ d x,
  ReadFile d x = None → ReadFile (mkdir_chain d qs) x = None.
Proof.
  induction qs as [|q qs IH]; intros d x Hx; simpl; [done|].
  destruct (node_at d q) as [[data|]|]; try done; [by apply IH|].
  apply IH. unfold ReadFile, node_at in *.
  destruct (decide (path.Clean x = q)) as [->|Hne].
  - by rewrite lookup_insert_eq.
  - by rewrite lookup_insert_ne.
Qed.

Lemma MkdirAll_ReadFile_None d p x :
  ReadFile d x = None → ReadFile (MkdirAll d p) x = None.
Proof. apply mkdir_chain_ReadFile_None. Qed.

(** [CreateOrLoadChasmDir] on a new root: neither the preferences file nor
    the ignore file can be read. The preferences then have the root, no
    marked directory and two records: the preferences file under the
    reserved identifier with the empty fingerprint, and the ignore file
    under its identifier with the fingerprint of the default content; the
    configured backends are as before. The calls are [MkdirAll] of the
    root, the message, the write of the default ignore file (a failure is
    printed) and the save. *)
Theorem CreateOrLoadChasmDir_new_root (root0 : string) (w : World) :
  let chasmFilePath := path.Join root0 chasmPrefFile in
  let chasmIgnorePath := path.Join root0 chasmIgnoreFile in
  let w' := CreateOrLoadChasmDir root0 w in
  ReadFile (disk w) chasmFilePath = None →
  ReadFile (disk w) chasmIgnorePath = None →
  preferences w'
  = {| root := root0;
       FolderStores := FolderStores (preferences w);
       GDriveStores := GDriveStores (preferences w);
       FileMap := <[chasmIgnorePath := {| SID := chasmIgnoreFile;
                                          Hash := SHA256Base64URL defaultIgnore |}]>
                    {[ chasmFilePath := {| SID := chasmPrefFile; Hash := "" |} ]};
       DirMap := ∅ |}
  ∧ ∃ evs,
      trace w'
      = trace w ++ [EvMkdirAll root0; EvPrint CreatingNewFolder;
                    EvWriteFile chasmIgnorePath defaultIgnore]
        ++ evs ++ [EvSave chasmFilePath (json_MarshalIndent (preferences w'))]
      ∧ (evs = [] ∨ evs = [EvPrint (CouldNotWriteIgnore chasmFilePath)]).
Proof.
  intros chasmFilePath chasmIgnorePath w' Hnew Hnoignore. subst w'.
  unfold CreateOrLoadChasmDir. simpl.
  fold chasmFilePath. fold chasmIgnorePath.
  rewrite (MkdirAll_ReadFile_None _ root0 _ Hnew). simpl.
  rewrite (MkdirAll_ReadFile_None _ root0 _ Hnoignore). simpl.
  destruct (WriteFile _ chasmIgnorePath defaultIgnore) as [d|]; simpl.
  - split; [done|]. exists []. split; [|by left]. by rewrite <- !app_assoc.
  - split; [done|]. eexists. split; [|by right]. by rewrite <- !app_assoc.
Qed.

(** What [Save] writes, the next run loads. The write of [Save] succeeds;
    [json.Unmarshal] gives back the exported fields that
    [json.MarshalIndent] wrote (the root is not exported); a later run
    starts from the zero preferences on the disk that [Save] left, where
    the root exists and the ignore file can be read. Then
    [CreateOrLoadChasmDir] on the same root ends with the preferences that
    were saved, and leaves the disk as it is. *)
Theorem CreateOrLoadChasmDir_loads_what_Save_wrote (w w0 : World) :
  let root0 := root (preferences w) in
  let chasmFilePath := path.Join root0 chasmPrefFile in
  is_Some (WriteFile (disk w) chasmFilePath (json_MarshalIndent (preferences w))) →
  json_Unmarshal (json_MarshalIndent (preferences w)) = Some (set_root "" (preferences w)) →
  preferences w0 = emptyPref →
  disk w0 = disk (Save w) →
  MkdirAll (disk w0) root0 = disk w0 →
  is_Some (ReadFile (disk w0) (path.Join root0 chasmIgnoreFile)) →
  preferences (CreateOrLoadChasmDir root0 w0) = preferences w
  ∧ disk (CreateOrLoadChasmDir root0 w0) = disk w0.
Proof.
  intros root0 chasmFilePath [d' Hwrite] Hjson Hzero Hdisk Hroot [ignore Hignore].
  assert (disk w0 = <[path.Clean chasmFilePath := File (json_MarshalIndent (preferences w))]>
                      (disk w)) as Hd0.
  { rewrite Hdisk. unfold Save. simpl. fold root0. fold chasmFilePath.
    rewrite Hwrite. simpl. by apply WriteFile_key. }
  assert (ReadFile (disk w0) chasmFilePath = Some (json_MarshalIndent (preferences w)))
    as Hread.
  { unfold ReadFile, node_at. by rewrite Hd0, lookup_insert_eq. }
  unfold CreateOrLoadChasmDir. simpl. rewrite Hroot.
  fold chasmFilePath. rewrite Hread, Hjson. simpl. rewrite Hignore.
  unfold Save. simpl. rewrite Hzero. simpl.
  assert (set_root root0 (set_root "" (set_root "" (preferences w))) = preferences w) as Hp.
  { subst root0. by destruct (preferences w). }
  rewrite Hp. split; [done|].
  fold root0. fold chasmFilePath.
  destruct (WriteFile (disk w0) chasmFilePath _) as [d''|] eqn:Hw2; simpl; [|done].
  apply WriteFile_key in Hw2 as ->. apply insert_id.
  by rewrite Hd0, lookup_insert_eq.
Qed.

End Preferences.

Section IgnoreByName.

Context `{Ext : Externals}.

Import path.

Lemma existsb_is_slash_plain x :
  Forall (fun a => is_slash a = false) x → existsb is_slash x = false.
Proof.
  induction 1 as [|a x Ha _ IH]; [done|]. simpl. by rewrite Ha, IH.
Qed.

Lemma after_last_slash_plain x :
  Forall (fun a => is_slash a = false) x → after_last_slash x = x.
Proof.
  destruct 1 as [|a x Ha Hx]; [done|]. simpl.
  by rewrite (existsb_is_slash_plain x Hx), Ha.
Qed.

Lemma after_last_slash_app q x :
  Forall (fun a => is_slash a = false) x →
  after_last_slash (q ++ slash :: x) = x.
Proof.
  intros Hx. induction q as [|a q IH]; simpl.
  - by rewrite (existsb_is_slash_plain x Hx).
  - rewrite IH. rewrite existsb_app. simpl. by rewrite orb_true_r.
Qed.

(** The last element of a path that ends with a plain element. *)
Lemma Base_plain_last pre x :
  plain x → pre = [] ∨ (∃ q, pre = q ++ [slash]) →
  Base (string_of_list_ascii (pre ++ x)) = string_of_list_ascii x.
Proof.
  intros (Hne & _ & _ & Hx) Hpre. unfold Base.
  rewrite list_ascii_of_string_of_list_ascii.
  assert (rev (strip_trailing_slashes_rev (rev (pre ++ x))) = pre ++ x) as Hstrip.
  { rewrite rev_app_distr.
    destruct (rev x) as [|a r] eqn:Hr.
    { apply (f_equal (@rev ascii)) in Hr. rewrite rev_involutive in Hr. by subst x. }
    assert (is_slash a = false) as Ha.
    { rewrite Forall_forall in Hx. apply Hx.
      apply list_elem_of_In, in_rev. rewrite Hr. by left. }
    simpl. rewrite Ha. change (a :: r ++ rev pre) with ((a :: r) ++ rev pre).
    rewrite <- Hr, <- rev_app_distr. apply rev_involutive. }
  assert (after_last_slash (pre ++ x) = x) as Hlast.
  { destruct Hpre as [->|[q ->]].
    - by apply after_last_slash_plain.
    - rewrite <- app_assoc. by apply after_last_slash_app. }
  destruct (pre ++ x) as [|c l] eqn:Hpx.
  { apply app_eq_nil in Hpx as [_ ->]. done. }
  cbv zeta. rewrite Hstrip, Hlast. by destruct x.
Qed.

Lemma Base_Join_plain a b :
  plain (list_ascii_of_string b) → Base (Join a b) = b.
Proof.
  intros Hb. rewrite Join_plain by done.
  rewrite Base_plain_last; [apply string_of_list_ascii_of_string|done|].
  unfold join_prefix. destruct a; [by left|]. apply dir_prefix_shape.
Qed.

(** The ignore filter goes by the name. A path made of a directory and a
    plain name (not empty, without a slash, neither [.] nor [..]) is valid
    exactly when the name alone is: a pattern of the ignore file is matched
    against the last element of the path only, whatever the directory. *)
Theorem IsValidPath_goes_by_the_name (w : World) (dirPath name : string) :
  plain (list_ascii_of_string name) →
  IsValidPath w (Join dirPath name) = IsValidPath w name
  ∧ (IsValidPath w name = false ↔
     ∃ content pattern,
       node_at (disk w) (Join (root (preferences w)) chasmIgnoreFile) = Some (File content)
       ∧ pattern ∈ scanLines content
       ∧ fst (filepath_Match pattern name) = true).
Proof.
  intros Hname.
  assert (Base name = name) as Hbase.
  { pose proof (Base_plain_last [] _ Hname (or_introl eq_refl)) as H. simpl in H.
    by rewrite !string_of_list_ascii_of_string in H. }
  split.
  - unfold IsValidPath. by rewrite Base_Join_plain, Hbase.
  - rewrite IsValidPath_false. unfold ignored. by rewrite Hbase.
Qed.

End IgnoreByName.

(** ** Restore on the disk *)

Section CleanTwice.

Import path.

Abbreviation dotdot := [dot; dot].

Lemma components_slash_free l :
  Forall (Forall (fun a => is_slash a = false)) (components l).
Proof.
  induction l as [|a l IH]; [by repeat constructor|].
  unfold components in *. simpl. destruct (is_slash a) eqn:Ha.
  - by constructor.
  - destruct (foldr _ _ l) as [|c cs]; [by repeat constructor|].
    apply Forall_cons in IH as [Hc Hcs]. constructor; [by constructor|done].
Qed.

Lemma components_cons_app c r :
  Forall (fun a => is_slash a = false) c →
  components (c ++ slash :: r) = c :: components r.
Proof.
  induction 1 as [|a c Ha _ IH]; [done|].
  unfold components in *. simpl. by rewrite Ha, IH.
Qed.

Lemma components_join_slash cs :
  cs ≠ [] → Forall (Forall (fun a => is_slash a = false)) cs →
  components (join_slash cs) = cs.
Proof.
  induction cs as [|c cs IH]; intros Hne Hall; [done|].
  apply Forall_cons in Hall as [Hc Hcs].
  destruct cs as [|c' cs]; [by apply components_no_slash|].
  change (join_slash (c :: c' :: cs)) with (c ++ slash :: join_slash (c' :: cs)).
  rewrite components_cons_app by done. by rewrite IH.
Qed.

Lemma plain_slash_free x : plain x → Forall (fun a => is_slash a = false) x.
Proof. by intros (_ & _ & _ & ?). Qed.

Lemma dotdot_slash_free : Forall (fun a => is_slash a = false) dotdot.
Proof. by repeat constructor. Qed.

(** The stack of [Clean]: plain elements on top of the [..] elements that
    could not be resolved, which a rooted path never has. *)
Lemma clean_stack rooted (cs : list (list ascii)) :
  Forall (Forall (fun a => is_slash a = false)) cs →
  ∀ st ps k,
    st = ps ++ replicate k dotdot → Forall plain ps → (rooted = true → k = 0) →
    ∃ ps' k',
      foldl (clean_step rooted) st cs = ps' ++ replicate k' dotdot
      ∧ Forall plain ps' ∧ (rooted = true → k' = 0).
Proof.
  induction 1 as [|c cs Hc _ IH]; intros st ps k -> Hps Hk; [by exists ps, k|].
  simpl. unfold clean_step at 2.
  destruct (bool_decide (c = []) || bool_decide (c = [dot])) eqn:Hskip.
  { by apply (IH _ ps k). }
  apply orb_false_iff in Hskip as [H1 H2].
  apply bool_decide_eq_false in H1, H2.
  unfold is_dotdot. case_bool_decide as Hdd.
  - subst c. destruct ps as [|p ps]; simpl.
    + destruct k as [|k]; simpl.
      * destruct rooted; [by apply (IH _ [] 0)|].
        apply (IH _ [] 1); by auto.
      * apply (IH _ [] (S (S k))); [done|done|].
        intros Hr. by specialize (Hk Hr).
    + apply Forall_cons in Hps as [(_ & _ & Hp & _) Hps].
      rewrite bool_decide_eq_false_2 by done. by apply (IH _ ps k).
  - apply (IH _ (c :: ps) k); [done| |done].
    constructor; [|done]. by repeat split.
Qed.

Lemma foldl_clean_step_plain rooted ps : ∀ st,
  Forall plain ps → foldl (clean_step rooted) st (rev ps) = ps ++ st.
Proof.
  induction ps as [|p ps IH]; intros st Hps; [done|].
  apply Forall_cons in Hps as [Hp Hps]. simpl.
  rewrite foldl_app. simpl. rewrite IH by done. by apply clean_step_plain.
Qed.

Lemma foldl_clean_step_dotdot k : ∀ j,
  foldl (clean_step false) (replicate j dotdot) (replicate k dotdot)
  = replicate (k + j) dotdot.
Proof.
  induction k as [|k IH]; intros j; [done|].
  simpl. assert (clean_step false (replicate j dotdot) dotdot = replicate (S j) dotdot) as ->.
  { by destruct j. }
  rewrite IH. by rewrite Nat.add_succ_r.
Qed.

(** Cleaning the elements of a stack again gives the stack. *)
Lemma clean_stack_again rooted ps k :
  Forall plain ps → (rooted = true → k = 0) →
  foldl (clean_step rooted) [] (rev (ps ++ replicate k dotdot)) = ps ++ replicate k dotdot.
Proof.
  intros Hps Hk. rewrite rev_app_distr, foldl_app.
  assert (rev (replicate k dotdot) = replicate k dotdot) as ->.
  { clear. induction k as [|k IH]; [done|]. simpl. rewrite IH.
    clear. induction k as [|k IH]; [done|]. simpl. by rewrite IH. }
  assert (foldl (clean_step rooted) [] (replicate k dotdot) = replicate k dotdot) as ->.
  { destruct rooted.
    - by rewrite (Hk eq_refl).
    - pose proof (foldl_clean_step_dotdot k 0) as H0. simpl in H0.
      by rewrite H0, Nat.add_0_r. }
  by apply foldl_clean_step_plain.
Qed.

Lemma join_slash_head c cs :
  ∃ r, join_slash (c :: cs) = c ++ r.
Proof. destruct cs; [exists []; by rewrite app_nil_r|by eexists]. Qed.

Lemma clean_from_again rooted (l : list ascii) :
  clean_list (clean_from rooted l) = clean_from rooted l.
Proof.
  unfold clean_from.
  destruct (clean_stack rooted (components l) (components_slash_free l) [] [] 0)
    as (ps & k & Hst & Hps & Hk); [done|done|done|].
  set (st := foldl (clean_step rooted) [] (components l)) in *.
  assert (Forall (Forall (fun a => is_slash a = false)) (rev st)) as Hfree.
  { rewrite Hst. apply Forall_rev, Forall_app. split.
    - eapply Forall_impl; [exact Hps|]. apply plain_slash_free.
    - apply Forall_replicate, dotdot_slash_free. }
  assert (Forall (fun c : list ascii => c ≠ []) (rev st)) as Hne.
  { rewrite Hst. apply Forall_rev, Forall_app. split.
    - eapply Forall_impl; [exact Hps|]. by intros ? (? & _).
    - by apply Forall_replicate. }
  assert (foldl (clean_step rooted) [] (rev st) = st) as Hagain.
  { rewrite Hst. by apply clean_stack_again. }
  cbv zeta. destruct (rev st) as [|c cs] eqn:Hrev.
  { destruct rooted; reflexivity. }
  assert (components (join_slash (c :: cs)) = c :: cs) as Hcomp
    by (by apply components_join_slash).
  destruct (join_slash_head c cs) as (r & Hjoin).
  apply Forall_cons in Hne as [Hc _]. apply Forall_cons in Hfree as [Hcf _].
  destruct c as [|a c]; [done|]. apply Forall_cons in Hcf as [Ha _].
  destruct rooted.
  - unfold clean_list. change (is_slash slash) with true. unfold clean_from.
    change (components (slash :: join_slash ((a :: c) :: cs)))
      with ([] :: components (join_slash ((a :: c) :: cs))).
    rewrite Hcomp.
    change (foldl (clean_step true) [] ([] :: (a :: c) :: cs))
      with (foldl (clean_step true) [] ((a :: c) :: cs)).
    rewrite Hagain. by rewrite Hrev.
  - rewrite Hjoin. simpl. rewrite Ha.
    change (a :: c ++ r) with ((a :: c) ++ r). rewrite <- Hjoin.
    unfold clean_from. rewrite Hcomp, Hagain, Hrev. by rewrite Hjoin.
Qed.

Lemma clean_list_again l : clean_list (clean_list l) = clean_list l.
Proof.
  destruct l as [|a l]; [reflexivity|]. apply clean_from_again.
Qed.

(** [path.Clean] is idempotent. *)
Lemma Clean_again p : Clean (Clean p) = Clean p.
Proof.
  unfold Clean. by rewrite list_ascii_of_string_of_list_ascii, clean_list_again.
Qed.

End CleanTwice.

Section RestoreDisk.

Context `{Ext : Externals}.

Lemma node_at_Clean d p : node_at d (path.Clean p) = node_at d p.
Proof. unfold node_at. by rewrite Clean_again. Qed.

Lemma is_directory_Clean d p : is_directory d (path.Clean p) = is_directory d p.
Proof. unfold is_directory. by rewrite node_at_Clean. Qed.



Lemma ReadFile_insert d p data :
  ReadFile (<[path.Clean p := File data]> d) p = Some data.
Proof. unfold ReadFile, node_at. by rewrite lookup_insert_eq. Qed.










End RestoreDisk.

Section ReservedIdentifier.

Context `{Ext : Externals}.

Lemma trace_appends_refl (P : Event → Prop) w : trace_appends P w w.
Proof. exists []. by rewrite app_nil_r. Qed.

Lemma trace_appends_eq (P : Event → Prop) w w' :
  trace w' = trace w → trace_appends P w w'.
Proof. intros Ht. exists []. by rewrite Ht, app_nil_r. Qed.

Lemma trace_appends_emit (P : Event → Prop) e w : P e → trace_appends P w (emit e w).
Proof. intros He. exists [e]. split; [done|]. by constructor. Qed.

Lemma trace_appends_same (P : Event → Prop) w1 w2 w3 :
  trace_appends P w1 w2 → trace_appends P w2 w3 → trace_appends P w1 w3.
Proof. by apply trace_appends_trans. Qed.

Lemma trace_appends_foldl {A} (P : Event → Prop) (step : World → A → World) (l : list A) :
  (∀ w x, trace_appends P w (step w x)) → ∀ w, trace_appends P w (foldl step w l).
Proof.
  intros Hstep. induction l as [|x l IH]; intros w; simpl; [apply trace_appends_refl|].
  by apply (trace_appends_same _ _ (step w x)).
Qed.

(** No step of [Restore] prints a checksum mismatch for the identifier of
    the preferences file. *)
Lemma fetchSharePaths_no_report stores : ∀ w,
  trace_appends (fun e => ¬ reports_checksum chasmPrefFile e)
    w (snd (fetchSharePaths stores w)).
Proof.
  induction stores as [|cs rest IH]; intros w; simpl; [apply trace_appends_refl|].
  pose proof (cs_Restore_frame cs w) as (_ & _ & _ & Ht).
  destruct (cs_Restore cs w) as [sp w1]. simpl in *.
  assert (trace_appends (fun e => ¬ reports_checksum chasmPrefFile e) w w1) as H1.
  { exists [EvRestore cs sp]. split; [done|]. by constructor. }
  case_bool_decide; simpl.
  - apply (trace_appends_same _ _ w1); [done|]. by apply trace_appends_emit.
  - specialize (IH w1). destruct (fetchSharePaths rest w1) as [r w2]. simpl in *.
    by apply (trace_appends_same _ _ w1).
Qed.

Lemma readShares_no_report sid sharePaths : ∀ w,
  trace_appends (fun e => ¬ reports_checksum chasmPrefFile e)
    w (snd (readShares sid sharePaths w)).
Proof.
  induction sharePaths as [|sp rest IH]; intros w; simpl; [apply trace_appends_refl|].
  destruct (readStaged w sp sid).
  - specialize (IH w). by destruct (readShares sid rest w) as [[? ?] ?].
  - specialize (IH (print (SkippingShare (path.Join sp sid)) w)).
    destruct (readShares sid rest _) as [[? ?] ?]. simpl in *.
    eapply trace_appends_same; [|exact IH]. by apply trace_appends_emit.
Qed.

Lemma restoreShareID_no_report sid sharePaths w :
  trace_appends (fun e => ¬ reports_checksum chasmPrefFile e)
    w (snd (restoreShareID sid sharePaths w)).
Proof.
  unfold restoreShareID. pose proof (readShares_no_report sid sharePaths w) as H.
  destruct (readShares sid sharePaths w) as [[? ?] w1]. simpl in *.
  destruct (_ <? _); simpl; [|done].
  eapply trace_appends_same; [exact H|]. by apply trace_appends_emit.
Qed.

Lemma restoreFile_no_report sharePaths w entry :
  trace_appends (fun e => ¬ reports_checksum chasmPrefFile e)
    w (restoreFile sharePaths w entry).
Proof.
  destruct entry as [filePath fileShare]. unfold restoreFile.
  pose proof (restoreShareID_no_report (SID fileShare) sharePaths w) as H.
  destruct (restoreShareID (SID fileShare) sharePaths w) as [fileBytes w1]. simpl in *.
  case_bool_decide; [done|].
  destruct (bool_decide (SID fileShare ≠ chasmPrefFile)) eqn:Hsid; simpl.
  - apply bool_decide_eq_true in Hsid.
    destruct (negb _).
    + eapply trace_appends_same; [exact H|]. apply trace_appends_emit.
      unfold reports_checksum. congruence.
    + eapply trace_appends_same; [exact H|].
      eapply trace_appends_same; [by apply (trace_appends_emit _ (EvWriteFile filePath fileBytes))|].
      destruct (WriteFile _ _ _); [by apply trace_appends_eq|by apply trace_appends_emit].
  - eapply trace_appends_same; [exact H|].
    eapply trace_appends_same; [by apply (trace_appends_emit _ (EvWriteFile filePath fileBytes))|].
    destruct (WriteFile _ _ _); [by apply trace_appends_eq|by apply trace_appends_emit].
Qed.

Lemma Restore_no_report w :
  trace_appends (fun e => ¬ reports_checksum chasmPrefFile e) w (Restore w).
Proof.
  unfold Restore.
  pose proof (fetchSharePaths_no_report (AllCloudStores (preferences w)) w) as H1.
  destruct (fetchSharePaths _ w) as [[sharePaths|] w1]; simpl in *; [|done].
  eapply trace_appends_same; [exact H1|].
  pose proof (restoreShareID_no_report chasmPrefFile sharePaths w1) as H2.
  destruct (restoreShareID chasmPrefFile sharePaths w1) as [chasmFileBytes w2]. simpl in *.
  eapply trace_appends_same; [exact H2|].
  destruct (json_Unmarshal chasmFileBytes) as [restoredPrefs|];
    [|by apply trace_appends_emit].
  set (w3 := foldl restoreDir w2 (range (DirMap restoredPrefs))).
  set (w4 := foldl (restoreFile sharePaths) w3 (range (FileMap restoredPrefs))).
  apply (trace_appends_same _ _ w3).
  { apply trace_appends_foldl. intros wa x. unfold restoreDir.
    by apply (trace_appends_emit _ (EvMkdirAll (fst x))
                (set_disk (MkdirAll (disk wa) (fst x)) wa)). }
  apply (trace_appends_same _ _ w4).
  { apply trace_appends_foldl. intros wa x. apply restoreFile_no_report. }
  by apply trace_appends_emit.
Qed.

(** C6, as the code has it. The record of the preferences file is exempt
    by its identifier, not by its fingerprint.
    (1) When [CreateOrLoadChasmDir] finds no preferences file it can read,
    the record of the preferences file carries the reserved identifier and
    the empty fingerprint.
    (2) The fingerprint does not stay empty: [AddFile] on a path whose
    record carries the reserved identifier keeps the identifier, stores the
    fingerprint of the bytes the file has at the call, uploads one share
    per backend and does not save.
    (3) [Restore] does not look at the fingerprint of a record with the
    reserved identifier: when the shares of such a record of the
    reconstructed preferences combine to bytes that are not empty,
    [Restore] calls [WriteFile] with these bytes whatever fingerprint the
    record stores, and it prints no checksum mismatch for the reserved
    identifier at all. *)
Theorem preferences_record_is_exempt_by_its_identifier
        (root0 : string) (w0 : World)
        (w : World) (filePath : string) (fileBytes : bytes) (hash : string) (fuel : nat)
        (wr w1 : World) (sharePaths : list string) (restoredPrefs : ChasmPref)
        (recordPath : string) (fileShare : FileShare) :
  (ReadFile (disk w0) (path.Join root0 chasmPrefFile) = None →
   FileMap (preferences (CreateOrLoadChasmDir root0 w0)) !! path.Join root0 chasmPrefFile
   = Some {| SID := chasmPrefFile; Hash := "" |})
  ∧ (IsValidPath w filePath = true →
     node_at (disk w) filePath = Some (File fileBytes) →
     FileMap (preferences w) !! filePath = Some {| SID := chasmPrefFile; Hash := hash |} →
     length (CreateShares fileBytes chasmPrefFile (RegisteredServices (preferences w)))
     = RegisteredServices (preferences w) →
     ∃ w',
       AddFile (S fuel) filePath w = Returned w'
       ∧ FileMap (preferences w') !! filePath
         = Some {| SID := chasmPrefFile; Hash := SHA256Base64URL fileBytes |}
       ∧ trace w'
         = trace w
           ++ zip_with EvUpload (AllCloudStores (preferences w))
                (CreateShares fileBytes chasmPrefFile (RegisteredServices (preferences w))))
  ∧ (range_sound →
     fetchSharePaths (AllCloudStores (preferences wr)) wr = (Some sharePaths, w1) →
     manifest_of wr = Some restoredPrefs →
     FileMap restoredPrefs !! recordPath = Some fileShare →
     SID fileShare = chasmPrefFile →
     candidate (staging w1) (RegisteredServices (preferences wr)) chasmPrefFile sharePaths
     ≠ [] →
     ∃ evs,
       trace (Restore wr) = trace wr ++ evs ++ [EvPrint DoneRestored]
       ∧ written recordPath evs
         = [candidate (staging w1) (RegisteredServices (preferences wr))
              chasmPrefFile sharePaths]
       ∧ ¬ Exists (reports_checksum chasmPrefFile) evs).
Proof.
  split; [|split].
  - intros Hnew. apply CreateOrLoadChasmDir_new_record.
    by apply MkdirAll_ReadFile_None.
  - apply AddFile_on_preferences_file_stores_its_fingerprint.
  - intros Hrange Hfetch Hman Hrec Hsid Hne.
    destruct (range_sound_keys (FileMap restoredPrefs) Hrange) as [Hnd Hmem].
    destruct (Restore_spec wr w1 sharePaths restoredPrefs Hfetch Hman Hnd)
      as (evs & Ht & Hin & _).
    destruct (Hin recordPath fileShare) as (Hw & _); [by apply Hmem|].
    exists evs. split; [done|]. split.
    + rewrite Hw. unfold expected_writes. rewrite Hsid.
      rewrite bool_decide_eq_false_2 by done.
      by rewrite (bool_decide_eq_false_2 (chasmPrefFile ≠ chasmPrefFile)) by (by intros H).
    + destruct (Restore_no_report wr) as (evs' & Ht' & Hall).
      rewrite Ht in Ht'. apply app_inv_head in Ht'. subst evs'.
      apply Forall_app in Hall as [Hall _].
      intros Hex. apply Exists_exists in Hex as (e & He & Hrep).
      rewrite Forall_forall in Hall. by apply (Hall e He).
Qed.

End ReservedIdentifier.

Section RestoreToDisk.

Context `{Ext : Externals}.



End RestoreToDisk.

(** ** The coordinator on concrete worlds *)

Section Runs.

Import Demo.

Local Ltac run := vm_compute; reflexivity.
Local Ltac decide_by_run :=
  match goal with |- ?P => refine (@bool_decide_unpack P _ _) end; vm_compute; exact I.

Lemma demo_range_sound : range_sound.
Proof. intros A m. reflexivity. Qed.

(** C7 at an empty directory. [AddFile] on a directory without entries
    marks it in the directory set and returns: nothing is saved, the
    preferences file on the disk does not list the directory. [DeleteFile]
    on the tracked directory removes the mark and returns without a save
    either. *)
Theorem AddFile_and_DeleteFile_on_empty_directory_do_not_save :
  DirMap (preferences with_empty_dir) !! "/r/e" = None
  ∧ ReadDir (disk with_empty_dir) "/r/e" = []
  ∧ AddFile 1 "/r/e" with_empty_dir
    = Returned (set_preferences
                  (fun p => set_DirMap (<["/r/e" := true]> (DirMap p)) p) with_empty_dir)
  ∧ saves (trace (add "/r/e" with_empty_dir)) = 0
  ∧ DirMap <$> (ReadFile (disk (add "/r/e" with_empty_dir)) "/r/.chasm" ≫= json_Unmarshal)
    = Some ∅
  ∧ DirMap (preferences empty_dir_tracked) !! "/r/e" = Some true
  ∧ DeleteFile 1 "/r/e" empty_dir_tracked
    = Returned (set_preferences
                  (fun p => set_DirMap (delete "/r/e" (DirMap p)) p) empty_dir_tracked).
Proof. repeat apply conj; vm_compute; reflexivity. Qed.

(** C1 at a zero-length file. The empty file is added: its record carries
    the fingerprint of its bytes and both backends hold its shares. After
    the loss of the files [Restore] reads the record back from the backends,
    writes the file of five bytes and prints that it is done, and writes
    nothing to the path of the empty file, which stays missing. *)
Theorem Restore_does_not_write_back_an_empty_file :
  ReadFile (disk two_files) "/r/empty" = Some []
  ∧ FileMap (preferences two_files_added) !! "/r/empty"
    = Some {| SID := "id-0"; Hash := SHA256Base64URL [] |}
  ∧ holds two_files_lost folder "id-0" = Some []
  ∧ holds two_files_lost drive "id-0" = Some []
  ∧ manifest_of two_files_lost ≫= (fun restoredPrefs => FileMap restoredPrefs !! "/r/empty")
    = Some {| SID := "id-0"; Hash := SHA256Base64URL [] |}
  ∧ written "/r/empty" (trace (Restore two_files_lost)) = []
  ∧ node_at (disk (Restore two_files_lost)) "/r/empty" = None
  ∧ written "/r/full.txt" (trace (Restore two_files_lost)) = [bytes_of_string "hello"]
  ∧ ReadFile (disk (Restore two_files_lost)) "/r/full.txt" = Some (bytes_of_string "hello")
  ∧ last (printed (trace (Restore two_files_lost))) = Some DoneRestored.
Proof. repeat apply conj; vm_compute; reflexivity. Qed.

(** C4 with an empty file among the others. The drive backend lacks the
    share of the file of five bytes; every other record of the manifest has
    its shares at both backends. [Restore] runs to its end and skips the file
    of five bytes for want of shares; the empty file, whose shares are all
    there, is not written either. *)
Theorem Restore_with_a_missing_share_also_skips_the_empty_file :
  holds one_share_missing drive "id-1" = None
  ∧ holds one_share_missing folder "id-1" = Some (bytes_of_string "hello")
  ∧ holds one_share_missing folder "id-0" = Some []
  ∧ holds one_share_missing drive "id-0" = Some []
  ∧ (fun restoredPrefs => (fun kv => (fst kv, SID (snd kv))) <$> range (FileMap restoredPrefs))
      <$> manifest_of one_share_missing
    = Some [("/r/empty", "id-0"); ("/r/.chasmignore", ".chasmignore");
            ("/r/.chasm", ".chasm"); ("/r/full.txt", "id-1")]
  ∧ printed (trace (Restore one_share_missing))
    = [SkippingShare "/tmp/restore-drive/id-1"; NotEnoughShares "id-1"; DoneRestored]
  ∧ written "/r/full.txt" (trace (Restore one_share_missing)) = []
  ∧ written "/r/.chasmignore" (trace (Restore one_share_missing)) = [defaultIgnore]
  ∧ written "/r/empty" (trace (Restore one_share_missing)) = []
  ∧ node_at (disk (Restore one_share_missing)) "/r/empty" = None.
Proof. repeat apply conj; vm_compute; reflexivity. Qed.

(** C5 at an empty reconstruction. The manifest on the backends records the
    file with the fingerprint of five bytes; the shares at both backends are
    those of the truncated file and combine to no bytes, which do not match
    the fingerprint. [Restore] does not write the file, and prints nothing
    about its checksum: it only prints that it is done. *)
Theorem Restore_skips_an_empty_reconstruction_without_a_checksum_report :
  manifest_of truncated ≫= (fun restoredPrefs => FileMap restoredPrefs !! "/r/f.txt")
  = Some {| SID := "id-0"; Hash := SHA256Base64URL (bytes_of_string "hello") |}
  ∧ holds truncated folder "id-0" = Some []
  ∧ holds truncated drive "id-0" = Some []
  ∧ CombineShares [ {| share_SID := "id-0"; share_Data := [] |};
                    {| share_SID := "id-0"; share_Data := [] |} ] = []
  ∧ checkSHA2 (SHA256Base64URL (bytes_of_string "hello")) [] = false
  ∧ written "/r/f.txt" (trace (Restore truncated)) = []
  ∧ node_at (disk (Restore truncated)) "/r/f.txt" = None
  ∧ printed (trace (Restore truncated)) = [DoneRestored].
Proof. repeat apply conj; vm_compute; reflexivity. Qed.

(** With one registered backend [NeedSetup] is true, and [DeleteFile] on a
    tracked file still asks the backend to delete the share, removes the
    record and saves; [AddFile] still records and uploads. *)
Lemma DeleteFile_and_AddFile_run_with_one_backend :
  NeedSetup (preferences single_tracked) = true
  ∧ FileMap (preferences single_tracked) !! "/r/a.txt"
    = Some {| SID := "id-0"; Hash := SHA256Base64URL (bytes_of_string "aa") |}
  ∧ DeleteFile 1 "/r/a.txt" single_tracked
    = Returned (world_of (DeleteFile 1 "/r/a.txt" single_tracked))
  ∧ FileMap (preferences (world_of (DeleteFile 1 "/r/a.txt" single_tracked))) !! "/r/a.txt"
    = None
  ∧ deleted (trace (world_of (DeleteFile 1 "/r/a.txt" single_tracked))) = [(folder, "id-0")]
  ∧ saves (trace (world_of (DeleteFile 1 "/r/a.txt" single_tracked))) = 1
  ∧ printed (trace (world_of (DeleteFile 1 "/r/a.txt" single_tracked))) = [DeletedShare]
  ∧ AddFile 1 "/r/n.txt" single_tracked
    = Returned (world_of (AddFile 1 "/r/n.txt" single_tracked))
  ∧ FileMap (preferences (world_of (AddFile 1 "/r/n.txt" single_tracked))) !! "/r/n.txt"
    = Some {| SID := "id-1"; Hash := SHA256Base64URL (bytes_of_string "nn") |}
  ∧ uploaded (trace (world_of (AddFile 1 "/r/n.txt" single_tracked)))
    = [(folder, {| share_SID := "id-1"; share_Data := bytes_of_string "nn" |})].
Proof. repeat apply conj; vm_compute; reflexivity. Qed.

(** After the root is initialised the record of the preferences file has the
    empty fingerprint; [AddFile] on the preferences file replaces it by the
    fingerprint of the bytes of the file, which is not empty. *)
Lemma AddFile_on_preferences_file_replaces_the_empty_fingerprint :
  FileMap (preferences initialised) !! "/r/.chasm" = Some {| SID := ".chasm"; Hash := "" |}
  ∧ ReadFile (disk initialised) "/r/.chasm" = Some (json_MarshalIndent (preferences initialised))
  ∧ AddFile 1 "/r/.chasm" initialised = Returned (world_of (AddFile 1 "/r/.chasm" initialised))
  ∧ FileMap (preferences (world_of (AddFile 1 "/r/.chasm" initialised))) !! "/r/.chasm"
    = Some {| SID := ".chasm";
              Hash := SHA256Base64URL (json_MarshalIndent (preferences initialised)) |}
  ∧ bool_decide (SHA256Base64URL (json_MarshalIndent (preferences initialised)) = "") = false.
Proof. repeat apply conj; vm_compute; reflexivity. Qed.


(** The hypotheses of the theorems above hold in concrete worlds. *)

Lemma DeleteFile_ignored_witness :
  FileMap (preferences now_ignored) !! "/r/x.tmp"
  = Some {| SID := "id-0"; Hash := SHA256Base64URL (bytes_of_string "x") |}
  ∧ DeleteFile 1 "/r/x.tmp" now_ignored
    = Returned (print (PathIgnored "/r/x.tmp") now_ignored).
Proof.
  split; [vm_compute; reflexivity|].
  apply (DeleteFile_ignored_is_noop now_ignored "/r/x.tmp" 0).
  exists (bytes_of_string (".DS_Store" +:+ nl +:+ "x.tmp" +:+ nl)), "x.tmp".
  repeat apply conj; [vm_compute; reflexivity | decide_by_run | vm_compute; reflexivity].
Defined.

Lemma Restore_abort_witness :
  drive ∈ AllCloudStores (preferences drive_down)
  ∧ fetch_fails drive_down drive
  ∧ disk (Restore drive_down) = disk drive_down
  ∧ preferences (Restore drive_down) = preferences drive_down.
Proof.
  assert (drive ∈ AllCloudStores (preferences drive_down)) as H1 by decide_by_run.
  assert (fetch_fails drive_down drive) as H2 by (vm_compute; reflexivity).
  destruct (Restore_aborts_when_a_fetch_fails drive_down drive H1 H2)
    as (calls & cs' & _ & _ & _ & _ & Hd & Hp).
  exact (conj H1 (conj H2 (conj Hd Hp))).
Defined.

Lemma AddFile_upload_witness :
  IsValidPath two_files "/r/full.txt" = true
  ∧ node_at (disk two_files) "/r/full.txt" = Some (File (bytes_of_string "hello"))
  ∧ length (CreateShares (bytes_of_string "hello") (share_id_for two_files "/r/full.txt") 2) = 2
  ∧ ∃ w', AddFile 1 "/r/full.txt" two_files = Returned w'.
Proof.
  assert (IsValidPath two_files "/r/full.txt" = true) as H1 by (vm_compute; reflexivity).
  assert (node_at (disk two_files) "/r/full.txt" = Some (File (bytes_of_string "hello")))
    as H2 by (vm_compute; reflexivity).
  assert (length (CreateShares (bytes_of_string "hello")
                    (share_id_for two_files "/r/full.txt")
                    (RegisteredServices (preferences two_files)))
          = RegisteredServices (preferences two_files)) as H3 by (vm_compute; reflexivity).
  destruct (AddFile_uploads_share_i_to_backend_i two_files "/r/full.txt"
              (bytes_of_string "hello") 0 H1 H2 H3) as (w' & saves' & He & _).
  repeat apply conj; [exact H1|exact H2|vm_compute; reflexivity|].
  exists w'. exact He.
Defined.

Lemma operations_run_with_one_backend_witness :
  NeedSetup (preferences single_tracked) = true
  ∧ ∃ w', DeleteFile 1 "/r/a.txt" single_tracked = Returned w'
          ∧ FileMap (preferences w') = delete "/r/a.txt" (FileMap (preferences single_tracked)).
Proof.
  assert (NeedSetup (preferences single_tracked) = true) as H1 by (vm_compute; reflexivity).
  destruct (operations_run_below_two_backends single_tracked
              "/r/n.txt" (bytes_of_string "nn")
              "/r/a.txt" {| SID := "id-0"; Hash := SHA256Base64URL (bytes_of_string "aa") |} 0)
    as (_ & _ & (w' & data & He & Hfm & _) & _);
    try (vm_compute; reflexivity).
  split; [exact H1|]. exists w'. by split.
Defined.


Lemma Restore_checksum_mismatch_witness :
  candidate (staging (fetched tampered)) 2 "id-1" ["/tmp/restore-box"; "/tmp/restore-drive"]
  = bytes_of_string "jello"
  ∧ ∃ evs, trace (Restore tampered) = trace tampered ++ evs ++ [EvPrint DoneRestored]
           ∧ EvPrint (InvalidChecksum "id-1") ∈ evs
           ∧ written "/r/full.txt" evs = [].
Proof.
  split; [vm_compute; reflexivity|].
  apply (Restore_reports_a_checksum_mismatch tampered (fetched tampered)
           ["/tmp/restore-box"; "/tmp/restore-drive"] (manifest tampered) "/r/full.txt"
           {| SID := "id-1"; Hash := SHA256Base64URL (bytes_of_string "hello") |}).
  - exact demo_range_sound.
  - vm_compute; reflexivity.
  - vm_compute; reflexivity.
  - vm_compute; reflexivity.
  - decide_by_run.
  - decide_by_run.
  - vm_compute; reflexivity.
Defined.



Lemma preferences_record_witness :
  ReadFile (disk fresh) (path.Join "/r" chasmPrefFile) = None
  ∧ FileMap (preferences (CreateOrLoadChasmDir "/r" fresh)) !! path.Join "/r" chasmPrefFile
    = Some {| SID := chasmPrefFile; Hash := "" |}
  ∧ (∃ w', AddFile 1 "/r/.chasm" initialised = Returned w'
           ∧ FileMap (preferences w') !! "/r/.chasm"
             = Some {| SID := chasmPrefFile;
                       Hash := SHA256Base64URL (json_MarshalIndent (preferences initialised)) |})
  ∧ FileMap (manifest two_files_lost) !! "/r/.chasm"
    = Some {| SID := chasmPrefFile; Hash := "" |}
  ∧ ∃ evs, trace (Restore two_files_lost)
           = trace two_files_lost ++ evs ++ [EvPrint DoneRestored]
           ∧ written "/r/.chasm" evs
             = [candidate (staging (fetched two_files_lost))
                  (RegisteredServices (preferences two_files_lost)) chasmPrefFile
                  ["/tmp/restore-box"; "/tmp/restore-drive"]].
Proof.
  assert (ReadFile (disk fresh) (path.Join "/r" chasmPrefFile) = None) as Hnew
    by (vm_compute; reflexivity).
  assert (FileMap (manifest two_files_lost) !! "/r/.chasm"
          = Some {| SID := chasmPrefFile; Hash := "" |}) as Hrec
    by (vm_compute; reflexivity).
  destruct (preferences_record_is_exempt_by_its_identifier
              "/r" fresh
              initialised "/r/.chasm" (json_MarshalIndent (preferences initialised)) "" 0
              two_files_lost (fetched two_files_lost)
              ["/tmp/restore-box"; "/tmp/restore-drive"] (manifest two_files_lost)
              "/r/.chasm" {| SID := chasmPrefFile; Hash := "" |})
    as (Hcreate & Hadd & Hrestore).
  split; [exact Hnew|]. split; [exact (Hcreate Hnew)|]. split.
  - destruct Hadd as (w' & He & Hfm & _).
    + vm_compute; reflexivity.
    + vm_compute; reflexivity.
    + vm_compute; reflexivity.
    + vm_compute; reflexivity.
    + exists w'. exact (conj He Hfm).
  - split; [exact Hrec|].
    destruct Hrestore as (evs & Ht & Hw & _).
    + exact demo_range_sound.
    + vm_compute; reflexivity.
    + vm_compute; reflexivity.
    + exact Hrec.
    + reflexivity.
    + decide_by_run.
    + exists evs. exact (conj Ht Hw).
Defined.

Lemma DeleteFile_returns_witness :
  ∃ w', DeleteFile 3 "/r/d" tree_tracked = Returned w'
        ∧ size (DirMap (preferences w')) ≤ size (DirMap (preferences tree_tracked)).
Proof.
  apply (DeleteFile_returns 3 tree_tracked "/r/d").
  apply Nat.ltb_lt. vm_compute; reflexivity.
Defined.

Lemma AddFile_never_forgets_witness :
  AddFile 4 "/r/d" tree = Returned (add "/r/d" tree)
  ∧ ∀ k fs, FileMap (preferences tree) !! k = Some fs →
      ∃ fs', FileMap (preferences (add "/r/d" tree)) !! k = Some fs' ∧ SID fs' = SID fs.
Proof.
  assert (AddFile 4 "/r/d" tree = Returned (add "/r/d" tree)) as H1 by (vm_compute; reflexivity).
  split; [exact H1|].
  exact (proj1 (AddFile_never_forgets 4 "/r/d" tree (add "/r/d" tree) (or_introl H1))).
Defined.

Lemma AddFile_directory_witness :
  "a.txt" ∈ ReadDir (disk tree) "/r/d"
  ∧ DirMap (preferences (add "/r/d" tree)) !! path.Clean "/r/d" = Some true
  ∧ is_Some (FileMap (preferences (add "/r/d" tree)) !! path.Join "/r/d" "a.txt").
Proof.
  assert ("a.txt" ∈ ReadDir (disk tree) "/r/d") as Hin by decide_by_run.
  destruct (AddFile_directory_tracks_its_files 4 "/r/d" tree (add "/r/d" tree))
    as (Hd & Hf); try (vm_compute; reflexivity).
  split; [exact Hin|]. split; [exact Hd|].
  apply (Hf "a.txt" (bytes_of_string "aa") Hin); vm_compute; reflexivity.
Defined.

Lemma AddFile_too_few_shares_witness :
  length (@CreateShares short_ext (bytes_of_string "hello")
            (@share_id_for short_ext two_files "/r/full.txt") 2) = 1
  ∧ ∃ w', @AddFile short_ext 1 "/r/full.txt" two_files = Panicked w'
          ∧ is_Some (FileMap (preferences w') !! "/r/full.txt")
          ∧ disk w' = disk two_files.
Proof.
  split; [vm_compute; reflexivity|].
  destruct (@AddFile_panics_on_too_few_shares short_ext 0 "/r/full.txt" two_files
              (bytes_of_string "hello"))
    as (w' & He & Hrec & _ & _ & Hd).
  - vm_compute; reflexivity.
  - vm_compute; reflexivity.
  - apply Nat.ltb_lt. vm_compute; reflexivity.
  - exists w'. split; [exact He|]. split; [|exact Hd]. rewrite Hrec. by eexists.
Defined.

Lemma AddFile_again_witness :
  ∃ w1 w2, AddFile 1 "/r/full.txt" two_files = Returned w1
           ∧ AddFile 1 "/r/full.txt" w1 = Returned w2
           ∧ preferences w2 = preferences w1
           ∧ drawn w2 = drawn w1.
Proof.
  destruct (AddFile_again_keeps_the_record 0 0 "/r/full.txt" two_files (bytes_of_string "hello"))
    as (w1 & w2 & saves' & H1 & _ & H2 & Hp & Hn & _).
  - vm_compute; reflexivity.
  - vm_compute; reflexivity.
  - decide_by_run.
  - apply Nat.leb_le. vm_compute; reflexivity.
  - exists w1, w2. exact (conj H1 (conj H2 (conj Hp Hn))).
Defined.

Lemma AddFile_then_DeleteFile_witness :
  ∃ w1 w2, AddFile 1 "/r/full.txt" two_files = Returned w1
           ∧ DeleteFile 1 "/r/full.txt" w1 = Returned w2
           ∧ FileMap (preferences w2) = delete "/r/full.txt" (FileMap (preferences two_files))
           ∧ holds w2 folder (share_id_for two_files "/r/full.txt") = None.
Proof.
  destruct (AddFile_then_DeleteFile 0 0 "/r/full.txt" two_files (bytes_of_string "hello"))
    as (w1 & w2 & H1 & H2 & Hf & _ & _ & Hh).
  - vm_compute; reflexivity.
  - vm_compute; reflexivity.
  - vm_compute; reflexivity.
  - apply Nat.leb_le. vm_compute; reflexivity.
  - exists w1, w2. repeat apply conj; [exact H1|exact H2|exact Hf|].
    apply Hh. decide_by_run.
Defined.

Lemma DeleteFile_only_removes_witness :
  DeleteFile 3 "/r/d" tree_tracked = Returned (world_of (DeleteFile 3 "/r/d" tree_tracked))
  ∧ FileMap (preferences (world_of (DeleteFile 3 "/r/d" tree_tracked)))
    ⊆ FileMap (preferences tree_tracked).
Proof.
  assert (DeleteFile 3 "/r/d" tree_tracked
          = Returned (world_of (DeleteFile 3 "/r/d" tree_tracked))) as H1
    by (vm_compute; reflexivity).
  split; [exact H1|].
  exact (proj1 (DeleteFile_only_removes 3 "/r/d" tree_tracked _ H1)).
Defined.

Lemma DeleteFile_again_witness :
  ∃ w1, DeleteFile 1 "/r/a.txt" single_tracked = Returned w1
        ∧ DeleteFile 1 "/r/a.txt" w1 = Returned (print (PathNotTracked "/r/a.txt") w1).
Proof.
  destruct (DeleteFile_again_reports_untracked 0 0 "/r/a.txt" single_tracked
              {| SID := "id-0"; Hash := SHA256Base64URL (bytes_of_string "aa") |})
    as (w1 & H1 & _ & H2).
  - vm_compute; reflexivity.
  - vm_compute; reflexivity.
  - vm_compute; reflexivity.
  - exists w1. exact (conj H1 H2).
Defined.

Lemma Restore_directories_witness :
  manifest_of tree_uploaded = Some (manifest tree_uploaded)
  ∧ DirMap (preferences (Restore tree_uploaded)) !! "/r/d/sub" = Some true.
Proof.
  assert (manifest_of tree_uploaded = Some (manifest tree_uploaded)) as Hm
    by (vm_compute; reflexivity).
  split; [exact Hm|].
  destruct (Restore_marks_the_directories_of_the_manifest tree_uploaded
              (manifest tree_uploaded) demo_range_sound Hm) as (Hd & _).
  rewrite Hd. vm_compute; reflexivity.
Defined.

Lemma Restore_needs_the_preferences_witness :
  holds manifest_share_missing drive chasmPrefFile = None
  ∧ disk (Restore manifest_share_missing) = disk manifest_share_missing
  ∧ preferences (Restore manifest_share_missing) = preferences manifest_share_missing.
Proof.
  assert (holds manifest_share_missing drive chasmPrefFile = None) as Hn
    by (vm_compute; reflexivity).
  split; [exact Hn|].
  destruct (Restore_needs_the_share_of_the_preferences manifest_share_missing drive)
    as (evs & _ & _ & Hd & Hp).
  - vm_compute; reflexivity.
  - decide_by_run.
  - decide_by_run.
  - decide_by_run.
  - exact Hn.
  - by split.
Defined.

Lemma restoreShareID_witness :
  length ["/tmp/restore-box"; "/tmp/restore-drive"]
  = RegisteredServices (preferences (fetched two_files_lost))
  ∧ fst (restoreShareID "id-1" ["/tmp/restore-box"; "/tmp/restore-drive"]
           (fetched two_files_lost)) = bytes_of_string "hello".
Proof.
  assert (length ["/tmp/restore-box"; "/tmp/restore-drive"]
          = RegisteredServices (preferences (fetched two_files_lost))) as Hl
    by (vm_compute; reflexivity).
  split; [exact Hl|].
  destruct (restoreShareID_combines_complete_sets_only "id-1"
              ["/tmp/restore-box"; "/tmp/restore-drive"] (fetched two_files_lost) Hl)
    as [(sp & _ & _ & He & _)|(datas & _ & He)].
  - vm_compute; reflexivity.
  - vm_compute; reflexivity.
Defined.

Lemma CreateOrLoadChasmDir_new_root_witness :
  ReadFile (disk fresh) (path.Join "/r" chasmPrefFile) = None
  ∧ DirMap (preferences (CreateOrLoadChasmDir "/r" fresh)) = ∅
  ∧ root (preferences (CreateOrLoadChasmDir "/r" fresh)) = "/r".
Proof.
  assert (ReadFile (disk fresh) (path.Join "/r" chasmPrefFile) = None) as H1
    by (vm_compute; reflexivity).
  assert (ReadFile (disk fresh) (path.Join "/r" chasmIgnoreFile) = None) as H2
    by (vm_compute; reflexivity).
  destruct (CreateOrLoadChasmDir_new_root "/r" fresh H1 H2) as (Hp & _).
  split; [exact H1|]. by rewrite Hp.
Defined.

Lemma CreateOrLoadChasmDir_load_witness :
  preferences later_run = emptyPref
  ∧ preferences (CreateOrLoadChasmDir (root (preferences initialised)) later_run)
    = preferences initialised.
Proof.
  assert (is_Some (WriteFile (disk initialised)
                     (path.Join (root (preferences initialised)) chasmPrefFile)
                     (json_MarshalIndent (preferences initialised)))) as H1 by decide_by_run.
  assert (json_Unmarshal (json_MarshalIndent (preferences initialised))
          = Some (set_root "" (preferences initialised))) as H2 by (vm_compute; reflexivity).
  assert (preferences later_run = emptyPref) as H3 by (vm_compute; reflexivity).
  assert (disk later_run = disk (Save initialised)) as H4 by (vm_compute; reflexivity).
  assert (MkdirAll (disk later_run) (root (preferences initialised)) = disk later_run)
    as H5 by (vm_compute; reflexivity).
  assert (is_Some (ReadFile (disk later_run)
                     (path.Join (root (preferences initialised)) chasmIgnoreFile)))
    as H6 by decide_by_run.
  exact (conj H3 (proj1 (CreateOrLoadChasmDir_loads_what_Save_wrote initialised later_run
                           H1 H2 H3 H4 H5 H6))).
Defined.

Lemma IsValidPath_by_name_witness :
  IsValidPath now_ignored (path.Join "/r/d" "x.tmp") = IsValidPath now_ignored "x.tmp"
  ∧ IsValidPath now_ignored "x.tmp" = false.
Proof.
  destruct (IsValidPath_goes_by_the_name now_ignored "/r/d" "x.tmp") as (H1 & _).
  - repeat split; try done. repeat constructor.
  - split; [exact H1|]. vm_compute; reflexivity.
Defined.

End Runs.
